(** * Timer and time-entry sync of the Azure DevOps Code Companion

    A shallow embedding of the timer subsystem of [src/extension.ts]
    (the timer state machine, the inactivity monitor, the Pomodoro check of
    the tick, the time-entry ledger and the sync engine), followed by the
    properties of the specification proved against it.

    Conventions of the embedding.
    - JavaScript numbers are integers, [Z]: every number the program itself
      produces is one ([Date.now()], [Math.floor] results, second counts),
      and [Math.floor (x / 1000)] is [x / 1000] on [Z] (floor division). A
      number with a fraction can only come from a store that something else
      wrote; the numbers of the store are integers here too, and the one
      statement that would not survive a fraction (the clock of the status
      bar) is made for a process that starts without a stored snapshot.
    - The module-level [let] variables of the extension are the fields of
      [World]; [context.globalState] is the record [GlobalState]; the
      workspace configuration is [Config].
    - Interval and timeout handles are modelled by what matters of them:
      whether they are armed (and, for the inactivity interval, the timeout
      captured by its closure).
    - Status bar, context keys, webview pushes and information messages are
      the UI collaborator's and are left out; the answer a user gives to a
      prompt comes with the event that resumes the function that asked.
    - All [Date.now()] readings of one synchronous run are one instant, but
      for [stopTimerCommand]: the reading its duration is computed from and
      the reading that becomes the end time of the entry are kept apart.
    - The event loop is cooperative. A pass of [syncPendingTimeEntries] and
      a run of [stopTimerCommand] are modelled step by step, suspended at
      each [await], so that calls, passes and stops can overlap; the
      suspended runs are kept in [syncPasses] and [stopCalls].
    - The remote collaborator is known by its interface only: a call of
      [addTimeEntry] resolves, or rejects with an error object that may carry
      a message. The hours passed to it are a floating-point quantity and
      are not recorded. *)

From stdpp Require Import base list strings.
From Stdlib Require Import ZArith Lia.

Local Open Scope Z_scope.

(** ** JavaScript values, as far as the persisted snapshot needs them *)

(** A number is an integer (see the conventions above). *)
Inductive jsval :=
| JUndefined
| JNull
| JBool (b : bool)
| JNum (n : Z)
| JStr (s : string).

Inductive jstype := TyUndefined | TyObject | TyBoolean | TyNumber | TyString.

Definition typeof (v : jsval) : jstype :=
  match v with
  | JUndefined => TyUndefined
  | JNull => TyObject
  | JBool _ => TyBoolean
  | JNum _ => TyNumber
  | JStr _ => TyString
  end.

Definition jstype_eqb (a b : jstype) : bool :=
  match a, b with
  | TyUndefined, TyUndefined | TyObject, TyObject | TyBoolean, TyBoolean
  | TyNumber, TyNumber | TyString, TyString => true
  | _, _ => false
  end.

(** [if (v)] on a primitive. *)
Definition truthy (v : jsval) : bool :=
  match v with
  | JUndefined | JNull => false
  | JBool b => b
  | JNum n => negb (n =? 0)
  | JStr s => negb (String.eqb s "")
  end.

(** [v > k], [v >= k] and [v <= k] against a numeric literal; the code reaches
    them only behind a [typeof v === 'number'] test of the same operand. *)
Definition js_gt (v : jsval) (k : Z) : bool :=
  match v with JNum n => k <? n | _ => false end.
Definition js_ge (v : jsval) (k : Z) : bool :=
  match v with JNum n => k <=? n | _ => false end.
Definition js_le (v : jsval) (k : Z) : bool :=
  match v with JNum n => n <=? k | _ => false end.

(** ** Data model *)

(** [interface WorkItem], the two fields the timer reads. *)
Record WorkItem := {
  System_Id : Z;
  System_Title : string
}.

(** [interface TimerState]. *)
Record TimerState := {
  workItemId : Z;
  workItemTitle : string;
  startTime : Z;
  pausedTime : option Z;
  elapsedSeconds : Z;
  isPaused : bool;
  isPomodoro : option bool;
  pomodoroCount : option Z;
  pausedDueToInactivity : option bool
}.

(** [interface TimeEntry]. *)
Record TimeEntry := {
  entry_id : string;
  entry_workItemId : Z;
  entry_workItemTitle : option string;
  entry_startTime : Z;
  entry_endTime : Z;
  entry_duration : Z;
  entry_synced : bool;
  entry_syncError : option string;
  entry_deviceId : option string
}.

(** What [globalState.get('currentTimer')] can hand back: the store is
    outside the program, so the five fields that [isValidTimerState] tests
    are values of any JavaScript type (a number among them being an
    integer); the optional fields, which nothing tests, are taken at their
    declared types. *)
Record SavedTimer := {
  saved_workItemId : jsval;
  saved_workItemTitle : jsval;
  saved_startTime : jsval;
  saved_elapsedSeconds : jsval;
  saved_isPaused : jsval;
  saved_pausedTime : option Z;
  saved_isPomodoro : option bool;
  saved_pomodoroCount : option Z;
  saved_pausedDueToInactivity : option bool
}.

Inductive stored :=
| StoredPrim (v : jsval)
| StoredObj (o : SavedTimer).

Definition stored_truthy (s : stored) : bool :=
  match s with
  | StoredPrim v => truthy v
  | StoredObj _ => true
  end.

(** Property access [timer.f]: a primitive has none of the fields. *)
Definition field (f : SavedTimer -> jsval) (s : stored) : jsval :=
  match s with
  | StoredPrim _ => JUndefined
  | StoredObj o => f o
  end.

(** What [globalState.update('currentTimer', currentTimer)] writes. *)
Definition toSaved (t : TimerState) : stored :=
  StoredObj {|
    saved_workItemId := JNum (workItemId t);
    saved_workItemTitle := JStr (workItemTitle t);
    saved_startTime := JNum (startTime t);
    saved_elapsedSeconds := JNum (elapsedSeconds t);
    saved_isPaused := JBool (isPaused t);
    saved_pausedTime := pausedTime t;
    saved_isPomodoro := isPomodoro t;
    saved_pomodoroCount := pomodoroCount t;
    saved_pausedDueToInactivity := pausedDueToInactivity t
  |}.

(** The keys of [context.globalState] the timer subsystem uses. *)
Record GlobalState := {
  gs_currentTimer : stored;
  gs_lastSaveTime : option Z;
  gs_lastPomodoroNotification : option Z;
  gs_timeEntries : list TimeEntry;
  gs_totalTimeTracked : option Z
}.

(** [vscode.workspace.getConfiguration('azureDevOps')], the keys read here;
    [None] is a key the user has not set. *)
Record Config := {
  cfg_pomodoroEnabled : option bool;
  cfg_timerInactivityTimeout : option Z;
  cfg_autoResumeOnActivity : option bool
}.

(** A suspended run of [syncPendingTimeEntries]: either inside
    [await azureDevOpsAPI.addTimeEntry] for the entry at ledger position [i],
    or inside the 500ms [await] after it. [rest] is what the [for] loop has
    still to visit; entries are object references in the code and ledger
    positions here. *)
Inductive PassState :=
| AwaitingRemote (i : nat) (rest : list nat) (syncedCount : nat)
| Sleeping (rest : list nat) (syncedCount : nat).

(** A suspended run of [stopTimerCommand]: inside the prompt that asks
    whether to save less than a minute, inside the prompt that asks whether
    to update the work item, or inside [await syncTimeEntryToAzure].
    [duration] is its local variable; its [timeEntry] object is known by its
    ledger position and its id. *)
Inductive StopState :=
| AwaitingConfirm (duration : Z)
| AwaitingUpdate (duration : Z) (position : nat) (timeEntryId : string)
| AwaitingPush (duration : Z) (position : nat) (timeEntryId : string).

(** The module-level state of the extension, with the runs of its async
    functions that are suspended. [remoteLog] is the collaborator's side:
    the ledger positions of the entries for which [addTimeEntry] was called,
    oldest first. *)
Record World := {
  azureDevOpsAPI : bool;
  currentTimer : option TimerState;
  timerInterval : bool;
  inactivityTimer : option Z;
  pomodoroBreakTimeout : bool;
  lastActivity : Z;
  lastActivityResumeTime : Z;
  timeEntries : list TimeEntry;
  timerStartLock : bool;
  isSyncingTimeEntries : bool;
  syncPasses : list PassState;
  stopCalls : list StopState;
  globalState : GlobalState;
  config : Config;
  remoteLog : list nat
}.

(** *** Field updates *)

Definition set_currentTimer (v : option TimerState) (w : World) : World :=
  {| azureDevOpsAPI := azureDevOpsAPI w; currentTimer := v;
     timerInterval := timerInterval w; inactivityTimer := inactivityTimer w;
     pomodoroBreakTimeout := pomodoroBreakTimeout w;
     lastActivity := lastActivity w;
     lastActivityResumeTime := lastActivityResumeTime w;
     timeEntries := timeEntries w; timerStartLock := timerStartLock w;
     isSyncingTimeEntries := isSyncingTimeEntries w;
     syncPasses := syncPasses w; stopCalls := stopCalls w;
     globalState := globalState w;
     config := config w; remoteLog := remoteLog w |}.

Definition set_timerInterval (v : bool) (w : World) : World :=
  {| azureDevOpsAPI := azureDevOpsAPI w; currentTimer := currentTimer w;
     timerInterval := v; inactivityTimer := inactivityTimer w;
     pomodoroBreakTimeout := pomodoroBreakTimeout w;
     lastActivity := lastActivity w;
     lastActivityResumeTime := lastActivityResumeTime w;
     timeEntries := timeEntries w; timerStartLock := timerStartLock w;
     isSyncingTimeEntries := isSyncingTimeEntries w;
     syncPasses := syncPasses w; stopCalls := stopCalls w;
     globalState := globalState w;
     config := config w; remoteLog := remoteLog w |}.

Definition set_inactivityTimer (v : option Z) (w : World) : World :=
  {| azureDevOpsAPI := azureDevOpsAPI w; currentTimer := currentTimer w;
     timerInterval := timerInterval w; inactivityTimer := v;
     pomodoroBreakTimeout := pomodoroBreakTimeout w;
     lastActivity := lastActivity w;
     lastActivityResumeTime := lastActivityResumeTime w;
     timeEntries := timeEntries w; timerStartLock := timerStartLock w;
     isSyncingTimeEntries := isSyncingTimeEntries w;
     syncPasses := syncPasses w; stopCalls := stopCalls w;
     globalState := globalState w;
     config := config w; remoteLog := remoteLog w |}.

Definition set_pomodoroBreakTimeout (v : bool) (w : World) : World :=
  {| azureDevOpsAPI := azureDevOpsAPI w; currentTimer := currentTimer w;
     timerInterval := timerInterval w; inactivityTimer := inactivityTimer w;
     pomodoroBreakTimeout := v;
     lastActivity := lastActivity w;
     lastActivityResumeTime := lastActivityResumeTime w;
     timeEntries := timeEntries w; timerStartLock := timerStartLock w;
     isSyncingTimeEntries := isSyncingTimeEntries w;
     syncPasses := syncPasses w; stopCalls := stopCalls w;
     globalState := globalState w;
     config := config w; remoteLog := remoteLog w |}.

Definition set_lastActivity (v : Z) (w : World) : World :=
  {| azureDevOpsAPI := azureDevOpsAPI w; currentTimer := currentTimer w;
     timerInterval := timerInterval w; inactivityTimer := inactivityTimer w;
     pomodoroBreakTimeout := pomodoroBreakTimeout w;
     lastActivity := v;
     lastActivityResumeTime := lastActivityResumeTime w;
     timeEntries := timeEntries w; timerStartLock := timerStartLock w;
     isSyncingTimeEntries := isSyncingTimeEntries w;
     syncPasses := syncPasses w; stopCalls := stopCalls w;
     globalState := globalState w;
     config := config w; remoteLog := remoteLog w |}.

Definition set_lastActivityResumeTime (v : Z) (w : World) : World :=
  {| azureDevOpsAPI := azureDevOpsAPI w; currentTimer := currentTimer w;
     timerInterval := timerInterval w; inactivityTimer := inactivityTimer w;
     pomodoroBreakTimeout := pomodoroBreakTimeout w;
     lastActivity := lastActivity w;
     lastActivityResumeTime := v;
     timeEntries := timeEntries w; timerStartLock := timerStartLock w;
     isSyncingTimeEntries := isSyncingTimeEntries w;
     syncPasses := syncPasses w; stopCalls := stopCalls w;
     globalState := globalState w;
     config := config w; remoteLog := remoteLog w |}.

Definition set_timeEntries (v : list TimeEntry) (w : World) : World :=
  {| azureDevOpsAPI := azureDevOpsAPI w; currentTimer := currentTimer w;
     timerInterval := timerInterval w; inactivityTimer := inactivityTimer w;
     pomodoroBreakTimeout := pomodoroBreakTimeout w;
     lastActivity := lastActivity w;
     lastActivityResumeTime := lastActivityResumeTime w;
     timeEntries := v; timerStartLock := timerStartLock w;
     isSyncingTimeEntries := isSyncingTimeEntries w;
     syncPasses := syncPasses w; stopCalls := stopCalls w;
     globalState := globalState w;
     config := config w; remoteLog := remoteLog w |}.

Definition set_timerStartLock (v : bool) (w : World) : World :=
  {| azureDevOpsAPI := azureDevOpsAPI w; currentTimer := currentTimer w;
     timerInterval := timerInterval w; inactivityTimer := inactivityTimer w;
     pomodoroBreakTimeout := pomodoroBreakTimeout w;
     lastActivity := lastActivity w;
     lastActivityResumeTime := lastActivityResumeTime w;
     timeEntries := timeEntries w; timerStartLock := v;
     isSyncingTimeEntries := isSyncingTimeEntries w;
     syncPasses := syncPasses w; stopCalls := stopCalls w;
     globalState := globalState w;
     config := config w; remoteLog := remoteLog w |}.

Definition set_isSyncingTimeEntries (v : bool) (w : World) : World :=
  {| azureDevOpsAPI := azureDevOpsAPI w; currentTimer := currentTimer w;
     timerInterval := timerInterval w; inactivityTimer := inactivityTimer w;
     pomodoroBreakTimeout := pomodoroBreakTimeout w;
     lastActivity := lastActivity w;
     lastActivityResumeTime := lastActivityResumeTime w;
     timeEntries := timeEntries w; timerStartLock := timerStartLock w;
     isSyncingTimeEntries := v;
     syncPasses := syncPasses w; stopCalls := stopCalls w;
     globalState := globalState w;
     config := config w; remoteLog := remoteLog w |}.

Definition set_syncPasses (v : list PassState) (w : World) : World :=
  {| azureDevOpsAPI := azureDevOpsAPI w; currentTimer := currentTimer w;
     timerInterval := timerInterval w; inactivityTimer := inactivityTimer w;
     pomodoroBreakTimeout := pomodoroBreakTimeout w;
     lastActivity := lastActivity w;
     lastActivityResumeTime := lastActivityResumeTime w;
     timeEntries := timeEntries w; timerStartLock := timerStartLock w;
     isSyncingTimeEntries := isSyncingTimeEntries w;
     syncPasses := v; stopCalls := stopCalls w;
     globalState := globalState w;
     config := config w; remoteLog := remoteLog w |}.

Definition set_stopCalls (v : list StopState) (w : World) : World :=
  {| azureDevOpsAPI := azureDevOpsAPI w; currentTimer := currentTimer w;
     timerInterval := timerInterval w; inactivityTimer := inactivityTimer w;
     pomodoroBreakTimeout := pomodoroBreakTimeout w;
     lastActivity := lastActivity w;
     lastActivityResumeTime := lastActivityResumeTime w;
     timeEntries := timeEntries w; timerStartLock := timerStartLock w;
     isSyncingTimeEntries := isSyncingTimeEntries w;
     syncPasses := syncPasses w; stopCalls := v;
     globalState := globalState w;
     config := config w; remoteLog := remoteLog w |}.

Definition set_globalState (v : GlobalState) (w : World) : World :=
  {| azureDevOpsAPI := azureDevOpsAPI w; currentTimer := currentTimer w;
     timerInterval := timerInterval w; inactivityTimer := inactivityTimer w;
     pomodoroBreakTimeout := pomodoroBreakTimeout w;
     lastActivity := lastActivity w;
     lastActivityResumeTime := lastActivityResumeTime w;
     timeEntries := timeEntries w; timerStartLock := timerStartLock w;
     isSyncingTimeEntries := isSyncingTimeEntries w;
     syncPasses := syncPasses w; stopCalls := stopCalls w;
     globalState := v;
     config := config w; remoteLog := remoteLog w |}.

Definition set_config (v : Config) (w : World) : World :=
  {| azureDevOpsAPI := azureDevOpsAPI w; currentTimer := currentTimer w;
     timerInterval := timerInterval w; inactivityTimer := inactivityTimer w;
     pomodoroBreakTimeout := pomodoroBreakTimeout w;
     lastActivity := lastActivity w;
     lastActivityResumeTime := lastActivityResumeTime w;
     timeEntries := timeEntries w; timerStartLock := timerStartLock w;
     isSyncingTimeEntries := isSyncingTimeEntries w;
     syncPasses := syncPasses w; stopCalls := stopCalls w;
     globalState := globalState w;
     config := v; remoteLog := remoteLog w |}.

Definition set_remoteLog (v : list nat) (w : World) : World :=
  {| azureDevOpsAPI := azureDevOpsAPI w; currentTimer := currentTimer w;
     timerInterval := timerInterval w; inactivityTimer := inactivityTimer w;
     pomodoroBreakTimeout := pomodoroBreakTimeout w;
     lastActivity := lastActivity w;
     lastActivityResumeTime := lastActivityResumeTime w;
     timeEntries := timeEntries w; timerStartLock := timerStartLock w;
     isSyncingTimeEntries := isSyncingTimeEntries w;
     syncPasses := syncPasses w; stopCalls := stopCalls w;
     globalState := globalState w;
     config := config w; remoteLog := v |}.

(** [context.globalState.update(key, value)], one function per key. *)
Definition update_currentTimer (v : stored) (w : World) : World :=
  set_globalState
    {| gs_currentTimer := v;
       gs_lastSaveTime := gs_lastSaveTime (globalState w);
       gs_lastPomodoroNotification :=
         gs_lastPomodoroNotification (globalState w);
       gs_timeEntries := gs_timeEntries (globalState w);
       gs_totalTimeTracked := gs_totalTimeTracked (globalState w) |} w.

Definition update_lastSaveTime (v : Z) (w : World) : World :=
  set_globalState
    {| gs_currentTimer := gs_currentTimer (globalState w);
       gs_lastSaveTime := Some v;
       gs_lastPomodoroNotification :=
         gs_lastPomodoroNotification (globalState w);
       gs_timeEntries := gs_timeEntries (globalState w);
       gs_totalTimeTracked := gs_totalTimeTracked (globalState w) |} w.

Definition update_lastPomodoroNotification (v : Z) (w : World) : World :=
  set_globalState
    {| gs_currentTimer := gs_currentTimer (globalState w);
       gs_lastSaveTime := gs_lastSaveTime (globalState w);
       gs_lastPomodoroNotification := Some v;
       gs_timeEntries := gs_timeEntries (globalState w);
       gs_totalTimeTracked := gs_totalTimeTracked (globalState w) |} w.

Definition update_timeEntries (v : list TimeEntry) (w : World) : World :=
  set_globalState
    {| gs_currentTimer := gs_currentTimer (globalState w);
       gs_lastSaveTime := gs_lastSaveTime (globalState w);
       gs_lastPomodoroNotification :=
         gs_lastPomodoroNotification (globalState w);
       gs_timeEntries := v;
       gs_totalTimeTracked := gs_totalTimeTracked (globalState w) |} w.

Definition update_totalTimeTracked (v : Z) (w : World) : World :=
  set_globalState
    {| gs_currentTimer := gs_currentTimer (globalState w);
       gs_lastSaveTime := gs_lastSaveTime (globalState w);
       gs_lastPomodoroNotification :=
         gs_lastPomodoroNotification (globalState w);
       gs_timeEntries := gs_timeEntries (globalState w);
       gs_totalTimeTracked := Some v |} w.

(** Updates of the fields of the live session that the code assigns. *)
Definition with_elapsedSeconds (v : Z) (t : TimerState) : TimerState :=
  {| workItemId := workItemId t; workItemTitle := workItemTitle t;
     startTime := startTime t; pausedTime := pausedTime t;
     elapsedSeconds := v; isPaused := isPaused t;
     isPomodoro := isPomodoro t; pomodoroCount := pomodoroCount t;
     pausedDueToInactivity := pausedDueToInactivity t |}.

Definition with_startTime (v : Z) (t : TimerState) : TimerState :=
  {| workItemId := workItemId t; workItemTitle := workItemTitle t;
     startTime := v; pausedTime := pausedTime t;
     elapsedSeconds := elapsedSeconds t; isPaused := isPaused t;
     isPomodoro := isPomodoro t; pomodoroCount := pomodoroCount t;
     pausedDueToInactivity := pausedDueToInactivity t |}.

Definition with_pausedTime (v : option Z) (t : TimerState) : TimerState :=
  {| workItemId := workItemId t; workItemTitle := workItemTitle t;
     startTime := startTime t; pausedTime := v;
     elapsedSeconds := elapsedSeconds t; isPaused := isPaused t;
     isPomodoro := isPomodoro t; pomodoroCount := pomodoroCount t;
     pausedDueToInactivity := pausedDueToInactivity t |}.

Definition with_isPaused (v : bool) (t : TimerState) : TimerState :=
  {| workItemId := workItemId t; workItemTitle := workItemTitle t;
     startTime := startTime t; pausedTime := pausedTime t;
     elapsedSeconds := elapsedSeconds t; isPaused := v;
     isPomodoro := isPomodoro t; pomodoroCount := pomodoroCount t;
     pausedDueToInactivity := pausedDueToInactivity t |}.

Definition with_pomodoroCount (v : option Z) (t : TimerState) : TimerState :=
  {| workItemId := workItemId t; workItemTitle := workItemTitle t;
     startTime := startTime t; pausedTime := pausedTime t;
     elapsedSeconds := elapsedSeconds t; isPaused := isPaused t;
     isPomodoro := isPomodoro t; pomodoroCount := v;
     pausedDueToInactivity := pausedDueToInactivity t |}.

Definition with_pausedDueToInactivity (v : option bool) (t : TimerState)
  : TimerState :=
  {| workItemId := workItemId t; workItemTitle := workItemTitle t;
     startTime := startTime t; pausedTime := pausedTime t;
     elapsedSeconds := elapsedSeconds t; isPaused := isPaused t;
     isPomodoro := isPomodoro t; pomodoroCount := pomodoroCount t;
     pausedDueToInactivity := v |}.

(** ** The timer state machine *)

(** [x || d] for a configuration number: unset and [0] both yield [d]. *)
Definition or_default (x : option Z) (d : Z) : Z :=
  match x with
  | Some n => if n =? 0 then d else n
  | None => d
  end.

(** [get<boolean>(key, d)]. *)
Definition get_bool (x : option bool) (d : bool) : bool :=
  match x with Some b => b | None => d end.

(** [if (x)] for an optional boolean field. *)
Definition flag (x : option bool) : bool := get_bool x false.

(** [startInactivityTimer]: the interval is armed with the timeout its
    closure captures, unless that timeout is [<= 0]. *)
Definition startInactivityTimer (w : World) : World :=
  let timeout := or_default (cfg_timerInactivityTimeout (config w)) 300 in
  let w1 := set_inactivityTimer None w in
  if timeout <=? 0 then w1 else set_inactivityTimer (Some timeout) w1.

(** [startTimerInterval]: (re)arms the one-second tick. *)
Definition startTimerInterval (w : World) : World :=
  startInactivityTimer (set_timerInterval true w).

(** [startTimer]. *)
Definition startTimer (workItem : WorkItem) (now : Z) (w : World) : World :=
  if timerStartLock w then w
  else match currentTimer w with
       | Some _ => w
       | None =>
         let w1 := set_timerStartLock true w in
         let isPomodoro := cfg_pomodoroEnabled (config w1) in
         let t := {| workItemId := System_Id workItem;
                     workItemTitle := System_Title workItem;
                     startTime := now;
                     pausedTime := None;
                     elapsedSeconds := 0;
                     isPaused := false;
                     isPomodoro := isPomodoro;
                     pomodoroCount := Some 0;
                     pausedDueToInactivity := None |} in
         let w2 := set_currentTimer (Some t) w1 in
         let w3 := update_lastPomodoroNotification 0 w2 in
         let w4 := update_currentTimer (toSaved t) w3 in
         let w5 := startTimerInterval w4 in
         let w6 := startInactivityTimer w5 in
         set_timerStartLock false w6
       end.

(** [pauseTimerCommand]. *)
Definition pauseTimerCommand (now : Z) (w : World) : World :=
  match currentTimer w with
  | None => w
  | Some t =>
    if isPaused t then w
    else
      let rawElapsed := (now - startTime t) / 1000 in
      let t1 := with_elapsedSeconds (Z.max 0 (Z.min rawElapsed 86400)) t in
      let t2 := with_pausedTime (Some now) (with_isPaused true t1) in
      let w1 := set_timerInterval false (set_currentTimer (Some t2) w) in
      update_lastSaveTime now (update_currentTimer (toSaved t2) w1)
  end.

(** [resumeTimerCommand]; [autoResumed] only selects the message shown. *)
Definition resumeTimerCommand (autoResumed : bool) (now : Z) (w : World)
  : World :=
  match currentTimer w with
  | None => w
  | Some t =>
    if negb (isPaused t) then w
    else
      let t1 :=
        match pausedTime t with
        | Some p =>
          if 0 <? p then
            let pausedDuration := Z.max 0 (now - p) in
            let cappedPausedDuration :=
              Z.min pausedDuration (24 * 60 * 60 * 1000) in
            with_startTime (startTime t + cappedPausedDuration) t
          else t
        | None => t
        end in
      let t2 := with_pausedTime None (with_isPaused false t1) in
      startTimerInterval
        (update_currentTimer (toSaved t2) (set_currentTimer (Some t2) w))
  end.

(** The body of the one-second interval armed by [startTimerInterval]. The
    Pomodoro prompt it may open is answered later, by [pomodoroStartBreak]. *)
Definition timerTick (now : Z) (w : World) : World :=
  match currentTimer w with
  | None => w
  | Some t =>
    if isPaused t then w
    else
      let rawElapsed := (now - startTime t) / 1000 in
      let t1 := with_elapsedSeconds (Z.max 0 (Z.min rawElapsed 86400)) t in
      let '(t2, w2) :=
        if flag (isPomodoro t1) then
          let pomodoroSeconds := 25 * 60 in
          let breakSeconds := 5 * 60 in
          let cycleSeconds := pomodoroSeconds + breakSeconds in
          let elapsedInCycle := Z.rem (elapsedSeconds t1) cycleSeconds in
          let pomodoroJustCompleted := elapsedInCycle =? pomodoroSeconds in
          let lastPomodoroNotification :=
            default 0 (gs_lastPomodoroNotification (globalState w)) in
          let timeSinceLastNotification :=
            elapsedSeconds t1 - lastPomodoroNotification in
          if pomodoroJustCompleted
             && (pomodoroSeconds <=? timeSinceLastNotification)
          then
            (with_pomodoroCount
               (match pomodoroCount t1 with
                | Some c => Some (c + 1)
                | None => None
                end) t1,
             set_pomodoroBreakTimeout false
               (update_lastPomodoroNotification (elapsedSeconds t1) w))
          else (t1, w)
        else (t1, w) in
      update_currentTimer (toSaved t2) (set_currentTimer (Some t2) w2)
  end.

(** The tick fires only while its interval is armed. *)
Definition fireTimerInterval (now : Z) (w : World) : World :=
  if timerInterval w then timerTick now w else w.

(** The user answers the Pomodoro prompt with 'Start Break'. *)
Definition pomodoroStartBreak (now : Z) (w : World) : World :=
  set_pomodoroBreakTimeout true (pauseTimerCommand now w).

(** The break timeout fires and the user answers 'Resume'. *)
Definition pomodoroBreakOver (now : Z) (w : World) : World :=
  if pomodoroBreakTimeout w then resumeTimerCommand false now w else w.

(** The body of the ten-second interval armed by [startInactivityTimer];
    [(now - lastActivity) / 1000 >= timeout] is a real division in the code
    and is compared here after multiplying out. *)
Definition inactivityCheck (timeout now : Z) (w : World) : World :=
  match currentTimer w with
  | None => w
  | Some t =>
    if isPaused t then w
    else if timeout * 1000 <=? now - lastActivity w then
      pauseTimerCommand now
        (set_currentTimer
           (Some (with_pausedDueToInactivity (Some true) t)) w)
    else w
  end.

Definition fireInactivityTimer (now : Z) (w : World) : World :=
  match inactivityTimer w with
  | Some timeout => inactivityCheck timeout now w
  | None => w
  end.

(** [updateActivity]. *)
Definition updateActivity (now : Z) (w : World) : World :=
  let w1 := set_lastActivity now w in
  match currentTimer w1 with
  | None => w1
  | Some t =>
    if isPaused t && flag (pausedDueToInactivity t) then
      if now - lastActivityResumeTime w1 <? 5000 then w1
      else
        let autoResume :=
          get_bool (cfg_autoResumeOnActivity (config w1)) true in
        if autoResume then
          let w2 := set_lastActivityResumeTime now w1 in
          let w3 := set_currentTimer
                      (Some (with_pausedDueToInactivity (Some false) t)) w2 in
          resumeTimerCommand true now w3
        else w1
    else w1
  end.

(** [clearTimerState]. *)
Definition clearTimerState (w : World) : World :=
  let w1 := set_timerInterval false w in
  let w2 := set_inactivityTimer None w1 in
  update_currentTimer (StoredPrim JUndefined) (set_currentTimer None w2).

(** [isValidTimerState], as the truth value of its [&&] chain. *)
Definition isValidTimerState (timer : stored) : bool :=
  stored_truthy timer
  && jstype_eqb (typeof (field saved_workItemId timer)) TyNumber
  && js_gt (field saved_workItemId timer) 0
  && jstype_eqb (typeof (field saved_workItemTitle timer)) TyString
  && jstype_eqb (typeof (field saved_startTime timer)) TyNumber
  && js_gt (field saved_startTime timer) 0
  && jstype_eqb (typeof (field saved_elapsedSeconds timer)) TyNumber
  && js_ge (field saved_elapsedSeconds timer) 0
  && js_le (field saved_elapsedSeconds timer) 86400
  && jstype_eqb (typeof (field saved_isPaused timer)) TyBoolean.

(** The object behind a snapshot, read at the type [TimerState]. *)
Definition fromSaved (timer : stored) : option TimerState :=
  match timer with
  | StoredObj o =>
    match saved_workItemId o, saved_workItemTitle o, saved_startTime o,
          saved_elapsedSeconds o, saved_isPaused o with
    | JNum wid, JStr title, JNum st, JNum el, JBool p =>
      Some {| workItemId := wid; workItemTitle := title; startTime := st;
              pausedTime := saved_pausedTime o; elapsedSeconds := el;
              isPaused := p; isPomodoro := saved_isPomodoro o;
              pomodoroCount := saved_pomodoroCount o;
              pausedDueToInactivity := saved_pausedDueToInactivity o |}
    | _, _, _, _, _ => None
    end
  | StoredPrim _ => None
  end.

(** [restoreTimerState]. *)
Definition restoreTimerState (now : Z) (w : World) : World :=
  let savedTimer := gs_currentTimer (globalState w) in
  if stored_truthy savedTimer then
    if negb (isValidTimerState savedTimer) then
      update_currentTimer (StoredPrim JUndefined) w
    else
      match fromSaved savedTimer with
      | None => w
      | Some t =>
        let t1 :=
          if negb (isPaused t) then
            match gs_lastSaveTime (globalState w) with
            | Some lastSaveTime =>
              if 0 <? lastSaveTime then
                let elapsedSinceLastSave := Z.max 0 (now - lastSaveTime) in
                let cappedElapsed :=
                  Z.min elapsedSinceLastSave (60 * 60 * 1000) in
                let e1 := elapsedSeconds t + cappedElapsed / 1000 in
                let e2 := Z.min e1 86400 in
                with_startTime (now - e2 * 1000) (with_elapsedSeconds e2 t)
              else with_startTime (now - elapsedSeconds t * 1000) t
            | None => with_startTime (now - elapsedSeconds t * 1000) t
            end
          else t in
        startTimerInterval (set_currentTimer (Some t1) w)
      end
  else w.

(** ** The time-entry ledger and the sync engine *)

(** [saveTimeEntries]. *)
Definition saveTimeEntries (now : Z) (w : World) : World :=
  update_lastSaveTime now (update_timeEntries (timeEntries w) w).

(** How a call of the remote collaborator ends. *)
Inductive RemoteOutcome :=
| Resolved
| Rejected (message : option string).

(** The value a rejected call throws, with its optional [message]. *)
Record JsError := { error_message : option string }.

(** How a function body ends: it returns, or an exception leaves it. *)
Inductive Completion (A : Type) :=
| Normal (a : A)
| Throw (error : JsError).
Arguments Normal {A} a.
Arguments Throw {A} error.

(** Computations over the world that may throw. *)
Definition Async (A : Type) : Type := World -> Completion A * World.

Definition ret {A} (a : A) : Async A := fun w => (Normal a, w).

Definition bind {A B} (m : Async A) (k : A -> Async B) : Async B :=
  fun w => match m w with
           | (Normal a, w1) => k a w1
           | (Throw e, w1) => (Throw e, w1)
           end.

Definition modify (f : World -> World) : Async unit :=
  fun w => (Normal tt, f w).

(** [try { body } catch (error) { handler }]. *)
Definition try_catch {A} (body : Async A) (handler : JsError -> Async A)
  : Async A :=
  fun w => match body w with
           | (Normal a, w1) => (Normal a, w1)
           | (Throw e, w1) => handler e w1
           end.

Notation "m ;;; k" := (bind m (fun _ => k))
  (at level 100, right associativity).

(** The request leaves for the collaborator: it now counts as submitted. *)
Definition callAddTimeEntry (i : nat) (w : World) : World :=
  set_remoteLog (remoteLog w ++ [i]) w.

(** [await] of the pending request. *)
Definition awaitAddTimeEntry (o : RemoteOutcome) : Async unit :=
  fun w => match o with
           | Resolved => (Normal tt, w)
           | Rejected m => (Throw {| error_message := m |}, w)
           end.

Definition markSynced (e : TimeEntry) : TimeEntry :=
  {| entry_id := entry_id e; entry_workItemId := entry_workItemId e;
     entry_workItemTitle := entry_workItemTitle e;
     entry_startTime := entry_startTime e; entry_endTime := entry_endTime e;
     entry_duration := entry_duration e;
     entry_synced := true; entry_syncError := None;
     entry_deviceId := entry_deviceId e |}.

Definition withSyncError (msg : string) (e : TimeEntry) : TimeEntry :=
  {| entry_id := entry_id e; entry_workItemId := entry_workItemId e;
     entry_workItemTitle := entry_workItemTitle e;
     entry_startTime := entry_startTime e; entry_endTime := entry_endTime e;
     entry_duration := entry_duration e;
     entry_synced := entry_synced e; entry_syncError := Some msg;
     entry_deviceId := entry_deviceId e |}.

(** [error.message || 'Unknown error']. *)
Definition messageOrUnknown (error : JsError) : string :=
  match error_message error with
  | Some m => if String.eqb m "" then "Unknown error" else m
  | None => "Unknown error"
  end.

(** Assignment to a field of the entry object at ledger position [i]. *)
Definition mutateEntry (f : TimeEntry -> TimeEntry) (i : nat) (w : World)
  : World :=
  set_timeEntries (alter f i (timeEntries w)) w.

(** [syncTimeEntryToAzure] from its [await] on: the [try] block after the
    request was sent, and the [catch] block. *)
Definition syncTimeEntryToAzure_resume (i : nat) (o : RemoteOutcome)
    (now : Z) : Async bool :=
  try_catch
    (awaitAddTimeEntry o ;;;
     modify (mutateEntry markSynced i) ;;;
     modify (saveTimeEntries now) ;;;
     ret true)
    (fun error =>
       modify (mutateEntry (withSyncError (messageOrUnknown error)) i) ;;;
       modify (saveTimeEntries now) ;;;
       ret false).

(** [syncTimeEntryToAzure], run to completion with the outcome [o] of its
    remote call; [now] is the clock when the call has ended. *)
Definition syncTimeEntryToAzure (i : nat) (o : RemoteOutcome) (now : Z)
  : Async bool :=
  fun w =>
    if negb (azureDevOpsAPI w) then (Normal false, w)
    else syncTimeEntryToAzure_resume i o now (callAddTimeEntry i w).

(** [timeEntries.filter(e => !e.synced)], as the ledger positions (from [k]
    on) of the entries it keeps. *)
Fixpoint pendingFrom (k : nat) (l : list TimeEntry) : list nat :=
  match l with
  | [] => []
  | e :: l' =>
    if entry_synced e then pendingFrom (S k) l'
    else k :: pendingFrom (S k) l'
  end.

(** The [for] loop of [syncPendingTimeEntries], run from the head of [rest]
    up to its next [await] or, when nothing is left, through the [finally]
    block. A position always holds an entry (the ledger only grows). *)
Fixpoint syncLoop (rest : list nat) (syncedCount : nat) (w : World)
  : World * option PassState :=
  match rest with
  | [] => (set_isSyncingTimeEntries false w, None)
  | i :: rest' =>
    match timeEntries w !! i with
    | Some entry =>
      if entry_synced entry then syncLoop rest' syncedCount w
      else if azureDevOpsAPI w then
        (callAddTimeEntry i w, Some (AwaitingRemote i rest' syncedCount))
      else (w, Some (Sleeping rest' syncedCount))
    | None => syncLoop rest' syncedCount w
    end
  end.

(** A call of [syncPendingTimeEntries], up to its first [await]. *)
Definition syncPendingTimeEntries (w : World) : World :=
  if negb (azureDevOpsAPI w) then w
  else if isSyncingTimeEntries w then w
  else
    let pendingEntries := pendingFrom 0 (timeEntries w) in
    match pendingEntries with
    | [] => w
    | _ :: _ =>
      let w1 := set_isSyncingTimeEntries true w in
      match syncLoop pendingEntries 0 w1 with
      | (w2, Some p) => set_syncPasses (syncPasses w2 ++ [p]) w2
      | (w2, None) => w2
      end
    end.

(** The remote call of the suspended pass number [k] ends with [o]. *)
Definition remoteDone (k : nat) (o : RemoteOutcome) (now : Z) (w : World)
  : World :=
  match syncPasses w !! k with
  | Some (AwaitingRemote i rest syncedCount) =>
    match syncTimeEntryToAzure_resume i o now w with
    | (Normal success, w1) =>
      let syncedCount' := if success then S syncedCount else syncedCount in
      set_syncPasses (<[k := Sleeping rest syncedCount']> (syncPasses w1)) w1
    | (Throw _, w1) =>
      set_syncPasses (delete k (syncPasses w1))
        (set_isSyncingTimeEntries false w1)
    end
  | _ => w
  end.

(** The 500ms delay of the suspended pass number [k] is over. *)
Definition wake (k : nat) (w : World) : World :=
  match syncPasses w !! k with
  | Some (Sleeping rest syncedCount) =>
    match syncLoop rest syncedCount w with
    | (w1, Some p) => set_syncPasses (<[k := p]> (syncPasses w1)) w1
    | (w1, None) => set_syncPasses (delete k (syncPasses w1)) w1
    end
  | _ => w
  end.

(** [timeEntries.push(timeEntry); saveTimeEntries()]. *)
Definition appendTimeEntry (timeEntry : TimeEntry) (now : Z) (w : World)
  : World :=
  saveTimeEntries now (set_timeEntries (timeEntries w ++ [timeEntry]) w).

(** [loadTimeEntries]. *)
Definition loadTimeEntries (w : World) : World :=
  set_timeEntries (gs_timeEntries (globalState w)) w.

(** What happens to the sync engine, one event at a time. *)
Inductive SyncEvent :=
| EvInvoke
| EvRemoteDone (k : nat) (o : RemoteOutcome) (now : Z)
| EvWake (k : nat)
| EvAppend (timeEntry : TimeEntry) (now : Z).

Definition syncStep (ev : SyncEvent) (w : World) : World :=
  match ev with
  | EvInvoke => syncPendingTimeEntries w
  | EvRemoteDone k o now => remoteDone k o now w
  | EvWake k => wake k w
  | EvAppend timeEntry now => appendTimeEntry timeEntry now w
  end.

Definition syncRun (evs : list SyncEvent) (w : World) : World :=
  foldl (fun w ev => syncStep ev w) w evs.

(** ** Stopping the timer *)

Inductive SaveAnswer := Save | Discard.
Inductive UpdateAnswer := Yes | No.

Definition isSave (a : option SaveAnswer) : bool :=
  match a with Some Save => true | _ => false end.

Definition isYes (a : option UpdateAnswer) : bool :=
  match a with Some Yes => true | _ => false end.

(** What the run of [stopTimerCommand] that builds the entry reads from
    outside: the generated id, the machine id, and the clock, which becomes
    the end time. *)
Record EntryInput := {
  entry_newId : string;
  entry_machineId : string;
  entry_builtAt : Z
}.

(** The value thrown when a property of [undefined] is read. *)
Definition typeError : JsError :=
  {| error_message :=
       Some "Cannot read properties of undefined (reading 'workItemId')" |}.

(** The duration [stopTimerCommand] settles on when it is called. *)
Definition stopDuration (now : Z) (t : TimerState) : Z :=
  if isPaused t then elapsedSeconds t
  else
    let rawDuration := (now - startTime t) / 1000 in
    Z.max 0 (Z.min rawDuration 86400).

(** The [timeEntry] literal, over the session [t] that is live when it is
    evaluated. *)
Definition stopEntry (duration : Z) (inp : EntryInput) (t : TimerState)
  : TimeEntry :=
  {| entry_id := entry_newId inp;
     entry_workItemId := workItemId t;
     entry_workItemTitle := Some (workItemTitle t);
     entry_startTime := startTime t;
     entry_endTime := entry_builtAt inp;
     entry_duration := duration;
     entry_synced := false;
     entry_syncError := None;
     entry_deviceId := Some (entry_machineId inp) |}.

(** The end of [stopTimerCommand]: clear the session, add to the metrics,
    and start a background pass when other entries are pending.
    ([checkMilestones] belongs to the review prompts and is left out.) *)
Definition stopAftermath (duration : Z) (timeEntryId : string)
  : Async unit :=
  modify clearTimerState ;;;
  modify (fun w =>
            let totalTimeTracked :=
              default 0 (gs_totalTimeTracked (globalState w)) in
            update_totalTimeTracked (totalTimeTracked + duration) w) ;;;
  modify (fun w =>
            let otherPending :=
              existsb
                (fun e => negb (entry_synced e)
                          && negb (String.eqb (entry_id e) timeEntryId))
                (timeEntries w) in
            if otherPending then syncPendingTimeEntries w else w).

(** How a run of [stopTimerCommand] ends: the function has returned
    ([None]), or it is suspended at its next [await]. *)
Definition StopRun : Type := Async (option StopState).

Definition stopEnds (duration : Z) (timeEntryId : string) : StopRun :=
  stopAftermath duration timeEntryId ;;; ret None.

(** [stopTimerCommand] from the [timeEntry] literal on. [currentTimer] is
    read again here, after the sub-minute prompt when there was one, and
    without a test: with no session left the literal throws. *)
Definition stopBuild (duration : Z) (inp : EntryInput) : StopRun :=
  fun w =>
    match currentTimer w with
    | None => (Throw typeError, w)
    | Some t =>
      let timeEntry := stopEntry duration inp t in
      let position := length (timeEntries w) in
      let w1 := appendTimeEntry timeEntry (entry_builtAt inp) w in
      if azureDevOpsAPI w1 then
        (Normal (Some (AwaitingUpdate duration position (entry_id timeEntry))),
         w1)
      else stopEnds duration (entry_id timeEntry) w1
    end.

(** A call of [stopTimerCommand] at [now], up to its first [await]. *)
Definition stopTimerCommand (now : Z) (inp : EntryInput) : StopRun :=
  fun w =>
    match currentTimer w with
    | None => (Normal None, w)
    | Some t =>
      let duration := stopDuration now t in
      if duration <? 60 then (Normal (Some (AwaitingConfirm duration)), w)
      else stopBuild duration inp w
    end.

(** The sub-minute prompt is answered ([None]: dismissed). *)
Definition stopConfirmed (duration : Z) (confirm : option SaveAnswer)
    (inp : EntryInput) : StopRun :=
  fun w =>
    if negb (isSave confirm) then (Normal None, clearTimerState w)
    else stopBuild duration inp w.

(** The 'Update work item?' prompt is answered: on 'Yes' the entry goes to
    [syncTimeEntryToAzure], which returns at once without an API and else
    sends the request, whatever the entry's [synced] says by now. *)
Definition stopUpdated (duration : Z) (position : nat) (timeEntryId : string)
    (update : option UpdateAnswer) : StopRun :=
  fun w =>
    if isYes update then
      if negb (azureDevOpsAPI w) then stopEnds duration timeEntryId w
      else (Normal (Some (AwaitingPush duration position timeEntryId)),
            callAddTimeEntry position w)
    else stopEnds duration timeEntryId w.

(** The remote call of the push has ended with [o]. *)
Definition stopPushed (duration : Z) (position : nat) (timeEntryId : string)
    (o : RemoteOutcome) (now : Z) : StopRun :=
  bind (syncTimeEntryToAzure_resume position o now)
       (fun syncedCurrentEntry => stopEnds duration timeEntryId).

(** What resumes a suspended stop, the number [k] of the pool. *)
Inductive StopEvent :=
| EvConfirm (k : nat) (confirm : option SaveAnswer) (inp : EntryInput)
| EvUpdate (k : nat) (update : option UpdateAnswer)
| EvPushDone (k : nat) (o : RemoteOutcome) (now : Z).

(** The stop that an event is for, when the pool has it at that [await]. *)
Definition stopResumed (ev : StopEvent) (w : World)
  : option (nat * StopRun) :=
  match ev with
  | EvConfirm k confirm inp =>
    match stopCalls w !! k with
    | Some (AwaitingConfirm duration) =>
      Some (k, stopConfirmed duration confirm inp)
    | _ => None
    end
  | EvUpdate k update =>
    match stopCalls w !! k with
    | Some (AwaitingUpdate duration position timeEntryId) =>
      Some (k, stopUpdated duration position timeEntryId update)
    | _ => None
    end
  | EvPushDone k o now =>
    match stopCalls w !! k with
    | Some (AwaitingPush duration position timeEntryId) =>
      Some (k, stopPushed duration position timeEntryId o now)
    | _ => None
    end
  end.

(** A new call of [stopTimerCommand] joins the pool when it suspends. *)
Definition stopCalled (now : Z) (inp : EntryInput) (w : World) : World :=
  match stopTimerCommand now inp w with
  | (Normal (Some s), w1) => set_stopCalls (stopCalls w1 ++ [s]) w1
  | (_, w1) => w1
  end.

(** A suspended stop runs on to its next [await], or leaves the pool when
    it returns or throws. *)
Definition stopStep (ev : StopEvent) (w : World) : World :=
  match stopResumed ev w with
  | Some (k, run) =>
    match run w with
    | (Normal (Some s), w1) => set_stopCalls (<[k := s]> (stopCalls w1)) w1
    | (_, w1) => set_stopCalls (delete k (stopCalls w1)) w1
    end
  | None => w
  end.

(** ** The whole subsystem as a transition system *)

(** The module variables as the declarations initialise them, over whatever
    the store and the settings hold when the process starts. *)
Definition processStart (gs : GlobalState) (cfg : Config) (now : Z) : World :=
  {| azureDevOpsAPI := false; currentTimer := None;
     timerInterval := false; inactivityTimer := None;
     pomodoroBreakTimeout := false;
     lastActivity := now; lastActivityResumeTime := 0;
     timeEntries := []; timerStartLock := false;
     isSyncingTimeEntries := false; syncPasses := [];
     stopCalls := [];
     globalState := gs; config := cfg; remoteLog := [] |}.

Definition set_azureDevOpsAPI (v : bool) (w : World) : World :=
  {| azureDevOpsAPI := v; currentTimer := currentTimer w;
     timerInterval := timerInterval w; inactivityTimer := inactivityTimer w;
     pomodoroBreakTimeout := pomodoroBreakTimeout w;
     lastActivity := lastActivity w;
     lastActivityResumeTime := lastActivityResumeTime w;
     timeEntries := timeEntries w; timerStartLock := timerStartLock w;
     isSyncingTimeEntries := isSyncingTimeEntries w;
     syncPasses := syncPasses w; stopCalls := stopCalls w;
     globalState := globalState w;
     config := config w; remoteLog := remoteLog w |}.

(** What can happen next: a command, a tick of one of the intervals, an
    event of the editor, or the end of something awaited. [OpStop] is a call
    of [stopTimerCommand] and [OpStopResume] what resumes a suspended one;
    [OpSync] is a call of [syncPendingTimeEntries] or what resumes a
    suspended pass. *)
Inductive Op :=
| OpStart (workItem : WorkItem) (now : Z)
| OpPause (now : Z)
| OpResume (now : Z)
| OpTick (now : Z)
| OpStop (now : Z) (inp : EntryInput)
| OpStopResume (ev : StopEvent)
| OpRestore (now : Z)
| OpInactivityCheck (now : Z)
| OpActivity (now : Z)
| OpStartBreak (now : Z)
| OpBreakOver (now : Z)
| OpLoadEntries
| OpConnect (present : bool)
| OpConfigure (cfg : Config)
| OpSync (ev : SyncEvent).

Definition step (op : Op) (w : World) : World :=
  match op with
  | OpStart workItem now => startTimer workItem now w
  | OpPause now => pauseTimerCommand now w
  | OpResume now => resumeTimerCommand false now w
  | OpTick now => fireTimerInterval now w
  | OpStop now inp => stopCalled now inp w
  | OpStopResume ev => stopStep ev w
  | OpRestore now => restoreTimerState now w
  | OpInactivityCheck now => fireInactivityTimer now w
  | OpActivity now => updateActivity now w
  | OpStartBreak now => pomodoroStartBreak now w
  | OpBreakOver now => pomodoroBreakOver now w
  | OpLoadEntries => loadTimeEntries w
  | OpConnect present => set_azureDevOpsAPI present w
  | OpConfigure cfg => set_config cfg w
  | OpSync ev => syncStep ev w
  end.

Inductive reachable : World -> Prop :=
| reach_start gs cfg now : reachable (processStart gs cfg now)
| reach_step op w : reachable w -> reachable (step op w).

(** ** Predicates and sample inputs of the statements *)

(** The bound of the specification on the live session, if there is one. *)
Definition elapsedBounded (w : World) : Prop :=
  forall t, currentTimer w = Some t -> 0 <= elapsedSeconds t <= 86400.

(** A run of a stop leaves the session alone or ends it. *)
Definition keepsOrEnds (w : World) (run : StopRun) : Prop :=
  currentTimer (snd (run w)) = currentTimer w
  \/ currentTimer (snd (run w)) = None.

(** What the sync engine may do to an entry leaves its times alone. *)
Definition sameTimes (e1 e2 : TimeEntry) : Prop :=
  entry_id e2 = entry_id e1
  /\ entry_workItemId e2 = entry_workItemId e1
  /\ entry_startTime e2 = entry_startTime e1
  /\ entry_endTime e2 = entry_endTime e1
  /\ entry_duration e2 = entry_duration e1.

(** A store in which none of the keys is set. *)
Definition emptyStore : GlobalState :=
  {| gs_currentTimer := StoredPrim JUndefined; gs_lastSaveTime := None;
     gs_lastPomodoroNotification := None; gs_timeEntries := [];
     gs_totalTimeTracked := None |}.

(** Settings the user never touched. *)
Definition unsetConfig : Config :=
  {| cfg_pomodoroEnabled := None; cfg_timerInactivityTimeout := None;
     cfg_autoResumeOnActivity := None |}.

(** The work item of the specification's scenarios. *)
Definition item42 : WorkItem :=
  {| System_Id := 42; System_Title := "Fix bug" |}.

(** What the building run of a stop reads from outside, with the clock at
    the given instant. *)
Definition builtAt (now : Z) : EntryInput :=
  {| entry_newId := "1010000-abc"; entry_machineId := "machine";
     entry_builtAt := now |}.

(** A session for item 42 started at 1000000 ms in a fresh process. *)
Definition startedAt1000s : World :=
  step (OpStart item42 1000000) (processStart emptyStore unsetConfig 999000).

(** The duration a reader would derive from the two times of an entry. *)
Definition durationFromTimes (e : TimeEntry) : Z :=
  Z.max 0 (Z.min ((entry_endTime e - entry_startTime e) / 1000) 86400).

(** What a fresh Pomodoro session looks like until its first notification. *)
Definition freshPomodoro (start : Z) (w : World) : Prop :=
  timerInterval w = true
  /\ gs_lastPomodoroNotification (globalState w) = Some 0
  /\ exists t, currentTimer w = Some t
               /\ startTime t = start /\ isPaused t = false
               /\ isPomodoro t = Some true /\ pomodoroCount t = Some 0.

(** The ways of failing validation that the specification lists, for a
    snapshot that is an object. *)
Inductive listedFailure (o : SavedTimer) : Prop :=
| NonPositiveItemId n :
    saved_workItemId o = JNum n -> n <= 0 -> listedFailure o
| ElapsedOutOfRange n :
    saved_elapsedSeconds o = JNum n -> n < 0 \/ 86400 < n -> listedFailure o
| PausedFlagMissing :
    typeof (saved_isPaused o) <> TyBoolean -> listedFailure o
| ItemIdNotANumber :
    typeof (saved_workItemId o) <> TyNumber -> listedFailure o
| TitleNotAString :
    typeof (saved_workItemTitle o) <> TyString -> listedFailure o
| StartTimeNotANumber :
    typeof (saved_startTime o) <> TyNumber -> listedFailure o
| ElapsedNotANumber :
    typeof (saved_elapsedSeconds o) <> TyNumber -> listedFailure o.

(** The snapshot of the specification's example: [elapsedSeconds = -5]. *)
Definition negativeElapsed : SavedTimer :=
  {| saved_workItemId := JNum 42; saved_workItemTitle := JStr "Fix bug";
     saved_startTime := JNum 1000000; saved_elapsedSeconds := JNum (-5);
     saved_isPaused := JBool false; saved_pausedTime := None;
     saved_isPomodoro := None; saved_pomodoroCount := None;
     saved_pausedDueToInactivity := None |}.

(** A store whose [currentTimer] key holds [s]. *)
Definition storeWith (s : stored) : GlobalState :=
  {| gs_currentTimer := s; gs_lastSaveTime := Some 1000000;
     gs_lastPomodoroNotification := None; gs_timeEntries := [];
     gs_totalTimeTracked := None |}.

(** The session of [startedAt1000s] after 401 idle seconds: the inactivity
    check has paused it. *)
Definition pausedForInactivity : World :=
  step (OpInactivityCheck 1400000) startedAt1000s.

(** Settings with [timerInactivityTimeout] set to [n]. *)
Definition withTimeout (n : Z) : Config :=
  {| cfg_pomodoroEnabled := None; cfg_timerInactivityTimeout := Some n;
     cfg_autoResumeOnActivity := None |}.

(** Two unsynced ledger entries. *)
Definition pendingEntry : TimeEntry :=
  {| entry_id := "1010000-abc"; entry_workItemId := 42;
     entry_workItemTitle := Some "Fix bug"; entry_startTime := 1000000;
     entry_endTime := 1090000; entry_duration := 90; entry_synced := false;
     entry_syncError := None; entry_deviceId := Some "machine" |}.

(** A connected process whose ledger holds the given entries. *)
Definition connectedWith (l : list TimeEntry) : World :=
  set_timeEntries l
    (step (OpConnect true) (processStart emptyStore unsetConfig 999000)).

(** What a suspended pass has still to visit. *)
Definition passRest (p : PassState) : list nat :=
  match p with
  | AwaitingRemote _ rest _ => rest
  | Sleeping rest _ => rest
  end.

(** No pass is running. *)
Definition syncIdle (w : World) : Prop :=
  isSyncingTimeEntries w = false /\ syncPasses w = [].

(** Every call of [syncPendingTimeEntries] in the trace comes while a pass
    is in progress. *)
Fixpoint overlapping (evs : list SyncEvent) (w : World) : bool :=
  match evs with
  | [] => true
  | ev :: evs' =>
    match ev with
    | EvInvoke => isSyncingTimeEntries w
    | _ => true
    end && overlapping evs' (syncStep ev w)
  end.

(** The flag and the pool of passes agree, and the pool holds at most one
    pass. *)
Definition singleFlight (w : World) : Prop :=
  (isSyncingTimeEntries w = false /\ syncPasses w = [])
  \/ (isSyncingTimeEntries w = true /\ exists p, syncPasses w = [p]).

(** During the pass started from the pending list [pending] with the log at
    [log0]: what has been submitted since, together with what the pass has
    still to visit, is duplicate-free and comes from [pending]. *)
Definition passInvariant (pending log0 : list nat) (w : World) : Prop :=
  exists subs,
    remoteLog w = log0 ++ subs
    /\ ((isSyncingTimeEntries w = false /\ syncPasses w = []
         /\ NoDup subs /\ forall i, i ∈ subs -> i ∈ pending)
        \/ (isSyncingTimeEntries w = true
            /\ exists p, syncPasses w = [p]
                         /\ NoDup (subs ++ passRest p)
                         /\ forall i, i ∈ subs ++ passRest p -> i ∈ pending)).

Definition secondPending : TimeEntry :=
  {| entry_id := "1200000-def"; entry_workItemId := 7;
     entry_workItemTitle := Some "Write docs"; entry_startTime := 1100000;
     entry_endTime := 1200000; entry_duration := 100; entry_synced := false;
     entry_syncError := None; entry_deviceId := Some "machine" |}.

(** Two pending entries; a second call arrives during the first remote
    call and a third during the delay; the second entry's call fails. *)
Definition overlappingCalls : list SyncEvent :=
  [EvInvoke; EvRemoteDone 0 Resolved 2000100; EvInvoke; EvWake 0;
   EvRemoteDone 0 (Rejected (Some "Network Error")) 2000700; EvWake 0].

(** The session of [startedAt1000s] ticking 55 hours after its start. *)
Definition tickedLate : World :=
  step (OpTick 200000000) startedAt1000s.

(** ** Further operations and predicates *)

(** [deactivate], as far as the timer subsystem goes: the session is saved,
    every interval and timeout is cleared, the API instance is dropped. *)
Definition deactivate (w : World) : World :=
  let w1 := match currentTimer w with
            | Some t => update_currentTimer (toSaved t) w
            | None => w
            end in
  let w2 := set_timerInterval false w1 in
  let w3 := set_inactivityTimer None w2 in
  let w4 := set_pomodoroBreakTimeout false w3 in
  set_azureDevOpsAPI false w4.

(** The timer part of [activate]: fresh module variables over the store
    the previous process left, then [restoreTimerState] and
    [loadTimeEntries]. *)
Definition activate (gs : GlobalState) (cfg : Config) (now : Z) : World :=
  loadTimeEntries (restoreTimerState now (processStart gs cfg now)).

(** The store's [currentTimer] key holds the live session, or nothing when
    there is none. *)
Definition snapshotCurrent (w : World) : Prop :=
  gs_currentTimer (globalState w)
  = match currentTimer w with
    | Some t => toSaved t
    | None => StoredPrim JUndefined
    end.

(** The start lock is free, and without a session neither the tick nor the
    inactivity check is armed. *)
Definition quiescent (w : World) : Prop :=
  timerStartLock w = false
  /\ (currentTimer w = None ->
      timerInterval w = false /\ inactivityTimer w = None).

(** The persisted ledger is the ledger in memory. *)
Definition ledgerSaved (w : World) : Prop :=
  gs_timeEntries (globalState w) = timeEntries w.

(** [e2] is [e1] after the sync engine may have touched it: same identity,
    times and duration, and never back from synced to unsynced. *)
Definition entryKept (e1 e2 : TimeEntry) : Prop :=
  sameTimes e1 e2
  /\ entry_workItemTitle e2 = entry_workItemTitle e1
  /\ entry_deviceId e2 = entry_deviceId e1
  /\ (entry_synced e1 = true -> entry_synced e2 = true).

(** The operations that act on a session without creating or ending it,
    with the clock reading each one takes. *)
Inductive SessionOp :=
| SPause (now : Z)
| SResume (now : Z)
| STick (now : Z)
| SInactivityCheck (now : Z)
| SActivity (now : Z)
| SStartBreak (now : Z)
| SBreakOver (now : Z).

Definition sessionOpTime (op : SessionOp) : Z :=
  match op with
  | SPause now | SResume now | STick now | SInactivityCheck now
  | SActivity now | SStartBreak now | SBreakOver now => now
  end.

Definition sessionOp (op : SessionOp) : Op :=
  match op with
  | SPause now => OpPause now
  | SResume now => OpResume now
  | STick now => OpTick now
  | SInactivityCheck now => OpInactivityCheck now
  | SActivity now => OpActivity now
  | SStartBreak now => OpStartBreak now
  | SBreakOver now => OpBreakOver now
  end.

Definition sessionRun (ops : list SessionOp) (w : World) : World :=
  foldl (fun w op => step (sessionOp op) w) w ops.

(** The clock readings of a run never go back, starting from [now]. *)
Fixpoint clockMonotone (now : Z) (ops : list SessionOp) : Prop :=
  match ops with
  | [] => True
  | op :: ops' => now <= sessionOpTime op /\ clockMonotone (sessionOpTime op) ops'
  end.

(** [elapsedSeconds] of the live session, 0 without one. *)
Definition elapsedOf (w : World) : Z :=
  match currentTimer w with
  | Some t => elapsedSeconds t
  | None => 0
  end.

(** The instant up to which the session's [elapsedSeconds] accounts for:
    the pause instant while paused (when recorded), else [now]. *)
Definition accountedUntil (now : Z) (t : TimerState) : Z :=
  if isPaused t then
    match pausedTime t with
    | Some p => if 0 <? p then p else now
    | None => now
    end
  else now.

(** The session's [elapsedSeconds] does not run ahead of its clock: it is at
    most what a recomputation at the accounted instant would give, and a
    recorded pause instant is not in the future. *)
Definition inStep (now : Z) (w : World) : Prop :=
  forall t, currentTimer w = Some t ->
    accountedUntil now t <= now
    /\ elapsedSeconds t
       <= Z.max 0 (Z.min ((accountedUntil now t - startTime t) / 1000) 86400).

(** What the sync engine never touches: the session, its two intervals, the
    start lock, and the stored snapshot. *)
Definition timerView (w : World)
  : option TimerState * bool * option Z * bool * stored :=
  (currentTimer w, timerInterval w, inactivityTimer w, timerStartLock w,
   gs_currentTimer (globalState w)).

(** What a step of a stop does to the timer: nothing, or what
    [clearTimerState] does. *)
Definition keptOrCleared (w w' : World) : Prop :=
  timerView w' = timerView w
  \/ timerView w'
     = (None, false, None, timerStartLock w, StoredPrim JUndefined).

(** One operation at [n], not before [now]: the session stays in step with
    the clock and its elapsed time does not go down. *)
Definition advances (now n : Z) (w w' : World) : Prop :=
  inStep now w -> now <= n -> inStep n w' /\ elapsedOf w <= elapsedOf w'.

(** The ledger [l2] is the ledger [l1] after some operations: every entry
    of [l1] is still there, at its position, kept; entries may have been
    added at the tail. *)
Definition ledgerGrows (l1 l2 : list TimeEntry) : Prop :=
  exists kept added, l2 = kept ++ added /\ Forall2 entryKept l1 kept.

(** What an operation does to the ledger: it grows, and is saved
    afterwards if it was before. *)
Definition ledgerStep (w w' : World) : Prop :=
  ledgerGrows (timeEntries w) (timeEntries w')
  /\ (ledgerSaved w -> ledgerSaved w').

(** The two copies of the ledger, in memory and in the store. *)
Definition ledgerView (w : World) : list TimeEntry * list TimeEntry :=
  (timeEntries w, gs_timeEntries (globalState w)).

(** One round of a pass in progress: the remote call of the entry in hand
    ends with [o], then the 500ms delay is over. *)
Definition passRound (now : Z) (w : World) (o : RemoteOutcome) : World :=
  wake 0 (remoteDone 0 o now w).

(** A call of [syncPendingTimeEntries] and the pass it starts, run to its
    end with one outcome per remote call. *)
Definition runPass (outcomes : list RemoteOutcome) (now : Z) (w : World)
  : World :=
  foldl (passRound now) (syncPendingTimeEntries w) outcomes.

(** What [syncTimeEntryToAzure] leaves of an entry whose call ended
    with [o]. *)
Definition settle (o : RemoteOutcome) (e : TimeEntry) : TimeEntry :=
  match o with
  | Resolved => markSynced e
  | Rejected m => withSyncError (messageOrUnknown {| error_message := m |}) e
  end.

(** The ledger after the entries at the given positions were settled. *)
Definition settleAll (l : list TimeEntry) (calls : list (nat * RemoteOutcome))
  : list TimeEntry :=
  foldl (fun l c => alter (settle c.2) c.1 l) l calls.

(** With the API connected, the session of [startedAt1000s] stopped after
    90 s, and the 'Update work item?' prompt answered 'Yes': the push is on
    its way. *)
Definition pushAwaited : World :=
  foldl (fun w op => step op w) (step (OpConnect true) startedAt1000s)
    [OpStop 1090500 (builtAt 1090500); OpStopResume (EvUpdate 0 (Some Yes))].

(** Settings with Pomodoro switched on, and a session started under them. *)
Definition pomodoroConfig : Config :=
  {| cfg_pomodoroEnabled := Some true; cfg_timerInactivityTimeout := None;
     cfg_autoResumeOnActivity := None |}.

Definition pomodoroStarted : World :=
  step (OpStart item42 1000000) (processStart emptyStore pomodoroConfig 999000).

(** ** The retry policy of [RateLimiter] *)

(** What [withRetry] did: how its last attempt ended (a value, or the error
    it throws), how many times it called the wrapped function, and the
    backoff delays it slept, in order. *)
Record RetryRun (T E : Type) := {
  retry_result : T + E;
  retry_calls : nat;
  retry_waits : list Z
}.
Arguments retry_result {T E} _.
Arguments retry_calls {T E} _.
Arguments retry_waits {T E} _.

(** [retryDelays]. *)
Definition retryDelays : list Z := [1000; 2000; 5000].

(** [status && status >= 400 && status < 500 && status !== 429], for the
    [error.response?.status] of a caught error. *)
Definition clientError (status : option Z) : bool :=
  match status with
  | Some s => negb (s =? 0) && (400 <=? s) && (s <? 500) && negb (s =? 429)
  | None => false
  end.

Section WithRetry.

(** The wrapped function's results and errors, and the status an error
    carries (if it carries a response at all). The function has effects:
    what it returns depends on which call it is. *)
Context {T E : Type} (statusOf : E -> option Z).

(** The loop of [withRetry] from attempt number [attempt] on, with the
    delays [retryDelays.slice(attempt)] still ahead. The throttle before the
    first attempt only delays it and is left out. *)
Fixpoint retryLoop (remaining : list Z) (attempt : nat) (fn : nat -> T + E)
  : RetryRun T E :=
  match fn attempt with
  | inl v => {| retry_result := inl v; retry_calls := 1; retry_waits := [] |}
  | inr error =>
    if clientError (statusOf error) then
      {| retry_result := inr error; retry_calls := 1; retry_waits := [] |}
    else
      match remaining with
      | [] =>
        {| retry_result := inr error; retry_calls := 1; retry_waits := [] |}
      | delay :: remaining' =>
        let run := retryLoop remaining' (S attempt) fn in
        {| retry_result := retry_result run;
           retry_calls := S (retry_calls run);
           retry_waits := delay :: retry_waits run |}
      end
  end.

(** [withRetry]. *)
Definition withRetry (fn : nat -> T + E) : RetryRun T E :=
  retryLoop retryDelays 0 fn.

(** An attempt after which [withRetry] tries again, given delays are left:
    it failed, and not with a client error. *)
Definition retryable (r : T + E) : bool :=
  match r with
  | inl _ => false
  | inr error => negb (clientError (statusOf error))
  end.

End WithRetry.

(** ** The response cache *)

From stdpp Require Import gmap.
Local Open Scope Z_scope.

(** [class SimpleCache<T>]: a map from keys to the cached data and the time
    it was stored, and the time to live in milliseconds. *)
Record SimpleCache (T : Type) := {
  cache_items : gmap string (T * Z);
  cache_ttl : Z
}.
Arguments cache_items {T} _.
Arguments cache_ttl {T} _.

(** [new SimpleCache(ttlSeconds)]. *)
Definition cacheNew {T} (ttlSeconds : Z) : SimpleCache T :=
  {| cache_items := ∅; cache_ttl := ttlSeconds * 1000 |}.

(** [set(key, data)], called at [now]. *)
Definition cacheSet {T} (key : string) (data : T) (now : Z)
    (c : SimpleCache T) : SimpleCache T :=
  {| cache_items := <[key := (data, now)]> (cache_items c);
     cache_ttl := cache_ttl c |}.

(** [get(key)], called at [now]: the data, if any, and the cache after. *)
Definition cacheGet {T} (key : string) (now : Z) (c : SimpleCache T)
  : option T * SimpleCache T :=
  match cache_items c !! key with
  | None => (None, c)
  | Some item =>
    if cache_ttl c <? now - item.2 then
      (None, {| cache_items := delete key (cache_items c);
                cache_ttl := cache_ttl c |})
    else (Some item.1, c)
  end.

(** [delete(key)] and [clear()]. *)
Definition cacheDelete {T} (key : string) (c : SimpleCache T)
  : SimpleCache T :=
  {| cache_items := delete key (cache_items c); cache_ttl := cache_ttl c |}.

Definition cacheClear {T} (c : SimpleCache T) : SimpleCache T :=
  {| cache_items := ∅; cache_ttl := cache_ttl c |}.

(** The calls a user of the cache can make, with the clock where it is
    read. *)
Inductive CacheOp (T : Type) :=
| CSet (key : string) (data : T) (now : Z)
| CGet (key : string) (now : Z)
| CDelete (key : string)
| CClear.
Arguments CSet {T} _ _ _.
Arguments CGet {T} _ _.
Arguments CDelete {T} _.
Arguments CClear {T}.

Definition cacheStep {T} (c : SimpleCache T) (op : CacheOp T)
  : SimpleCache T :=
  match op with
  | CSet key data now => cacheSet key data now c
  | CGet key now => snd (cacheGet key now c)
  | CDelete key => cacheDelete key c
  | CClear => cacheClear c
  end.

(** The last [set] of [key] among [ops] that no later [delete] of the key
    or [clear] undid, if any: its data and its time. Reads are not looked
    at. *)
Definition lastSet {T} (key : string) (ops : list (CacheOp T))
  : option (T * Z) :=
  foldl (fun acc op =>
           match op with
           | CSet key' data now =>
             if String.eqb key' key then Some (data, now) else acc
           | CGet _ _ => acc
           | CDelete key' => if String.eqb key' key then None else acc
           | CClear => None
           end) None ops.

(** ** The time report *)

(** The value the report keeps per work item: [{ total, entries }]. *)
Record ReportGroup := {
  group_total : Z;
  group_entries : list TimeEntry
}.

(** The body of the grouping loop of [showTimeReportCommand], on the [Map]
    as the list of its keys and values in insertion order: the entry joins
    the group of its work item, which is created at the end when the item
    is new. *)
Fixpoint addToGroup (entry : TimeEntry) (groups : list (Z * ReportGroup))
  : list (Z * ReportGroup) :=
  match groups with
  | [] =>
    [(entry_workItemId entry,
      {| group_total := 0 + entry_duration entry;
         group_entries := [] ++ [entry] |})]
  | (id, group) :: groups' =>
    if id =? entry_workItemId entry then
      (id, {| group_total := group_total group + entry_duration entry;
              group_entries := group_entries group ++ [entry] |}) :: groups'
    else (id, group) :: addToGroup entry groups'
  end.

Definition groupByWorkItem (entries : list TimeEntry)
  : list (Z * ReportGroup) :=
  foldl (fun groups entry => addToGroup entry groups) [] entries.

(** [showTimeReportCommand] from the computed [startDate] on: the entries
    that started at or after it, grouped; [None] stands for the message
    that no entries were found. *)
Definition timeReport (startDate : Z) (entries : list TimeEntry)
  : option (list (Z * ReportGroup)) :=
  let filteredEntries :=
    filter (fun entry => startDate <= entry_startTime entry) entries in
  match filteredEntries with
  | [] => None
  | _ :: _ => Some (groupByWorkItem filteredEntries)
  end.

(** [groupedEntries.get(id)]. *)
Fixpoint groupOf (id : Z) (groups : list (Z * ReportGroup))
  : option ReportGroup :=
  match groups with
  | [] => None
  | (id', group) :: groups' =>
    if id' =? id then Some group else groupOf id groups'
  end.

Definition sumDurations (entries : list TimeEntry) : Z :=
  foldr (fun entry acc => entry_duration entry + acc) 0 entries.

Definition sumTotals (groups : list (Z * ReportGroup)) : Z :=
  foldr (fun g acc => group_total g.2 + acc) 0 groups.

(** ** The status bar *)

From stdpp Require Import pretty.
Local Open Scope Z_scope.

(** [n.toString()] of an integer [n] that prints in decimal digits, which
    numbers below [10 ^ 21] in size do. *)
Definition toString (n : Z) : string := pretty n.

(** [s.padStart(targetLength, fill)]: the fill string is repeated, and cut,
    to the missing length. *)
Fixpoint fillTo (n : nat) (fill rest : string) : string :=
  match n with
  | O => EmptyString
  | S n' =>
    match rest with
    | String c rest' => String c (fillTo n' fill rest')
    | EmptyString =>
      match fill with
      | String c fill' => String c (fillTo n' fill fill')
      | EmptyString => EmptyString
      end
    end
  end.

Definition padStart (targetLength : nat) (fill : string) (s : string)
  : string :=
  fillTo (targetLength - String.length s) fill fill +:+ s.

(** [timeString] of [updateTimerStatusBar]; [%] on numbers is the
    remainder that takes the sign of the dividend. *)
Definition timeString (elapsedSeconds : Z) : string :=
  let hours := elapsedSeconds / 3600 in
  let minutes := Z.rem elapsedSeconds 3600 / 60 in
  let seconds := Z.rem elapsedSeconds 60 in
  padStart 2 "0" (toString hours) +:+ ":"
  +:+ padStart 2 "0" (toString minutes) +:+ ":"
  +:+ padStart 2 "0" (toString seconds).

(** [updateTimerStatusBar]: the text of the status bar item, [None] when
    the item is hidden. *)
Definition updateTimerStatusBar (w : World) : option string :=
  match currentTimer w with
  | None => None
  | Some t =>
    Some (if isPaused t
          then "$(debug-pause) " +:+ timeString (elapsedSeconds t)
               +:+ " - #" +:+ toString (workItemId t) +:+ " (Paused)"
          else "$(clock) " +:+ timeString (elapsedSeconds t)
               +:+ " - #" +:+ toString (workItemId t))
  end.

(** The two decimal digits of a number below 100. *)
Definition digit (d : Z) : Ascii.ascii := Ascii.ascii_of_nat (48 + Z.to_nat d).

Definition twoDigits (n : Z) : string :=
  String (digit (n / 10)) (String (digit (n mod 10)) EmptyString).

(** A clock reading [HH:MM:SS]. *)
Definition clock (h m s : Z) : string :=
  twoDigits h +:+ ":" +:+ twoDigits m +:+ ":" +:+ twoDigits s.

(** The numbers [toString] is the model of. *)
Definition printsInDecimal (n : Z) : Prop := Z.abs n < 10 ^ 21.

(** ** The branch name of a work item *)

(** Strings are sequences of UTF-16 code units here, which is what the
    regular expressions of [createBranchFromWorkItem] (written without the
    [u] flag) work on. *)
Definition hyphen : Z := 45.

(** The class [[a-z0-9]]. *)
Definition isLowerAlnum (c : Z) : bool :=
  (97 <=? c) && (c <=? 122) || (48 <=? c) && (c <=? 57).

(** [.replace(/[^a-z0-9]+/g, '-')]: every maximal run of units outside the
    class becomes one hyphen; [inRun] tells that the unit before was part
    of a run. *)
Fixpoint replaceRuns (inRun : bool) (s : list Z) : list Z :=
  match s with
  | [] => []
  | c :: s' =>
    if isLowerAlnum c then c :: replaceRuns false s'
    else if inRun then replaceRuns true s'
    else hyphen :: replaceRuns true s'
  end.

(** [.replace(/^-|-$/g, '')]: a hyphen at the start is removed, and a
    hyphen at the end of what follows. *)
Definition stripHyphens (s : list Z) : list Z :=
  let s1 := match s with
            | c :: s' => if c =? hyphen then s' else s
            | [] => []
            end in
  match last s1 with
  | Some c => if c =? hyphen then removelast s1 else s1
  | None => s1
  end.

(** The class [[a-zA-Z0-9\-_\/]] of the input box of the branch name, and
    its [validateInput]: [true] where the code returns [null]. *)
Definition isBranchChar (c : Z) : bool :=
  (97 <=? c) && (c <=? 122) || (65 <=? c) && (c <=? 90)
  || (48 <=? c) && (c <=? 57)
  || (c =? hyphen) || (c =? 95) || (c =? 47).

Definition validateInput (value : list Z) : bool :=
  match value with
  | [] => false
  | _ :: _ => forallb isBranchChar value
  end.

(** The units of a string of the program text, and of [n.toString()]. *)
Definition units (s : string) : list Z :=
  (fun c => Z.of_nat (Ascii.nat_of_ascii c)) <$> String.list_ascii_of_string s.

(** The replacement text of [String.prototype.replace] for a pattern that
    is a string: [$$] is a dollar sign, [$&] the match, [$`] what precedes
    it, [$'] what follows it; there are no groups, so every other use of
    the dollar sign stands for itself. *)
Fixpoint getSubstitution (replacement matched before after : list Z)
  : list Z :=
  match replacement with
  | [] => []
  | c :: r =>
    if c =? 36 then
      match r with
      | [] => [c]
      | d :: r' =>
        if d =? 36 then 36 :: getSubstitution r' matched before after
        else if d =? 38 then matched ++ getSubstitution r' matched before after
        else if d =? 96 then before ++ getSubstitution r' matched before after
        else if d =? 39 then after ++ getSubstitution r' matched before after
        else c :: getSubstitution r matched before after
      end
    else c :: getSubstitution r matched before after
  end.

Fixpoint startsWith (pattern s : list Z) : bool :=
  match pattern, s with
  | [], _ => true
  | _ :: _, [] => false
  | p :: pattern', c :: s' => (p =? c) && startsWith pattern' s'
  end.

(** [s.replace(pattern, replacement)] for two strings: the first occurrence
    of the pattern is replaced; [before] is what has been passed over. *)
Fixpoint replaceAt (pattern replacement before s : list Z) : list Z :=
  if startsWith pattern s then
    let after := drop (length pattern) s in
    before ++ getSubstitution replacement pattern before after ++ after
  else
    match s with
    | [] => before
    | c :: s' => replaceAt pattern replacement (before ++ [c]) s'
    end.

Definition replace (pattern replacement s : list Z) : list Z :=
  replaceAt pattern replacement [] s.

(** The [value]s of [branchTypes]. *)
Inductive BranchType :=
  feature | bugfix | hotfix | chore | docs | release.

Definition branchTypeValue (branchType : BranchType) : list Z :=
  match branchType with
  | feature => units "feature"
  | bugfix => units "bugfix"
  | hotfix => units "hotfix"
  | chore => units "chore"
  | docs => units "docs"
  | release => units "release"
  end.

(** The default of the setting [branchNameTemplate]. *)
Definition defaultBranchTemplate : list Z := units "{type}/{id}-{title}".

Section BranchName.
Context (toLowerCase : string -> list Z).

(** [sanitizedTitle] of [createBranchFromWorkItem]; [toLowerCase] gives the
    units of [title.toLowerCase()]. *)
Definition sanitizedTitle (title : string) : list Z :=
  take 50 (stripHyphens (replaceRuns false (toLowerCase title))).

(** [defaultBranchName] of [createBranchFromWorkItem]. *)
Definition defaultBranchName (branchTemplate : list Z)
    (branchType : BranchType) (workItem : WorkItem) : list Z :=
  replace (units "{title}") (sanitizedTitle (System_Title workItem))
    (replace (units "{id}") (units (toString (System_Id workItem)))
       (replace (units "{type}") (branchTypeValue branchType)
          branchTemplate)).

End BranchName.

(** No two hyphens in a row; with [afterHyphen], no hyphen at the start
    either. *)
Fixpoint spaced (afterHyphen : bool) (s : list Z) : bool :=
  match s with
  | [] => true
  | c :: s' =>
    if c =? hyphen then negb afterHyphen && spaced true s'
    else spaced false s'
  end.

(** [toLowerCase] on a title of ASCII characters. *)
Definition lowerAscii (title : string) : list Z :=
  (fun c => if (65 <=? c) && (c <=? 90) then c + 32 else c) <$> units title.

(** * Properties *)

(** ** The bound on [elapsedSeconds] *)

Ltac break_if :=
  match goal with
  | |- context [if ?b then _ else _] => destruct b eqn:?
  | |- context [match ?x with _ => _ end] => destruct x eqn:?
  end.

Lemma currentTimer_startInactivityTimer w :
  currentTimer (startInactivityTimer w) = currentTimer w.
Proof. unfold startInactivityTimer. by break_if. Qed.

Lemma currentTimer_startTimerInterval w :
  currentTimer (startTimerInterval w) = currentTimer w.
Proof.
  unfold startTimerInterval. by rewrite currentTimer_startInactivityTimer.
Qed.

Lemma clamp_bounds raw : 0 <= Z.max 0 (Z.min raw 86400) <= 86400.
Proof. lia. Qed.

Lemma elapsedBounded_startTimer workItem now w :
  elapsedBounded w -> elapsedBounded (startTimer workItem now w).
Proof.
  unfold startTimer. intros H. repeat break_if; try done.
  intros t. cbn.
  rewrite currentTimer_startInactivityTimer, currentTimer_startTimerInterval.
  cbn. intros [= <-]. cbn. lia.
Qed.

Lemma elapsedBounded_pause now w :
  elapsedBounded w -> elapsedBounded (pauseTimerCommand now w).
Proof.
  unfold pauseTimerCommand. intros H. repeat break_if; try done.
  intros t'. cbn. intros [= <-]. cbn. apply clamp_bounds.
Qed.

Lemma elapsedBounded_resume auto now w :
  elapsedBounded w -> elapsedBounded (resumeTimerCommand auto now w).
Proof.
  unfold resumeTimerCommand. intros H.
  destruct (currentTimer w) as [t|] eqn:Ht; [|done].
  destruct (negb (isPaused t)); [done|].
  intros t'. rewrite currentTimer_startTimerInterval. cbn.
  intros [= <-]. specialize (H t Ht).
  destruct (pausedTime t) as [p|]; [destruct (0 <? p)|]; cbn; lia.
Qed.

Lemma elapsedBounded_tick now w :
  elapsedBounded w -> elapsedBounded (timerTick now w).
Proof.
  unfold timerTick. intros H.
  destruct (currentTimer w) as [t|] eqn:Ht; [|done].
  destruct (isPaused t); [done|].
  intros t'. repeat break_if; cbn; intros [= <-];
    repeat match goal with H : (_, _) = (_, _) |- _ => injection H as <- <- end;
    cbn; apply clamp_bounds.
Qed.

Ltac unfold_async :=
  unfold syncTimeEntryToAzure, syncTimeEntryToAzure_resume, try_catch, bind,
    awaitAddTimeEntry, modify, ret.

Lemma currentTimer_sync_resume i o now w :
  currentTimer (snd (syncTimeEntryToAzure_resume i o now w)) = currentTimer w.
Proof. unfold_async. by destruct o. Qed.

Lemma currentTimer_syncTimeEntryToAzure i o now w :
  currentTimer (snd (syncTimeEntryToAzure i o now w)) = currentTimer w.
Proof.
  unfold syncTimeEntryToAzure. destruct (negb (azureDevOpsAPI w)); [done|].
  by rewrite currentTimer_sync_resume.
Qed.

Lemma currentTimer_syncLoop rest n w :
  currentTimer (fst (syncLoop rest n w)) = currentTimer w.
Proof.
  revert n w. induction rest as [|i rest IH]; intros n w; cbn; [done|].
  repeat break_if; cbn; auto.
Qed.

Lemma currentTimer_syncPending w :
  currentTimer (syncPendingTimeEntries w) = currentTimer w.
Proof.
  unfold syncPendingTimeEntries.
  destruct (negb (azureDevOpsAPI w)); [done|].
  destruct (isSyncingTimeEntries w); [done|].
  destruct (pendingFrom 0 (timeEntries w)) as [|i rest]; [done|].
  pose proof (currentTimer_syncLoop (i :: rest) 0
                (set_isSyncingTimeEntries true w)) as E.
  destruct (syncLoop _ _ _) as [w2 [p|]]; cbn in *; done.
Qed.

Lemma currentTimer_syncStep ev w :
  currentTimer (syncStep ev w) = currentTimer w.
Proof.
  destruct ev as [|k o now|k|e now]; cbn.
  - apply currentTimer_syncPending.
  - unfold remoteDone.
    destruct (syncPasses w !! k) as [[i rest n|rest n]|]; try done.
    pose proof (currentTimer_sync_resume i o now w) as E.
    destruct (syncTimeEntryToAzure_resume i o now w) as [[b|e] w1];
      cbn in *; done.
  - unfold wake.
    destruct (syncPasses w !! k) as [[i rest n|rest n]|]; try done.
    pose proof (currentTimer_syncLoop rest n w) as E.
    destruct (syncLoop rest n w) as [w1 [p|]]; cbn in *; done.
  - done.
Qed.

Lemma timeEntries_syncLoop rest n w :
  timeEntries (fst (syncLoop rest n w)) = timeEntries w.
Proof.
  revert n w. induction rest as [|i rest IH]; intros n w; cbn; [done|].
  repeat break_if; cbn; auto.
Qed.

Lemma timeEntries_syncPending w :
  timeEntries (syncPendingTimeEntries w) = timeEntries w.
Proof.
  unfold syncPendingTimeEntries.
  destruct (negb (azureDevOpsAPI w)); [done|].
  destruct (isSyncingTimeEntries w); [done|].
  destruct (pendingFrom 0 (timeEntries w)) as [|i rest]; [done|].
  pose proof (timeEntries_syncLoop (i :: rest) 0
                (set_isSyncingTimeEntries true w)) as E.
  destruct (syncLoop _ _ _) as [w2 [p|]]; cbn in *; done.
Qed.

Lemma globalState_syncLoop rest n w :
  globalState (fst (syncLoop rest n w)) = globalState w.
Proof.
  revert n w. induction rest as [|i rest IH]; intros n w; cbn; [done|].
  repeat break_if; cbn; auto.
Qed.

Lemma globalState_syncPending w :
  globalState (syncPendingTimeEntries w) = globalState w.
Proof.
  unfold syncPendingTimeEntries.
  destruct (negb (azureDevOpsAPI w)); [done|].
  destruct (isSyncingTimeEntries w); [done|].
  destruct (pendingFrom 0 (timeEntries w)) as [|i rest]; [done|].
  pose proof (globalState_syncLoop (i :: rest) 0
                (set_isSyncingTimeEntries true w)) as E.
  destruct (syncLoop _ _ _) as [w2 [p|]]; cbn in *; done.
Qed.

(** [syncTimeEntryToAzure] always returns. *)
Lemma sync_resume_returns i o now w :
  exists success w', syncTimeEntryToAzure_resume i o now w = (Normal success, w').
Proof. unfold_async. destruct o; eauto. Qed.

Lemma syncTimeEntryToAzure_returns i o now w :
  exists success w', syncTimeEntryToAzure i o now w = (Normal success, w').
Proof.
  unfold syncTimeEntryToAzure. destruct (negb (azureDevOpsAPI w)); [eauto|].
  apply sync_resume_returns.
Qed.

Lemma stopAftermath_spec duration timeEntryId w :
  exists w', stopAftermath duration timeEntryId w = (Normal tt, w')
             /\ currentTimer w' = None
             /\ gs_currentTimer (globalState w') = StoredPrim JUndefined
             /\ timeEntries w' = timeEntries w
             /\ gs_timeEntries (globalState w')
                = gs_timeEntries (globalState w).
Proof.
  unfold stopAftermath, bind, modify. cbn.
  eexists; split; [done|].
  break_if; cbn; [|done].
  rewrite currentTimer_syncPending, timeEntries_syncPending.
  rewrite globalState_syncPending. done.
Qed.

(** The end of a stop returns and leaves no session behind; it leaves the
    ledger, in memory and stored, alone. *)
Lemma stopEnds_spec duration timeEntryId w :
  exists w', stopEnds duration timeEntryId w = (Normal None, w')
             /\ currentTimer w' = None
             /\ gs_currentTimer (globalState w') = StoredPrim JUndefined
             /\ timeEntries w' = timeEntries w
             /\ gs_timeEntries (globalState w')
                = gs_timeEntries (globalState w).
Proof.
  unfold stopEnds, bind, ret.
  destruct (stopAftermath_spec duration timeEntryId w) as (w' & -> & H).
  by exists w'.
Qed.

Lemma keepsOrEnds_stopEnds duration timeEntryId w :
  keepsOrEnds w (stopEnds duration timeEntryId).
Proof.
  right. by destruct (stopEnds_spec duration timeEntryId w) as (w' & -> & ? & _).
Qed.

Lemma keepsOrEnds_stopBuild duration inp w :
  keepsOrEnds w (stopBuild duration inp).
Proof.
  unfold keepsOrEnds, stopBuild.
  destruct (currentTimer w) as [t|] eqn:Ht; [|by left].
  destruct (azureDevOpsAPI _); [by left|].
  right. by destruct (stopEnds_spec duration (entry_id (stopEntry duration inp t))
                        (appendTimeEntry (stopEntry duration inp t)
                           (entry_builtAt inp) w)) as (w' & -> & ? & _).
Qed.

Lemma keepsOrEnds_stopTimerCommand now inp w :
  keepsOrEnds w (stopTimerCommand now inp).
Proof.
  unfold keepsOrEnds, stopTimerCommand.
  destruct (currentTimer w) as [t|] eqn:Ht; [|by left].
  destruct (_ <? 60); [by left|].
  rewrite <- Ht. apply keepsOrEnds_stopBuild.
Qed.

Lemma keepsOrEnds_stopResumed ev w k run :
  stopResumed ev w = Some (k, run) -> keepsOrEnds w run.
Proof.
  destruct ev as [j confirm inp|j update|j o now]; cbn;
    destruct (stopCalls w !! j) as [[d|d pos id|d pos id]|]; try done;
    intros [= <- <-].
  - unfold keepsOrEnds, stopConfirmed.
    destruct (negb (isSave confirm)); [by right|].
    apply keepsOrEnds_stopBuild.
  - unfold keepsOrEnds, stopUpdated.
    destruct (isYes update); [|apply keepsOrEnds_stopEnds].
    destruct (negb (azureDevOpsAPI w)); [apply keepsOrEnds_stopEnds|by left].
  - unfold keepsOrEnds, stopPushed, bind.
    pose proof (currentTimer_sync_resume pos o now w) as E.
    destruct (sync_resume_returns pos o now w) as (b & w1 & Hr).
    rewrite Hr in *. cbn in E. right.
    by destruct (stopEnds_spec d id w1) as (w' & -> & ? & _).
Qed.

Lemma currentTimer_stopCalled now inp w :
  currentTimer (stopCalled now inp w) = currentTimer w
  \/ currentTimer (stopCalled now inp w) = None.
Proof.
  pose proof (keepsOrEnds_stopTimerCommand now inp w) as H.
  unfold keepsOrEnds, stopCalled in *.
  by destruct (stopTimerCommand now inp w) as [[[s|]|e] w1].
Qed.

Lemma currentTimer_stopStep ev w :
  currentTimer (stopStep ev w) = currentTimer w
  \/ currentTimer (stopStep ev w) = None.
Proof.
  unfold stopStep.
  destruct (stopResumed ev w) as [[k run]|] eqn:Hr; [|by left].
  pose proof (keepsOrEnds_stopResumed ev w k run Hr) as H.
  unfold keepsOrEnds in H.
  by destruct (run w) as [[[s|]|e] w1].
Qed.

(** A snapshot that passes [isValidTimerState] is a [TimerState] whose
    tested fields are in range. *)
Lemma valid_fromSaved timer :
  isValidTimerState timer = true ->
  exists t, fromSaved timer = Some t
            /\ 0 < workItemId t /\ 0 < startTime t
            /\ 0 <= elapsedSeconds t <= 86400.
Proof.
  unfold isValidTimerState. destruct timer as [v|o]; cbn.
  - rewrite andb_false_r. cbn. done.
  - destruct o as [wid title st el p pt ip pc pi]; cbn.
    destruct wid, title, st, el, p; cbn; rewrite ?andb_false_r; try done.
    intros H. repeat (apply andb_prop in H as [H ?]).
    eexists; split; [done|]. cbn. lia.
Qed.

Lemma elapsedBounded_restore now w :
  elapsedBounded w -> elapsedBounded (restoreTimerState now w).
Proof.
  unfold restoreTimerState. intros H.
  destruct (stored_truthy _); [|done].
  destruct (isValidTimerState _) eqn:Hv; cbn; [|done].
  destruct (valid_fromSaved _ Hv) as (t & -> & _ & _ & Hel).
  intros t'. rewrite currentTimer_startTimerInterval. cbn.
  intros [= <-]. repeat break_if; cbn; try lia.
  assert (0 <= Z.min (Z.max 0 (now - z)) (60 * 60 * 1000) / 1000)
    by (apply Z.div_pos; lia).
  lia.
Qed.

Lemma elapsedBounded_inactivityCheck timeout now w :
  elapsedBounded w -> elapsedBounded (inactivityCheck timeout now w).
Proof.
  unfold inactivityCheck. intros H.
  destruct (currentTimer w) as [t|] eqn:Ht; [|done].
  destruct (isPaused t) eqn:Hp; [done|].
  destruct (_ <=? _); [|done].
  apply elapsedBounded_pause. intros t'. cbn. intros [= <-]. cbn. auto.
Qed.

Lemma elapsedBounded_updateActivity now w :
  elapsedBounded w -> elapsedBounded (updateActivity now w).
Proof.
  unfold updateActivity. intros H.
  change (currentTimer (set_lastActivity now w)) with (currentTimer w).
  destruct (currentTimer w) as [t|] eqn:Ht; [|done].
  destruct (_ && _); [|done].
  destruct (_ <? _); [done|].
  destruct (get_bool _ _); [|done].
  apply elapsedBounded_resume. intros t'. cbn. intros [= <-]. cbn. auto.
Qed.

(** C1. In every state the subsystem can reach from a process start, over
    any persisted store and any clock readings, by start, pause, resume,
    tick, stop and restore (and by the inactivity check, activity signals,
    Pomodoro breaks and sync events as well), a live session has
    [0 <= elapsedSeconds <= 86400]. *)
Theorem elapsedSeconds_bounded w :
  reachable w ->
  forall t, currentTimer w = Some t -> 0 <= elapsedSeconds t <= 86400.
Proof.
  intros Hr. change (elapsedBounded w).
  induction Hr as [gs cfg now|op w Hr IH]; [done|].
  destruct op; cbn.
  - by apply elapsedBounded_startTimer.
  - by apply elapsedBounded_pause.
  - by apply elapsedBounded_resume.
  - unfold fireTimerInterval. destruct (timerInterval w); [|done].
    by apply elapsedBounded_tick.
  - intros t.
    destruct (currentTimer_stopCalled now inp w) as [-> | ->]; [apply IH|done].
  - intros t.
    destruct (currentTimer_stopStep ev w) as [-> | ->]; [apply IH|done].
  - by apply elapsedBounded_restore.
  - unfold fireInactivityTimer. destruct (inactivityTimer w); [|done].
    by apply elapsedBounded_inactivityCheck.
  - by apply elapsedBounded_updateActivity.
  - unfold pomodoroStartBreak. intros t. cbn.
    by apply elapsedBounded_pause.
  - unfold pomodoroBreakOver. destruct (pomodoroBreakTimeout w); [|done].
    by apply elapsedBounded_resume.
  - done.
  - done.
  - done.
  - intros t. rewrite currentTimer_syncStep. apply IH.
Qed.

Lemma elapsedSeconds_bounded_witness :
  exists t, currentTimer tickedLate = Some t
            /\ elapsedSeconds t = 86400
            /\ 0 <= elapsedSeconds t <= 86400.
Proof.
  eexists. split; [reflexivity|]. split; [reflexivity|].
  apply (elapsedSeconds_bounded tickedLate);
    [apply reach_step, reach_step, reach_start | reflexivity].
Defined.

(** ** Exclusive ownership of the session *)

(** C2. The session lives in one slot, so there is never a second one; and
    [startTimer], called while a session exists or while the start lock is
    held, changes nothing at all. *)
Theorem startTimer_noop workItem now w :
  timerStartLock w = true \/ currentTimer w <> None ->
  startTimer workItem now w = w.
Proof.
  unfold startTimer. intros [-> | H]; [done|].
  destruct (timerStartLock w); [done|].
  by destruct (currentTimer w).
Qed.

Lemma startTimer_noop_witness :
  startTimer {| System_Id := 7; System_Title := "Write docs" |} 1005000
    startedAt1000s = startedAt1000s.
Proof.
  apply startTimer_noop. right. vm_compute. discriminate.
Defined.

(** A second start after a first one, whatever the first one did. *)
Lemma startTimer_twice workItem1 now1 workItem2 now2 w :
  startTimer workItem2 now2 (startTimer workItem1 now1 w)
  = startTimer workItem1 now1 w.
Proof.
  destruct (timerStartLock w) eqn:Hl.
  { rewrite (startTimer_noop workItem1 now1 w) by auto.
    apply startTimer_noop; auto. }
  destruct (currentTimer w) as [t|] eqn:Ht.
  { rewrite (startTimer_noop workItem1 now1 w) by (rewrite Ht; auto).
    apply startTimer_noop. rewrite Ht. auto. }
  apply startTimer_noop. right.
  unfold startTimer. rewrite Hl, Ht. cbn.
  by rewrite currentTimer_startInactivityTimer, currentTimer_startTimerInterval.
Qed.

(** ** What a stop records *)

(** The building run, on a live session, returns or suspends, and has
    appended the entry it built from that session and persisted the
    ledger. *)
Lemma stopBuild_appends duration inp w t :
  currentTimer w = Some t ->
  exists r w',
    stopBuild duration inp w = (Normal r, w')
    /\ timeEntries w' = timeEntries w ++ [stopEntry duration inp t]
    /\ gs_timeEntries (globalState w') = timeEntries w'.
Proof.
  intros Ht. unfold stopBuild. rewrite Ht.
  destruct (azureDevOpsAPI _); [by eauto|].
  destruct (stopEnds_spec duration (entry_id (stopEntry duration inp t))
              (appendTimeEntry (stopEntry duration inp t)
                 (entry_builtAt inp) w)) as (w' & -> & _ & _ & Hl & Hg).
  exists None, w'. by rewrite Hl, Hg.
Qed.

Lemma stopConfirmed_save_appends k duration inp w t :
  stopCalls w !! k = Some (AwaitingConfirm duration) ->
  currentTimer w = Some t ->
  let w' := stopStep (EvConfirm k (Some Save) inp) w in
  timeEntries w' = timeEntries w ++ [stopEntry duration inp t]
  /\ gs_timeEntries (globalState w') = timeEntries w'.
Proof.
  intros Hk Ht. unfold stopStep. cbn. rewrite Hk.
  unfold stopConfirmed. cbn.
  destruct (stopBuild_appends duration inp w t Ht)
    as (r & w' & -> & Hl & Hg).
  by destruct r.
Qed.

(** C3, where it fails: a session started at 1000000 ms, paused 90 s later
    and stopped while paused another 110 s later yields an entry of 90
    seconds whose two times are 200 seconds apart. *)
Lemma stop_paused_duration_differs :
  exists e,
    timeEntries
      (step (OpStop 1200000 (builtAt 1200000))
         (step (OpPause 1090000) startedAt1000s)) = [e]
    /\ entry_duration e = 90
    /\ durationFromTimes e = 200.
Proof. eexists. vm_compute. repeat split. Qed.

(** C3, as the code has it. The duration is settled when the stop is
    called: frozen [elapsedSeconds] for a paused session, the clamped whole
    seconds from [startTime] to the clock for a running one. The entry is
    built later in the same run when that duration is 60 or more, and only
    after the prompt was answered with 'Save' when it is less: its end time
    is the clock read then, its start time that of the session live then,
    and its duration the one settled at the call. For a running session
    stopped at 60 seconds or more the duration is therefore at most what the
    two times of the entry give, no more than the clock advanced in between
    (and a second) below it, and equal to it when both readings are one. *)
Theorem stop_duration now inp w t :
  currentTimer w = Some t ->
  now <= entry_builtAt inp ->
  let duration := stopDuration now t in
  let w' := step (OpStop now inp) w in
  duration
  = (if isPaused t then elapsedSeconds t
     else Z.max 0 (Z.min ((now - startTime t) / 1000) 86400))
  /\ (60 <= duration ->
      exists e,
        timeEntries w' = timeEntries w ++ [e]
        /\ entry_duration e = duration
        /\ entry_startTime e = startTime t
        /\ entry_endTime e = entry_builtAt inp
        /\ (isPaused t = false ->
            duration <= durationFromTimes e
            /\ durationFromTimes e
               <= duration + (entry_builtAt inp - now) / 1000 + 1
            /\ (entry_builtAt inp = now -> duration = durationFromTimes e)))
  /\ (duration < 60 ->
      timeEntries w' = timeEntries w
      /\ currentTimer w' = Some t
      /\ stopCalls w' = stopCalls w ++ [AwaitingConfirm duration])
  /\ (forall k settled w1 t1 inp1,
        stopCalls w1 !! k = Some (AwaitingConfirm settled) ->
        currentTimer w1 = Some t1 ->
        exists e,
          timeEntries (step (OpStopResume (EvConfirm k (Some Save) inp1)) w1)
          = timeEntries w1 ++ [e]
          /\ entry_duration e = settled
          /\ entry_startTime e = startTime t1
          /\ entry_endTime e = entry_builtAt inp1).
Proof.
  intros Ht Hnow duration w'. subst duration w'.
  split; [done|]. split; [|split].
  - intros H60. exists (stopEntry (stopDuration now t) inp t).
    split.
    + cbn. unfold stopCalled, stopTimerCommand. rewrite Ht.
      replace (stopDuration now t <? 60) with false by lia.
      destruct (stopBuild_appends (stopDuration now t) inp w t Ht)
        as (r & w1 & -> & Hl & _).
      by destruct r.
    + split; [done|]. split; [done|]. split; [done|].
      intros Hp. unfold durationFromTimes, stopDuration in *.
      rewrite Hp in *.
      change (entry_endTime (stopEntry _ inp t)) with (entry_builtAt inp).
      change (entry_startTime (stopEntry _ inp t)) with (startTime t).
      set (b := entry_builtAt inp) in *. set (s := startTime t) in *.
      pose proof (Z.div_mod (now - s) 1000 ltac:(lia)) as E1.
      pose proof (Z.mod_pos_bound (now - s) 1000 ltac:(lia)) as B1.
      pose proof (Z.div_mod (b - s) 1000 ltac:(lia)) as E2.
      pose proof (Z.mod_pos_bound (b - s) 1000 ltac:(lia)) as B2.
      pose proof (Z.div_mod (b - now) 1000 ltac:(lia)) as E3.
      pose proof (Z.mod_pos_bound (b - now) 1000 ltac:(lia)) as B3.
      split; [lia|]. split; [lia|]. by intros ->.
  - intros Hlt. cbn. unfold stopCalled, stopTimerCommand. rewrite Ht.
    replace (stopDuration now t <? 60) with true by lia. done.
  - intros k settled w1 t1 inp1 Hk Ht1.
    exists (stopEntry settled inp1 t1).
    split; [by apply stopConfirmed_save_appends|done].
Qed.

Lemma stop_duration_witness :
  exists e,
    timeEntries (step (OpStop 1090500 (builtAt 1090502)) startedAt1000s)
    = timeEntries startedAt1000s ++ [e]
    /\ entry_duration e = 90
    /\ entry_endTime e = 1090502.
Proof.
  destruct (stop_duration 1090500 (builtAt 1090502) startedAt1000s
              {| workItemId := 42; workItemTitle := "Fix bug";
                 startTime := 1000000; pausedTime := None;
                 elapsedSeconds := 0; isPaused := false;
                 isPomodoro := None; pomodoroCount := Some 0;
                 pausedDueToInactivity := None |})
    as (_ & H & _); [reflexivity | vm_compute; discriminate |].
  destruct H as (e & Hl & Hd & _ & He & _); [vm_compute; discriminate|].
  exists e. split; [exact Hl|]. split; [exact Hd | exact He].
Defined.

(** ** Stopping under a minute *)

(** What holds of C9. A call that settles on less than 60 seconds changes
    nothing and waits for the answer. When the answer comes, anything but
    'Save' clears the session in memory and in the store and leaves the
    ledger, in memory and persisted, as it is; 'Save' appends one entry with
    the duration settled at the call, built from the session that is live
    then - and throws, appending nothing, when no session is. *)
Lemma stop_under_a_minute now inp w t :
  currentTimer w = Some t ->
  stopDuration now t < 60 ->
  let duration := stopDuration now t in
  let called := step (OpStop now inp) w in
  currentTimer called = Some t
  /\ timeEntries called = timeEntries w
  /\ globalState called = globalState w
  /\ stopCalls called = stopCalls w ++ [AwaitingConfirm duration]
  /\ forall k confirm inp1 w1,
       stopCalls w1 !! k = Some (AwaitingConfirm duration) ->
       let answered := step (OpStopResume (EvConfirm k confirm inp1)) w1 in
       (isSave confirm = false ->
        currentTimer answered = None
        /\ gs_currentTimer (globalState answered) = StoredPrim JUndefined
        /\ timeEntries answered = timeEntries w1
        /\ gs_timeEntries (globalState answered)
           = gs_timeEntries (globalState w1))
       /\ (isSave confirm = true ->
           forall t1, currentTimer w1 = Some t1 ->
           exists e, timeEntries answered = timeEntries w1 ++ [e]
                     /\ gs_timeEntries (globalState answered)
                        = timeEntries answered
                     /\ entry_duration e = duration
                     /\ entry_workItemId e = workItemId t1)
       /\ (isSave confirm = true ->
           currentTimer w1 = None ->
           stopConfirmed duration confirm inp1 w1 = (Throw typeError, w1)
           /\ timeEntries answered = timeEntries w1).
Proof.
  intros Ht Hlt duration called. subst duration called.
  assert (Hcall : stopTimerCommand now inp w
                  = (Normal (Some (AwaitingConfirm (stopDuration now t))), w)).
  { unfold stopTimerCommand. rewrite Ht.
    by replace (stopDuration now t <? 60) with true by lia. }
  cbn. unfold stopCalled. rewrite Hcall. cbn.
  split; [done|]. split; [done|]. split; [done|]. split; [done|].
  intros k confirm inp1 w1 Hk. split; [|split].
  - intros Hs. unfold stopStep. cbn. rewrite Hk.
    unfold stopConfirmed. rewrite Hs. done.
  - intros Hs t1 Ht1. destruct confirm as [[|]|]; try done.
    exists (stopEntry (stopDuration now t) inp1 t1).
    destruct (stopConfirmed_save_appends k (stopDuration now t) inp1 w1 t1)
      as [Hl Hg]; [done..|].
    by repeat split.
  - intros Hs Ht1.
    assert (Hthrow : stopConfirmed (stopDuration now t) confirm inp1 w1
                     = (Throw typeError, w1)).
    { unfold stopConfirmed, stopBuild. by rewrite Hs, Ht1. }
    split; [done|]. unfold stopStep. cbn. rewrite Hk, Hthrow. done.
Qed.

(** C9, where the code departs from it. The prompt is awaited, and the
    session is read again, untested, once it is answered. A stop is called
    10 s after the start and asks; a second stop, called while the prompt
    is open, asks too and is answered 'Discard', which clears the session;
    then the first prompt is answered 'Save': the run throws on reading the
    session, and no entry is appended, in memory or in the store. *)
Theorem save_after_second_stop_throws :
  let called := step (OpStop 1010000 (builtAt 1010000)) startedAt1000s in
  let calledAgain := step (OpStop 1012000 (builtAt 1012000)) called in
  let discarded :=
    step (OpStopResume (EvConfirm 1 (Some Discard) (builtAt 1015000)))
      calledAgain in
  let saved :=
    step (OpStopResume (EvConfirm 0 (Some Save) (builtAt 1020000)))
      discarded in
  stopCalls calledAgain = [AwaitingConfirm 10; AwaitingConfirm 12]
  /\ currentTimer discarded = None
  /\ stopCalls discarded = [AwaitingConfirm 10]
  /\ stopConfirmed 10 (Some Save) (builtAt 1020000) discarded
     = (Throw typeError, discarded)
  /\ timeEntries saved = []
  /\ gs_timeEntries (globalState saved) = []
  /\ stopCalls saved = [].
Proof. vm_compute. repeat split. Qed.

(** ** The Pomodoro marker at start *)

Lemma timerInterval_startInactivityTimer w :
  timerInterval (startInactivityTimer w) = timerInterval w.
Proof. unfold startInactivityTimer. by break_if. Qed.

Lemma globalState_startInactivityTimer w :
  globalState (startInactivityTimer w) = globalState w.
Proof. unfold startInactivityTimer. by break_if. Qed.

Lemma freshPomodoro_tick start n w :
  freshPomodoro start w -> (n - start) / 1000 < 1500 ->
  freshPomodoro start (fireTimerInterval n w).
Proof.
  intros (Hi & Hm & t & Ht & Hs & Hp & Hpo & Hc) Hn.
  unfold fireTimerInterval, timerTick. rewrite Hi, Ht, Hp. cbn.
  rewrite Hpo, Hs. cbn.
  set (el := Z.max 0 (Z.min ((n - start) / 1000) 86400)).
  assert (Hel : 0 <= el < 1500) by lia.
  change (25 * 60 + 5 * 60) with 1800. change (25 * 60) with 1500.
  replace (Z.rem el 1800 =? 1500) with false
    by (rewrite Z.rem_small by lia; lia).
  cbn. repeat split; try done. eexists. split; [done|]. cbn. done.
Qed.

Lemma freshPomodoro_ticks start ticks w :
  freshPomodoro start w ->
  Forall (fun n => (n - start) / 1000 < 1500) ticks ->
  freshPomodoro start (foldl (fun w n => fireTimerInterval n w) w ticks).
Proof.
  intros Hw Hf. revert w Hw.
  induction Hf as [|n ticks Hn Hf IH]; intros w Hw; cbn; [done|].
  apply IH. by apply freshPomodoro_tick.
Qed.

(** C10. A start that goes through writes 0 to the persisted
    [lastPomodoroNotification] and gives the new session a
    [pomodoroCount] of 0, whatever an earlier session left there. Hence,
    with Pomodoro enabled, after any ticks short of the 25-minute mark the
    tick that lands on it does fire: it records 1500 and counts one
    cycle. *)
Theorem start_resets_pomodoro_marker workItem now w :
  timerStartLock w = false ->
  currentTimer w = None ->
  let w' := startTimer workItem now w in
  gs_lastPomodoroNotification (globalState w') = Some 0
  /\ (exists t, currentTimer w' = Some t /\ pomodoroCount t = Some 0)
  /\ (cfg_pomodoroEnabled (config w) = Some true ->
      forall ticks tickNow,
        Forall (fun n => (n - now) / 1000 < 1500) ticks ->
        (tickNow - now) / 1000 = 1500 ->
        let w'' :=
          fireTimerInterval tickNow
            (foldl (fun w n => fireTimerInterval n w) w' ticks) in
        gs_lastPomodoroNotification (globalState w'') = Some 1500
        /\ exists t, currentTimer w'' = Some t /\ pomodoroCount t = Some 1).
Proof.
  intros Hl Ht w'.
  assert (Hw' : w' = startTimer workItem now w) by done.
  unfold startTimer in Hw'. rewrite Hl, Ht in Hw'. cbn in Hw'.
  assert (Hm : gs_lastPomodoroNotification (globalState w') = Some 0).
  { rewrite Hw'. cbn.
    rewrite globalState_startInactivityTimer. unfold startTimerInterval.
    by rewrite globalState_startInactivityTimer. }
  assert (Hc : exists t, currentTimer w' = Some t
                 /\ startTime t = now /\ isPaused t = false
                 /\ isPomodoro t = cfg_pomodoroEnabled (config w)
                 /\ pomodoroCount t = Some 0).
  { rewrite Hw'. cbn.
    rewrite currentTimer_startInactivityTimer, currentTimer_startTimerInterval.
    cbn. eauto 10. }
  split; [done|]. split; [destruct Hc as (t & ? & _ & _ & _ & ?); eauto|].
  intros Hcfg ticks tickNow Hticks Hmark w''.
  assert (Hfresh : freshPomodoro now w').
  { split; [|split; [done|]].
    - rewrite Hw'. cbn. rewrite timerInterval_startInactivityTimer.
      unfold startTimerInterval.
      by rewrite timerInterval_startInactivityTimer.
    - destruct Hc as (t & ? & ? & ? & Hp & ?). rewrite Hcfg in Hp. eauto 10. }
  pose proof (freshPomodoro_ticks now ticks w' Hfresh Hticks)
    as (Hi & Hm' & t & Ht' & Hs & Hp & Hpo & Hcnt).
  subst w''. unfold fireTimerInterval at 1 3. rewrite Hi.
  unfold timerTick. rewrite Ht', Hp. cbn. rewrite Hpo, Hs, Hmark, Hm', Hcnt.
  cbn. split; [done|]. eauto.
Qed.

Lemma start_resets_pomodoro_marker_witness :
  gs_lastPomodoroNotification
    (globalState
       (startTimer item42 1000000
          (processStart
             {| gs_currentTimer := StoredPrim JUndefined;
                gs_lastSaveTime := None;
                gs_lastPomodoroNotification := Some 1500;
                gs_timeEntries := []; gs_totalTimeTracked := None |}
             unsetConfig 999000))) = Some 0.
Proof.
  apply (start_resets_pomodoro_marker item42 1000000
           (processStart
             {| gs_currentTimer := StoredPrim JUndefined;
                gs_lastSaveTime := None;
                gs_lastPomodoroNotification := Some 1500;
                gs_timeEntries := []; gs_totalTimeTracked := None |}
             unsetConfig 999000)); reflexivity.
Defined.

(** ** Restoring an invalid snapshot *)

Lemma listedFailure_invalid o :
  listedFailure o -> isValidTimerState (StoredObj o) = false.
Proof.
  unfold isValidTimerState.
  destruct o as [wid title st el p pt ip pc pi].
  intros [n Hn Hle|n Hn Hr|H|H|H|H|H]; cbn in *; subst;
    repeat match goal with v : jsval |- _ => destruct v end;
    cbn in *; rewrite ?andb_false_r, ?andb_true_r; try done.
  all: rewrite ?andb_false_iff; lia.
Qed.

(** C6. At process start (no session in memory), a stored snapshot that is
    there ([if (savedTimer)] passes) and does not pass [isValidTimerState]
    is removed from the store, nothing else changes, and no session
    exists afterwards; [restoreTimerState] is a total function, so nothing
    is thrown. *)
Theorem restore_discards_invalid now w :
  currentTimer w = None ->
  stored_truthy (gs_currentTimer (globalState w)) = true ->
  isValidTimerState (gs_currentTimer (globalState w)) = false ->
  restoreTimerState now w = update_currentTimer (StoredPrim JUndefined) w
  /\ currentTimer (restoreTimerState now w) = None
  /\ gs_currentTimer (globalState (restoreTimerState now w))
     = StoredPrim JUndefined
  /\ timerInterval (restoreTimerState now w) = timerInterval w.
Proof.
  intros Hc Ht Hv. unfold restoreTimerState. rewrite Ht, Hv. cbn. done.
Qed.

Lemma restore_discards_invalid_witness :
  currentTimer
    (restoreTimerState 2000000
       (processStart (storeWith (StoredObj negativeElapsed)) unsetConfig
          2000000)) = None
  /\ gs_currentTimer
       (globalState
          (restoreTimerState 2000000
             (processStart (storeWith (StoredObj negativeElapsed))
                unsetConfig 2000000))) = StoredPrim JUndefined.
Proof.
  destruct (restore_discards_invalid 2000000
              (processStart (storeWith (StoredObj negativeElapsed))
                 unsetConfig 2000000))
    as (_ & H1 & H2 & _); [reflexivity | reflexivity | | ].
  - apply listedFailure_invalid.
    apply (ElapsedOutOfRange negativeElapsed (-5)); [reflexivity | lia].
  - split; [exact H1 | exact H2].
Defined.

(** A stored value that [if (savedTimer)] takes for absent is left alone. *)
Lemma restore_ignores_falsy now w :
  stored_truthy (gs_currentTimer (globalState w)) = false ->
  restoreTimerState now w = w.
Proof. intros H. unfold restoreTimerState. by rewrite H. Qed.

(** ** Resuming *)

(** What [resumeTimerCommand] does to a paused session whose pause instant
    is on record and not in the future: the start moves forward by the
    paused time, at most 24 hours, and the pause is over. *)
Lemma resume_shifts_start auto now w t p :
  currentTimer w = Some t ->
  isPaused t = true ->
  pausedTime t = Some p -> 0 < p <= now ->
  exists t', currentTimer (resumeTimerCommand auto now w) = Some t'
             /\ startTime t' = startTime t + Z.min (now - p) 86400000
             /\ elapsedSeconds t' = elapsedSeconds t
             /\ isPaused t' = false
             /\ pausedTime t' = None
             /\ timerInterval (resumeTimerCommand auto now w) = true
             /\ gs_currentTimer (globalState (resumeTimerCommand auto now w))
                = toSaved t'.
Proof.
  intros Ht Hp Hpt Hle. unfold resumeTimerCommand. rewrite Ht, Hp, Hpt. cbn.
  replace (0 <? p) with true by lia.
  rewrite currentTimer_startTimerInterval. unfold startTimerInterval.
  rewrite timerInterval_startInactivityTimer,
    globalState_startInactivityTimer. cbn.
  eexists. split; [done|]. cbn. repeat split; try done.
  f_equal. lia.
Qed.

(** [resumeTimerCommand] never writes [pausedDueToInactivity]. *)
Lemma resume_keeps_inactivity_flag auto now w t :
  currentTimer w = Some t ->
  exists t', currentTimer (resumeTimerCommand auto now w) = Some t'
             /\ pausedDueToInactivity t' = pausedDueToInactivity t.
Proof.
  intros Ht. unfold resumeTimerCommand. rewrite Ht.
  destruct (negb (isPaused t)); [eauto|].
  rewrite currentTimer_startTimerInterval. cbn.
  eexists. split; [done|].
  destruct (pausedTime t) as [p|]; [destruct (0 <? p)|]; done.
Qed.

(** C7, where the code departs from it. After an inactivity pause, the
    resume command leaves [pausedDueToInactivity] set on the running
    session (only [updateActivity] clears it, before it resumes); a later
    pause by hand is then taken for an inactivity pause, and the next
    activity signal resumes it. *)
Theorem manual_resume_keeps_inactivity_flag :
  let resumed := step (OpResume 1500000) pausedForInactivity in
  (pausedDueToInactivity <$> currentTimer pausedForInactivity)
  = Some (Some true)
  /\ (isPaused <$> currentTimer resumed) = Some false
  /\ (pausedTime <$> currentTimer resumed) = Some None
  /\ (startTime <$> currentTimer resumed) = Some 1100000
  /\ (pausedDueToInactivity <$> currentTimer resumed) = Some (Some true)
  /\ (isPaused <$> currentTimer (step (OpPause 1600000) resumed)) = Some true
  /\ (isPaused <$> currentTimer
        (step (OpActivity 1700000) (step (OpPause 1600000) resumed)))
     = Some false.
Proof. vm_compute. repeat split. Qed.

(** ** The inactivity timeout setting *)

(** A negative timeout disables the monitor: nothing is armed, and the
    periodic check cannot run. *)
Lemma negative_timeout_disables w n now :
  cfg_timerInactivityTimeout (config w) = Some n -> n < 0 ->
  inactivityTimer (startInactivityTimer w) = None
  /\ fireInactivityTimer now (startInactivityTimer w)
     = startInactivityTimer w.
Proof.
  intros Hc Hn. unfold startInactivityTimer. rewrite Hc. cbn.
  replace (n =? 0) with false by lia.
  replace (n <=? 0) with true by lia. done.
Qed.

(** C8, where the code departs from it. With the timeout set to exactly 0,
    [0 || 300] is 300: a start arms the inactivity check with a timeout of
    300 seconds, and 300 idle seconds later the check pauses the session
    with [pausedDueToInactivity] set. *)
Theorem zero_timeout_arms_monitor :
  let started :=
    step (OpStart item42 1000000)
      (processStart emptyStore (withTimeout 0) 1000000) in
  let checked := step (OpInactivityCheck 1300000) started in
  inactivityTimer started = Some 300
  /\ (isPaused <$> currentTimer checked) = Some true
  /\ (pausedDueToInactivity <$> currentTimer checked) = Some (Some true).
Proof. vm_compute. repeat split. Qed.

(** ** Syncing one entry *)



(** ** Single flight of the pending sync *)

Lemma pendingFrom_spec l k i :
  i ∈ pendingFrom k l <->
  (k <= i)%nat /\ exists e, l !! (i - k)%nat = Some e /\ entry_synced e = false.
Proof.
  revert k. induction l as [|e l IH]; intros k; cbn.
  - split; [by intros ?%elem_of_nil | by intros (_ & ? & ? & _)].
  - destruct (entry_synced e) eqn:He.
    + rewrite IH. split.
      * intros (Hk & e' & Hl & Hs). split; [lia|]. exists e'. split; [|done].
        replace (i - k)%nat with (S (i - S k)) by lia. done.
      * intros (Hk & e' & Hl & Hs).
        destruct (i - k)%nat as [|j] eqn:Hj; cbn in Hl; [congruence|].
        split; [lia|]. exists e'. split; [|done].
        replace (i - S k)%nat with j by lia. done.
    + rewrite elem_of_cons, IH. split.
      * intros [-> | (Hk & e' & Hl & Hs)].
        -- split; [lia|]. exists e. by rewrite Nat.sub_diag.
        -- split; [lia|]. exists e'. split; [|done].
           replace (i - k)%nat with (S (i - S k)) by lia. done.
      * intros (Hk & e' & Hl & Hs).
        destruct (i - k)%nat as [|j] eqn:Hj; cbn in Hl.
        -- left. lia.
        -- right. split; [lia|]. exists e'. split; [|done].
           replace (i - S k)%nat with j by lia. done.
Qed.

Lemma pendingFrom_NoDup l k : NoDup (pendingFrom k l).
Proof.
  revert k. induction l as [|e l IH]; intros k; cbn; [constructor|].
  destruct (entry_synced e); [apply IH|].
  constructor; [|apply IH].
  rewrite pendingFrom_spec. lia.
Qed.

(** The loop, from any point: it either ends the pass, or stops at the
    first entry of [rest] that is still unsynced and submits exactly it. *)
Lemma syncLoop_spec rest n w :
  match syncLoop rest n w with
  | (w', Some (AwaitingRemote i rest' _)) =>
    w' = callAddTimeEntry i w
    /\ (i :: rest') `sublist_of` rest
    /\ exists e, timeEntries w !! i = Some e /\ entry_synced e = false
  | (w', Some (Sleeping rest' _)) =>
    w' = w /\ rest' `sublist_of` rest /\ azureDevOpsAPI w = false
  | (w', None) => w' = set_isSyncingTimeEntries false w
  end.
Proof.
  induction rest as [|i rest IH]; cbn; [done|].
  destruct (timeEntries w !! i) as [e|] eqn:Hi.
  - destruct (entry_synced e) eqn:Hs.
    + destruct (syncLoop rest n w) as [w' [[j rest' m|rest' m]|]];
        [| |done].
      * destruct IH as (? & ? & ?). split; [done|]. split; [|done].
        by apply sublist_cons.
      * destruct IH as (? & ? & ?). split; [done|]. split; [|done].
        by apply sublist_cons.
    + destruct (azureDevOpsAPI w) eqn:Ha.
      * split; [done|]. split; [done|]. eauto.
      * split; [done|]. split; [|done]. by apply sublist_cons.
  - destruct (syncLoop rest n w) as [w' [[j rest' m|rest' m]|]]; [| |done].
    + destruct IH as (? & ? & ?). split; [done|]. split; [|done].
      by apply sublist_cons.
    + destruct IH as (? & ? & ?). split; [done|]. split; [|done].
      by apply sublist_cons.
Qed.

(** A call while the flag is set returns at once: nothing changes. *)
Lemma syncPending_while_syncing w :
  isSyncingTimeEntries w = true -> syncPendingTimeEntries w = w.
Proof.
  intros H. unfold syncPendingTimeEntries. rewrite H.
  by destruct (negb (azureDevOpsAPI w)).
Qed.

Lemma sync_resume_frame i o now w :
  exists success w',
    syncTimeEntryToAzure_resume i o now w = (Normal success, w')
    /\ isSyncingTimeEntries w' = isSyncingTimeEntries w
    /\ syncPasses w' = syncPasses w
    /\ remoteLog w' = remoteLog w.
Proof. unfold_async. destruct o; cbn; eauto 10. Qed.

Lemma lookup_single_pass (p q : PassState) k :
  [p] !! k = Some q -> k = 0%nat /\ q = p.
Proof. destruct k as [|k]; cbn; [by intros [= ->]|by destruct k]. Qed.

(** At most one pass at a time, over any sequence of sync events. *)
Lemma singleFlight_step ev w :
  singleFlight w -> singleFlight (syncStep ev w).
Proof.
  intros Hw. destruct ev as [|k o now|k|e now]; cbn.
  - unfold syncPendingTimeEntries.
    destruct (negb (azureDevOpsAPI w)); [done|].
    destruct (isSyncingTimeEntries w) eqn:Hf; [done|].
    destruct (pendingFrom 0 (timeEntries w)) as [|i rest]; [done|].
    destruct Hw as [[_ Hp]|[? _]]; [|congruence].
    pose proof (syncLoop_spec (i :: rest) 0
                  (set_isSyncingTimeEntries true w)) as Hl.
    destruct (syncLoop _ _ _) as [w2 [[j rest' m|rest' m]|]].
    + destruct Hl as (-> & _). right. cbn. rewrite Hp. eauto.
    + destruct Hl as (-> & _). right. cbn. rewrite Hp. eauto.
    + subst w2. left. done.
  - unfold remoteDone.
    destruct (syncPasses w !! k) as [[i rest n|rest n]|] eqn:Hk; [|done..].
    destruct Hw as [[_ Hp]|(Hf & p & Hp)]; [by rewrite Hp in Hk|].
    rewrite Hp in Hk. apply lookup_single_pass in Hk as [-> <-].
    destruct (sync_resume_frame i o now w) as (b & w1 & -> & Hf1 & Hp1 & _).
    right. cbn. rewrite Hf1, Hp1, Hp. cbn. eauto.
  - unfold wake.
    destruct (syncPasses w !! k) as [[i rest n|rest n]|] eqn:Hk; [done| |done].
    destruct Hw as [[_ Hp]|(Hf & p & Hp)]; [by rewrite Hp in Hk|].
    rewrite Hp in Hk. apply lookup_single_pass in Hk as [-> <-].
    pose proof (syncLoop_spec rest n w) as Hl.
    destruct (syncLoop _ _ _) as [w2 [[j rest' m|rest' m]|]].
    + destruct Hl as (-> & _). right. cbn. rewrite Hf, Hp. cbn. eauto.
    + destruct Hl as (-> & _). right. cbn. rewrite Hf, Hp. cbn. eauto.
    + subst w2. left. cbn. by rewrite Hp.
  - done.
Qed.

Lemma singleFlight_run evs w :
  singleFlight w -> singleFlight (syncRun evs w).
Proof.
  revert w. induction evs as [|ev evs IH]; intros w Hw; cbn; [done|].
  apply IH. by apply singleFlight_step.
Qed.

(** A sync step submits at most one entry, and only one that is unsynced
    at that moment. *)
Lemma syncStep_submits_unsynced ev w :
  remoteLog (syncStep ev w) = remoteLog w
  \/ exists i e, remoteLog (syncStep ev w) = remoteLog w ++ [i]
                 /\ timeEntries w !! i = Some e /\ entry_synced e = false.
Proof.
  destruct ev as [|k o now|k|e now]; cbn.
  - unfold syncPendingTimeEntries.
    destruct (negb (azureDevOpsAPI w)); [by left|].
    destruct (isSyncingTimeEntries w); [by left|].
    destruct (pendingFrom 0 (timeEntries w)) as [|i rest]; [by left|].
    pose proof (syncLoop_spec (i :: rest) 0
                  (set_isSyncingTimeEntries true w)) as Hl.
    destruct (syncLoop _ _ _) as [w2 [[j rest' m|rest' m]|]].
    + destruct Hl as (-> & _ & e & He & Hs). right. exists j, e. done.
    + destruct Hl as (-> & _). by left.
    + subst w2. by left.
  - unfold remoteDone.
    destruct (syncPasses w !! k) as [[i rest n|rest n]|]; [|by left..].
    destruct (sync_resume_frame i o now w) as (b & w1 & -> & _ & _ & Hlog).
    left. done.
  - unfold wake.
    destruct (syncPasses w !! k) as [[i rest n|rest n]|];
      [by left| |by left].
    pose proof (syncLoop_spec rest n w) as Hl.
    destruct (syncLoop _ _ _) as [w2 [[j rest' m|rest' m]|]].
    + destruct Hl as (-> & _ & e & He & Hs). right. exists j, e. done.
    + destruct Hl as (-> & _). by left.
    + subst w2. by left.
  - by left.
Qed.

Lemma passInvariant_advance (pending subs rest : list nat) i rest' :
  NoDup (subs ++ rest) ->
  (forall j, j ∈ subs ++ rest -> j ∈ pending) ->
  (i :: rest') `sublist_of` rest ->
  NoDup ((subs ++ [i]) ++ rest')
  /\ forall j, j ∈ (subs ++ [i]) ++ rest' -> j ∈ pending.
Proof.
  intros Hn Hin Hsub. rewrite <- app_assoc. cbn.
  assert (Hs : (subs ++ i :: rest') `sublist_of` (subs ++ rest))
    by (by apply sublist_app).
  split; [by eapply sublist_NoDup|].
  intros j Hj. apply Hin. by eapply elem_of_sublist.
Qed.

Lemma passInvariant_skip (pending subs rest rest' : list nat) :
  NoDup (subs ++ rest) ->
  (forall j, j ∈ subs ++ rest -> j ∈ pending) ->
  rest' `sublist_of` rest ->
  NoDup (subs ++ rest')
  /\ forall j, j ∈ subs ++ rest' -> j ∈ pending.
Proof.
  intros Hn Hin Hsub.
  assert (Hs : (subs ++ rest') `sublist_of` (subs ++ rest))
    by (by apply sublist_app).
  split; [by eapply sublist_NoDup|].
  intros j Hj. apply Hin. by eapply elem_of_sublist.
Qed.

Section OnePass.

(** The pending list the pass was started from, and the log at that time. *)
Variables (pending log0 : list nat).

Lemma passInvariant_step ev w :
  passInvariant pending log0 w ->
  (ev = EvInvoke -> isSyncingTimeEntries w = true) ->
  passInvariant pending log0 (syncStep ev w).
Proof.
  intros (subs & Hlog & Hw) Hov.
  destruct ev as [|k o now|k|e now]; cbn.
  - rewrite syncPending_while_syncing by auto. by exists subs.
  - unfold remoteDone.
    destruct (syncPasses w !! k) as [[i rest n|rest n]|] eqn:Hk;
      [|by exists subs..].
    destruct Hw as [(_ & Hp & _)|(Hf & p & Hp & Hnd & Hin)];
      [by rewrite Hp in Hk|].
    rewrite Hp in Hk. apply lookup_single_pass in Hk as [-> <-].
    destruct (sync_resume_frame i o now w)
      as (b & w1 & -> & Hf1 & Hp1 & Hl1).
    exists subs. cbn. rewrite Hl1, Hf1, Hp1, Hp. split; [done|].
    right. split; [done|]. eexists. split; [done|]. done.
  - unfold wake.
    destruct (syncPasses w !! k) as [[i rest n|rest n]|] eqn:Hk;
      [by exists subs| |by exists subs].
    destruct Hw as [(_ & Hp & _)|(Hf & p & Hp & Hnd & Hin)];
      [by rewrite Hp in Hk|].
    rewrite Hp in Hk. apply lookup_single_pass in Hk as [-> <-].
    cbn in Hnd, Hin.
    pose proof (syncLoop_spec rest n w) as Hl.
    destruct (syncLoop _ _ _) as [w2 [[j rest' m|rest' m]|]].
    + destruct Hl as (-> & Hsub & _).
      destruct (passInvariant_advance pending subs rest j rest' Hnd Hin Hsub)
        as [Hnd' Hin'].
      exists (subs ++ [j]). cbn. rewrite Hlog, Hf, Hp, app_assoc.
      split; [done|]. right. split; [done|]. eexists. split; [done|]. done.
    + destruct Hl as (-> & Hsub & _).
      destruct (passInvariant_skip pending subs rest rest' Hnd Hin Hsub)
        as [Hnd' Hin'].
      exists subs. cbn. rewrite Hlog, Hf, Hp.
      split; [done|]. right. split; [done|]. eexists. split; [done|]. done.
    + subst w2. exists subs. cbn. rewrite Hlog, Hp. split; [done|]. left.
      destruct (passInvariant_skip pending subs rest [] Hnd Hin
                  (sublist_nil_l _)) as [Hnd' Hin'].
      rewrite app_nil_r in Hnd', Hin'. done.
  - exists subs. cbn. split; [done|]. done.
Qed.

Lemma passInvariant_run evs w :
  passInvariant pending log0 w ->
  overlapping evs w = true ->
  passInvariant pending log0 (syncRun evs w).
Proof.
  revert w. induction evs as [|ev evs IH]; intros w Hw Hov; cbn; [done|].
  cbn in Hov. apply andb_prop in Hov as [Hev Hov].
  apply IH; [|done]. apply passInvariant_step; [done|].
  intros ->. done.
Qed.

End OnePass.

(** The first call, from an idle engine, sets the invariant up. *)
Lemma passInvariant_invoke w :
  syncIdle w ->
  passInvariant (pendingFrom 0 (timeEntries w)) (remoteLog w)
    (syncPendingTimeEntries w).
Proof.
  intros [Hf Hp]. unfold syncPendingTimeEntries. rewrite Hf.
  assert (Hidle : passInvariant (pendingFrom 0 (timeEntries w))
                    (remoteLog w) w).
  { exists []. rewrite app_nil_r. split; [done|]. left.
    repeat split; try done; [constructor|by intros ? ?%elem_of_nil]. }
  destruct (negb (azureDevOpsAPI w)); [done|].
  pose proof (pendingFrom_NoDup (timeEntries w) 0) as Hnd.
  destruct (pendingFrom 0 (timeEntries w)) as [|i rest] eqn:Hpend; [done|].
  pose proof (syncLoop_spec (i :: rest) 0
                (set_isSyncingTimeEntries true w)) as Hl.
  destruct (syncLoop _ _ _) as [w2 [[j rest' m|rest' m]|]].
  - destruct Hl as (-> & Hsub & _).
    destruct (passInvariant_advance (i :: rest) [] (i :: rest) j rest')
      as [Hnd' Hin']; [done..|].
    exists [j]. cbn. rewrite Hp. split; [done|]. right. split; [done|].
    eexists. split; [done|]. done.
  - destruct Hl as (-> & Hsub & _).
    destruct (passInvariant_skip (i :: rest) [] (i :: rest) rest')
      as [Hnd' Hin']; [done..|].
    exists []. cbn. rewrite Hp, app_nil_r. split; [done|]. right.
    split; [done|]. eexists. split; [done|]. done.
  - subst w2. exists []. cbn. rewrite app_nil_r. split; [done|]. left.
    repeat split; try done; [constructor|by intros ? ?%elem_of_nil].
Qed.

(** What holds of C4, for the passes of [syncPendingTimeEntries] among
    themselves. (1) A call while a pass is in progress returns at once and
    changes nothing, so it submits nothing. (2) From an idle engine, over a
    first call and any events of the passes after it in which every further
    call overlaps a pass in progress, the entries submitted to the remote
    are pairwise distinct and were all pending at the first call. (3)
    Whatever the state, a step of a pass submits only an entry whose
    [synced] is false at that moment. (4) From an idle engine, over any
    events of the passes, at most one pass is in progress. *)
Lemma syncPending_single_flight :
  (forall w,
     isSyncingTimeEntries w = true -> syncPendingTimeEntries w = w)
  /\ (forall w0 evs,
        syncIdle w0 ->
        overlapping evs (syncPendingTimeEntries w0) = true ->
        exists subs,
          remoteLog (syncRun evs (syncPendingTimeEntries w0))
          = remoteLog w0 ++ subs
          /\ NoDup subs
          /\ forall i, i ∈ subs ->
               exists e, timeEntries w0 !! i = Some e
                         /\ entry_synced e = false)
  /\ (forall w ev,
        remoteLog (syncStep ev w) = remoteLog w
        \/ exists i e, remoteLog (syncStep ev w) = remoteLog w ++ [i]
                       /\ timeEntries w !! i = Some e
                       /\ entry_synced e = false)
  /\ (forall w0 evs,
        syncIdle w0 -> (length (syncPasses (syncRun evs w0)) <= 1)%nat).
Proof.
  split; [exact syncPending_while_syncing|].
  split; [|split; [intros w ev; apply syncStep_submits_unsynced|]].
  - intros w0 evs Hidle Hov.
    destruct (passInvariant_run _ _ evs _ (passInvariant_invoke w0 Hidle) Hov)
      as (subs & Hlog & Hcases).
    assert (Hsubs : NoDup subs
                    /\ forall i, i ∈ subs
                                 -> i ∈ pendingFrom 0 (timeEntries w0)).
    { destruct Hcases as [(_ & _ & Hnd & Hin)|(_ & p & _ & Hnd & Hin)];
        [done|].
      apply NoDup_app in Hnd as (Hnd & _ & _). split; [done|].
      intros i Hi. apply Hin, elem_of_app. by left. }
    destruct Hsubs as [Hnd Hin].
    exists subs. split; [done|]. split; [done|].
    intros i Hi. apply Hin, pendingFrom_spec in Hi as (_ & e & He & Hs).
    rewrite Nat.sub_0_r in He. eauto.
  - intros w0 evs Hidle.
    destruct (singleFlight_run evs w0) as [(_ & ->)|(_ & p & ->)];
      [by left|cbn; lia..].
Qed.

Lemma syncPending_single_flight_witness :
  remoteLog
    (syncRun overlappingCalls
       (syncPendingTimeEntries (connectedWith [pendingEntry; secondPending])))
  = [0%nat; 1%nat]
  /\ exists subs,
       remoteLog
         (syncRun overlappingCalls
            (syncPendingTimeEntries
               (connectedWith [pendingEntry; secondPending])))
       = remoteLog (connectedWith [pendingEntry; secondPending]) ++ subs
       /\ NoDup subs.
Proof.
  split; [vm_compute; reflexivity|].
  destruct syncPending_single_flight as (_ & H & _).
  destruct (H (connectedWith [pendingEntry; secondPending]) overlappingCalls)
    as (subs & Hlog & Hnd & _);
    [split; reflexivity | vm_compute; reflexivity |].
  exists subs. split; [exact Hlog | exact Hnd].
Defined.


(** The push of a stop sends its entry without looking at [synced]. *)
Lemma stopUpdated_submits k duration position timeEntryId w :
  stopCalls w !! k = Some (AwaitingUpdate duration position timeEntryId) ->
  azureDevOpsAPI w = true ->
  let w' := step (OpStopResume (EvUpdate k (Some Yes))) w in
  remoteLog w' = remoteLog w ++ [position]
  /\ timeEntries w' = timeEntries w
  /\ stopCalls w'
     = <[k := AwaitingPush duration position timeEntryId]> (stopCalls w).
Proof.
  intros Hk Hapi. cbn. unfold stopStep. cbn. rewrite Hk.
  unfold stopUpdated. cbn. rewrite Hapi. done.
Qed.

(** C4, where the code departs from it. Passes do not submit twice among
    themselves, but [stopTimerCommand] submits too, after a prompt and
    without the test of [synced] that the loop of a pass makes. With the API
    connected, a session is stopped after 90 s: the entry is appended and
    the stop asks whether to update the work item. (1) While the prompt is
    open the periodic pass runs, submits the entry and marks it synced; then
    the prompt is answered 'Yes', and the entry, synced by now, is submitted
    a second time. (2) Or the prompt is answered 'Yes' first and the
    periodic pass starts while the push is on its way: the entry is still
    pending, and the pass submits it as well. *)
Theorem stop_resubmits_synced_entry :
  let connected :=
    step (OpConnect true) (processStart emptyStore unsetConfig 999000) in
  let stopped :=
    step (OpStop 1090000 (builtAt 1090000))
      (step (OpStart item42 1000000) connected) in
  let passed :=
    step (OpSync (EvWake 0))
      (step (OpSync (EvRemoteDone 0 Resolved 1095000))
         (step (OpSync EvInvoke) stopped)) in
  let answered := step (OpStopResume (EvUpdate 0 (Some Yes))) passed in
  let ended :=
    step (OpStopResume (EvPushDone 0 Resolved 1100000)) answered in
  let pushing := step (OpStopResume (EvUpdate 0 (Some Yes))) stopped in
  let overtaken := step (OpSync EvInvoke) pushing in
  (stopCalls stopped = [AwaitingUpdate 90 0 "1010000-abc"]
   /\ (entry_synced <$> timeEntries stopped !! 0%nat) = Some false
   /\ remoteLog stopped = [])
  /\ (remoteLog passed = [0%nat]
      /\ syncPasses passed = [] /\ isSyncingTimeEntries passed = false
      /\ (entry_synced <$> timeEntries passed !! 0%nat) = Some true
      /\ remoteLog answered = [0%nat; 0%nat]
      /\ remoteLog ended = [0%nat; 0%nat]
      /\ length (timeEntries ended) = 1%nat
      /\ stopCalls ended = [])
  /\ (remoteLog pushing = [0%nat]
      /\ stopCalls pushing = [AwaitingPush 90 0 "1010000-abc"]
      /\ remoteLog overtaken = [0%nat; 0%nat]
      /\ syncPasses overtaken = [AwaitingRemote 0 [] 0]).
Proof. vm_compute. repeat split. Qed.

(** ** Scenarios of the specification, run on the model *)

(** Start, tick to 90 s, pause, resume 110 s later, tick on to 150 s of
    tracked time, stop: one unsynced entry of 150 seconds, whose two times
    are 150 seconds apart since the resume moved the start. *)
Example scenario_pause_resume_stop :
  exists e,
    timeEntries
      (step (OpStop 1260000 (builtAt 1260000))
         (step (OpTick 1260000)
            (step (OpResume 1200000)
               (step (OpPause 1090000)
                  (step (OpTick 1090000) startedAt1000s))))) = [e]
    /\ entry_duration e = 150
    /\ durationFromTimes e = 150
    /\ entry_synced e = false.
Proof. eexists. vm_compute. repeat split. Qed.

(** With the default timeout of 300 s: 310 idle seconds pause the session
    for inactivity, and the next activity signal resumes it. *)
Example scenario_inactivity :
  let idle := step (OpInactivityCheck 1309000) startedAt1000s in
  (isPaused <$> currentTimer idle) = Some true
  /\ (pausedDueToInactivity <$> currentTimer idle) = Some (Some true)
  /\ (isPaused <$> currentTimer (step (OpActivity 1320000) idle))
     = Some false
  /\ (pausedDueToInactivity <$> currentTimer (step (OpActivity 1320000) idle))
     = Some (Some false).
Proof. vm_compute. repeat split. Qed.

(** * Further properties of the code *)

(** From here on arithmetic is left to [lia]: simplification does not
    unfold it. *)
#[local] Arguments Z.div : simpl never.
#[local] Arguments Z.rem : simpl never.
#[local] Arguments Z.mul : simpl never.
#[local] Arguments Z.add : simpl never.
#[local] Arguments Z.sub : simpl never.
#[local] Arguments Z.max : simpl never.
#[local] Arguments Z.min : simpl never.
#[local] Arguments toSaved : simpl never.

(** ** What the sync engine leaves alone *)

Lemma timerView_sync_resume i o now w :
  timerView (snd (syncTimeEntryToAzure_resume i o now w)) = timerView w.
Proof. unfold_async. by destruct o. Qed.

Lemma timerView_syncTimeEntryToAzure i o now w :
  timerView (snd (syncTimeEntryToAzure i o now w)) = timerView w.
Proof.
  unfold syncTimeEntryToAzure. destruct (negb (azureDevOpsAPI w)); [done|].
  by rewrite timerView_sync_resume.
Qed.

Lemma timerView_syncLoop rest n w :
  timerView (fst (syncLoop rest n w)) = timerView w.
Proof.
  revert n w. induction rest as [|i rest IH]; intros n w; cbn; [done|].
  repeat break_if; cbn; auto.
Qed.

Lemma timerView_syncPending w :
  timerView (syncPendingTimeEntries w) = timerView w.
Proof.
  unfold syncPendingTimeEntries.
  destruct (negb (azureDevOpsAPI w)); [done|].
  destruct (isSyncingTimeEntries w); [done|].
  destruct (pendingFrom 0 (timeEntries w)) as [|i rest]; [done|].
  pose proof (timerView_syncLoop (i :: rest) 0
                (set_isSyncingTimeEntries true w)) as E.
  destruct (syncLoop _ _ _) as [w2 [p|]]; cbn in *; done.
Qed.

Lemma timerView_syncStep ev w :
  timerView (syncStep ev w) = timerView w.
Proof.
  destruct ev as [|k o now|k|e now]; cbn.
  - apply timerView_syncPending.
  - unfold remoteDone.
    destruct (syncPasses w !! k) as [[i rest n|rest n]|]; try done.
    pose proof (timerView_sync_resume i o now w) as E.
    destruct (syncTimeEntryToAzure_resume i o now w) as [[b|e] w1];
      cbn in *; done.
  - unfold wake.
    destruct (syncPasses w !! k) as [[i rest n|rest n]|]; try done.
    pose proof (timerView_syncLoop rest n w) as E.
    destruct (syncLoop rest n w) as [w1 [p|]]; cbn in *; done.
  - done.
Qed.

(** The end of a stop: no session, nothing armed, nothing stored, the lock
    as it was. *)
Lemma timerView_stopEnds duration timeEntryId w :
  exists w', stopEnds duration timeEntryId w = (Normal None, w')
             /\ timerView w' = (None, false, None, timerStartLock w,
                                StoredPrim JUndefined).
Proof.
  unfold stopEnds, stopAftermath, bind, modify, ret. cbn.
  eexists. split; [done|].
  break_if; [rewrite timerView_syncPending|]; done.
Qed.

Lemma keptOrCleared_stopBuild duration inp w :
  keptOrCleared w (snd (stopBuild duration inp w)).
Proof.
  unfold keptOrCleared, stopBuild.
  destruct (currentTimer w) as [t|]; [|by left].
  set (w0 := appendTimeEntry _ _ w).
  assert (Hv : timerView w0 = timerView w) by done.
  assert (Hl : timerStartLock w0 = timerStartLock w) by done.
  destruct (azureDevOpsAPI w0); [by left|].
  right. destruct (timerView_stopEnds duration
                     (entry_id (stopEntry duration inp t)) w0)
    as (w' & -> & Hw'). cbn [snd]. by rewrite Hw', Hl.
Qed.

Lemma keptOrCleared_stopCalled now inp w :
  keptOrCleared w (stopCalled now inp w).
Proof.
  assert (H : keptOrCleared w (snd (stopTimerCommand now inp w))).
  { unfold stopTimerCommand.
    destruct (currentTimer w) as [t|]; [|by left].
    destruct (_ <? 60); [by left|]. apply keptOrCleared_stopBuild. }
  unfold stopCalled. by destruct (stopTimerCommand now inp w) as [[[s|]|e] w1].
Qed.

Lemma keptOrCleared_stopStep ev w : keptOrCleared w (stopStep ev w).
Proof.
  unfold stopStep.
  destruct (stopResumed ev w) as [[k run]|] eqn:Hr; [|by left].
  assert (H : keptOrCleared w (snd (run w))).
  { destruct ev as [j confirm inp|j update|j o now]; cbn in Hr;
      destruct (stopCalls w !! j) as [[d|d pos id|d pos id]|]; try done;
      injection Hr as <- <-.
    - unfold stopConfirmed.
      destruct (negb (isSave confirm)); [by right|].
      apply keptOrCleared_stopBuild.
    - unfold stopUpdated.
      assert (He : keptOrCleared w (snd (stopEnds d id w))).
      { right. by destruct (timerView_stopEnds d id w) as (w' & -> & Hw'). }
      destruct (isYes update); [|done].
      destruct (negb (azureDevOpsAPI w)); [done|by left].
    - unfold stopPushed, bind.
      pose proof (timerView_sync_resume pos o now w) as E.
      destruct (sync_resume_returns pos o now w) as (b & w1 & Hs).
      rewrite Hs in *. cbn in E. right.
      destruct (timerView_stopEnds d id w1) as (w' & -> & Hw').
      unfold timerView in E. injection E as _ _ _ Hl _.
      cbn [snd]. by rewrite Hw', Hl. }
  by destruct (run w) as [[[s|]|e] w1].
Qed.

(** ** The lock and the intervals between operations *)

Ltac unfold_timer :=
  unfold pomodoroStartBreak, pomodoroBreakOver, fireTimerInterval,
    fireInactivityTimer, inactivityCheck, updateActivity, pauseTimerCommand,
    resumeTimerCommand, timerTick, restoreTimerState, startTimer,
    startTimerInterval, startInactivityTimer, clearTimerState, deactivate.

Ltac split_ifs :=
  repeat match goal with
         | |- context [if ?b then _ else _] => destruct b eqn:?
         | |- context [match ?x with _ => _ end] => destruct x eqn:?
         end.

Ltac quiescent_case :=
  split_ifs; split; cbn; try done; try congruence;
  try (intros ?; congruence); try (intros _; auto);
  try match goal with
      | H : _ -> _ /\ _ |- _ =>
        destruct H as [? ?]; [done|]; try intros _; split; congruence
      end.

Lemma quiescent_step op w : quiescent w -> quiescent (step op w).
Proof.
  intros [Hl Hi]. destruct op; cbn.
  - unfold_timer. rewrite Hl.
    destruct (currentTimer w) eqn:Ht; quiescent_case.
  - unfold_timer. destruct (currentTimer w) as [t|] eqn:Ht; quiescent_case.
  - unfold_timer. destruct (currentTimer w) as [t|] eqn:Ht; quiescent_case.
  - unfold_timer. destruct (timerInterval w) eqn:Hti;
      destruct (currentTimer w) as [t|] eqn:Ht; quiescent_case.
  - destruct (keptOrCleared_stopCalled now inp w) as [Hv|Hv];
      unfold timerView in Hv; injection Hv as Hc Hti Hin Hlk _;
      (split; [congruence|]); [rewrite Hc, Hti, Hin; apply Hi|done].
  - destruct (keptOrCleared_stopStep ev w) as [Hv|Hv];
      unfold timerView in Hv; injection Hv as Hc Hti Hin Hlk _;
      (split; [congruence|]); [rewrite Hc, Hti, Hin; apply Hi|done].
  - unfold_timer. destruct (currentTimer w) as [t|] eqn:Ht; quiescent_case.
  - unfold_timer. destruct (inactivityTimer w) eqn:Hin;
      destruct (currentTimer w) as [t|] eqn:Ht; quiescent_case.
  - unfold_timer. cbn.
    destruct (currentTimer w) as [t|] eqn:Ht; quiescent_case.
  - unfold_timer. destruct (currentTimer w) as [t|] eqn:Ht; quiescent_case.
  - unfold_timer. destruct (pomodoroBreakTimeout w);
      destruct (currentTimer w) as [t|] eqn:Ht; quiescent_case.
  - done.
  - done.
  - done.
  - pose proof (timerView_syncStep ev w) as Hv. unfold timerView in Hv.
    injection Hv as Hc Hti Hin Hlk _. split; [congruence|].
    intros H. rewrite Hc in H. destruct (Hi H). split; congruence.
Qed.

Lemma quiescent_reachable w : reachable w -> quiescent w.
Proof.
  induction 1 as [gs cfg now|op w Hr IH]; [done|].
  by apply quiescent_step.
Qed.

(** X1. In every reachable state the start lock is free, and when there is
    no session neither the one-second tick nor the inactivity check is
    armed. *)
Theorem reachable_quiescent w :
  reachable w ->
  timerStartLock w = false
  /\ (currentTimer w = None ->
      timerInterval w = false /\ inactivityTimer w = None).
Proof. apply quiescent_reachable. Qed.

Lemma reachable_quiescent_witness :
  timerStartLock (step (OpStop 1090500 (builtAt 1090500)) startedAt1000s)
  = false
  /\ timerInterval (step (OpStop 1090500 (builtAt 1090500)) startedAt1000s)
     = false
  /\ inactivityTimer (step (OpStop 1090500 (builtAt 1090500)) startedAt1000s)
     = None.
Proof.
  destruct (reachable_quiescent
              (step (OpStop 1090500 (builtAt 1090500)) startedAt1000s))
    as [Hl Hi]; [apply reach_step, reach_step, reach_start|].
  destruct (Hi eq_refl) as [H1 H2].
  split; [exact Hl|]. split; [exact H1 | exact H2].
Defined.

(** X2. In every reachable state without a session, [startTimer] goes
    through: it creates a running session for the work item, starting now
    with zero elapsed seconds, arms the tick, and stores the session. *)
Theorem start_when_idle workItem now w :
  reachable w ->
  currentTimer w = None ->
  let w' := startTimer workItem now w in
  exists t,
    currentTimer w' = Some t
    /\ workItemId t = System_Id workItem
    /\ workItemTitle t = System_Title workItem
    /\ startTime t = now /\ elapsedSeconds t = 0
    /\ isPaused t = false /\ pausedTime t = None
    /\ timerInterval w' = true
    /\ timerStartLock w' = false
    /\ gs_currentTimer (globalState w') = toSaved t
    /\ timeEntries w' = timeEntries w.
Proof.
  intros Hr Ht w'. subst w'.
  destruct (quiescent_reachable w Hr) as [Hl _].
  unfold startTimer. rewrite Hl, Ht. cbn.
  rewrite currentTimer_startInactivityTimer, currentTimer_startTimerInterval.
  rewrite timerInterval_startInactivityTimer.
  unfold startTimerInterval.
  rewrite timerInterval_startInactivityTimer.
  rewrite !globalState_startInactivityTimer. cbn.
  eexists. split; [done|]. cbn. repeat split; try done.
  unfold startInactivityTimer. by split_ifs.
Qed.

Lemma start_when_idle_witness :
  exists t,
    currentTimer
      (startTimer item42 2000000
         (step (OpStop 1090500 (builtAt 1090500)) startedAt1000s)) = Some t
    /\ startTime t = 2000000 /\ elapsedSeconds t = 0.
Proof.
  destruct (start_when_idle item42 2000000
              (step (OpStop 1090500 (builtAt 1090500)) startedAt1000s))
    as (t & Ht & _ & _ & Hs & He & _);
    [apply reach_step, reach_step, reach_start | reflexivity |].
  exists t. split; [exact Ht|]. split; [exact Hs | exact He].
Defined.

(** ** The stored snapshot *)

Ltac split_code :=
  repeat (cbn;
    match goal with
    | |- context [if ?b then _ else _] => destruct b eqn:?
    | |- context [match pausedTime ?t with _ => _ end] =>
      destruct (pausedTime t) eqn:?
    | |- context [match pomodoroCount ?t with _ => _ end] =>
      destruct (pomodoroCount t) eqn:?
    | |- context [match isPomodoro ?t with _ => _ end] =>
      destruct (isPomodoro t) eqn:?
    | |- context [match pausedDueToInactivity ?t with _ => _ end] =>
      destruct (pausedDueToInactivity t) eqn:?
    | |- context [match gs_lastSaveTime ?g with _ => _ end] =>
      destruct (gs_lastSaveTime g) eqn:?
    | |- context [match gs_lastPomodoroNotification ?g with _ => _ end] =>
      destruct (gs_lastPomodoroNotification g) eqn:?
    | |- context [match cfg_timerInactivityTimeout ?c with _ => _ end] =>
      destruct (cfg_timerInactivityTimeout c) eqn:?
    | |- context [match cfg_autoResumeOnActivity ?c with _ => _ end] =>
      destruct (cfg_autoResumeOnActivity c) eqn:?
    end); cbn.

Ltac absurd_pause :=
  try done;
  match goal with
  | H : context [isPaused ?t] |- _ => destruct (isPaused t); cbn in *; done
  end.

Lemma snapshotCurrent_step op w :
  snapshotCurrent w ->
  (forall now, op <> OpRestore now) ->
  snapshotCurrent (step op w).
Proof.
  unfold snapshotCurrent. intros Hs Hop. destruct op; cbn.
  - unfold_timer. destruct (currentTimer w) eqn:Ht; split_code; rewrite ?Ht; absurd_pause.
  - unfold_timer. destruct (currentTimer w) eqn:Ht; split_code; rewrite ?Ht; absurd_pause.
  - unfold_timer. destruct (currentTimer w) eqn:Ht; split_code; rewrite ?Ht; absurd_pause.
  - unfold_timer. destruct (timerInterval w);
      destruct (currentTimer w) eqn:Ht; split_code; rewrite ?Ht; absurd_pause.
  - destruct (keptOrCleared_stopCalled now inp w) as [Hv|Hv];
      unfold timerView in Hv; injection Hv as -> _ _ _ ->; done.
  - destruct (keptOrCleared_stopStep ev w) as [Hv|Hv];
      unfold timerView in Hv; injection Hv as -> _ _ _ ->; done.
  - by destruct (Hop now).
  - unfold_timer. destruct (inactivityTimer w);
      destruct (currentTimer w) eqn:Ht; split_code; rewrite ?Ht; absurd_pause.
  - unfold_timer. cbn.
    destruct (currentTimer w) eqn:Ht; split_code; rewrite ?Ht; absurd_pause.
  - unfold_timer. destruct (currentTimer w) eqn:Ht; split_code; rewrite ?Ht; absurd_pause.
  - unfold_timer. destruct (pomodoroBreakTimeout w);
      destruct (currentTimer w) eqn:Ht; split_code; rewrite ?Ht; absurd_pause.
  - done.
  - done.
  - done.
  - pose proof (timerView_syncStep ev w) as Hv. unfold timerView in Hv.
    injection Hv as -> _ _ _ ->. done.
Qed.

(** X3. Every operation other than [restoreTimerState] keeps the store in
    line with memory: if before it the [currentTimer] key held the live
    session (or nothing, without one), so it does afterwards. Hence, from a
    process start on an empty store and with no restore in the run, a crash
    at any point finds the session exactly as it was in memory. *)
Theorem snapshot_kept ops gs cfg now :
  gs_currentTimer gs = StoredPrim JUndefined ->
  Forall (fun op => forall n, op <> OpRestore n) ops ->
  snapshotCurrent (foldl (fun w op => step op w) (processStart gs cfg now) ops).
Proof.
  intros Hgs Hops.
  assert (H0 : snapshotCurrent (processStart gs cfg now)) by done.
  revert H0. generalize (processStart gs cfg now).
  induction Hops as [|op ops Hop Hops IH]; intros w Hw; cbn; [done|].
  apply IH. by apply snapshotCurrent_step.
Qed.

Lemma snapshot_kept_witness :
  snapshotCurrent
    (foldl (fun w op => step op w) (processStart emptyStore unsetConfig 999000)
       [OpStart item42 1000000; OpTick 1001000; OpPause 1090000]).
Proof.
  apply (snapshot_kept
           [OpStart item42 1000000; OpTick 1001000; OpPause 1090000]
           emptyStore unsetConfig 999000); [reflexivity|].
  repeat (apply Forall_cons; split; [discriminate|]). apply Forall_nil.
  exact I.
Defined.

(** ** Across a restart *)

Lemma elapsedBounded_reachable w : reachable w -> elapsedBounded w.
Proof.
  induction 1 as [gs cfg now|op w Hr IH]; [done|].
  destruct op; cbn.
  - by apply elapsedBounded_startTimer.
  - by apply elapsedBounded_pause.
  - by apply elapsedBounded_resume.
  - unfold fireTimerInterval. destruct (timerInterval w); [|done].
    by apply elapsedBounded_tick.
  - intros t.
    destruct (currentTimer_stopCalled now inp w) as [-> | ->]; [apply IH|done].
  - intros t.
    destruct (currentTimer_stopStep ev w) as [-> | ->]; [apply IH|done].
  - by apply elapsedBounded_restore.
  - unfold fireInactivityTimer. destruct (inactivityTimer w); [|done].
    by apply elapsedBounded_inactivityCheck.
  - by apply elapsedBounded_updateActivity.
  - unfold pomodoroStartBreak. intros t. cbn.
    by apply elapsedBounded_pause.
  - unfold pomodoroBreakOver. destruct (pomodoroBreakTimeout w); [|done].
    by apply elapsedBounded_resume.
  - done.
  - done.
  - done.
  - intros t. rewrite currentTimer_syncStep. apply IH.
Qed.

(** A session with a positive item id, a positive start and a bounded
    elapsed time is stored as a snapshot that passes validation and reads
    back as itself. *)
Lemma toSaved_valid t :
  0 < workItemId t -> 0 < startTime t -> 0 <= elapsedSeconds t <= 86400 ->
  isValidTimerState (toSaved t) = true /\ fromSaved (toSaved t) = Some t.
Proof.
  intros Hw Hs He. unfold isValidTimerState, toSaved. cbn.
  split; [|by destruct t].
  repeat (apply andb_true_intro; split); try done; lia.
Qed.

(** X4. Shutting down and starting again gives a paused session back
    exactly: after [deactivate] and a new process over the same store,
    [restoreTimerState] recreates the session field for field (given a
    positive work item id and start time), re-arms the tick, and the ledger
    is loaded from the store. *)
Theorem restart_restores_paused w t cfg now :
  reachable w ->
  currentTimer w = Some t ->
  isPaused t = true ->
  0 < workItemId t -> 0 < startTime t ->
  let w' := activate (globalState (deactivate w)) cfg now in
  currentTimer w' = Some t
  /\ timerInterval w' = true
  /\ gs_currentTimer (globalState w') = toSaved t
  /\ timeEntries w' = gs_timeEntries (globalState w).
Proof.
  intros Hr Ht Hp Hid Hst w'. subst w'.
  pose proof (elapsedBounded_reachable w Hr t Ht) as He.
  destruct (toSaved_valid t Hid Hst He) as [Hv Hf].
  unfold activate, loadTimeEntries, deactivate, restoreTimerState.
  rewrite Ht. cbn. change (stored_truthy (toSaved t)) with true.
  cbn. rewrite Hv, Hf, Hp. cbn.
  rewrite currentTimer_startTimerInterval. unfold startTimerInterval.
  rewrite timerInterval_startInactivityTimer,
    !globalState_startInactivityTimer. done.
Qed.

Lemma restart_restores_paused_witness :
  (isPaused <$> currentTimer
     (activate (globalState (deactivate (step (OpPause 1090000) startedAt1000s)))
        unsetConfig 5000000)) = Some true
  /\ (elapsedSeconds <$> currentTimer
        (activate
           (globalState (deactivate (step (OpPause 1090000) startedAt1000s)))
           unsetConfig 5000000)) = Some 90.
Proof.
  destruct (restart_restores_paused (step (OpPause 1090000) startedAt1000s)
              {| workItemId := 42; workItemTitle := "Fix bug";
                 startTime := 1000000; pausedTime := Some 1090000;
                 elapsedSeconds := 90; isPaused := true;
                 isPomodoro := None; pomodoroCount := Some 0;
                 pausedDueToInactivity := None |} unsetConfig 5000000)
    as (H & _);
    [apply reach_step, reach_step, reach_start | reflexivity | reflexivity
    | reflexivity | reflexivity |].
  rewrite H. split; reflexivity.
Defined.

(** X5. A running session survives a restart without losing tracked time:
    [restoreTimerState] keeps the item, adds to [elapsedSeconds] the whole
    seconds since the stored [lastSaveTime] (at most one hour, nothing when
    that marker is missing or not positive), caps the result at 86400, and
    moves [startTime] so that a tick at the same instant computes the same
    [elapsedSeconds]. *)
Theorem restart_restores_running w t cfg now :
  reachable w ->
  currentTimer w = Some t ->
  isPaused t = false ->
  0 < workItemId t -> 0 < startTime t ->
  let w' := activate (globalState (deactivate w)) cfg now in
  exists t',
    currentTimer w' = Some t'
    /\ workItemId t' = workItemId t /\ workItemTitle t' = workItemTitle t
    /\ isPaused t' = false
    /\ isPomodoro t' = isPomodoro t /\ pomodoroCount t' = pomodoroCount t
    /\ elapsedSeconds t'
       = match gs_lastSaveTime (globalState w) with
         | Some l =>
           if 0 <? l then
             Z.min (elapsedSeconds t
                    + Z.min (Z.max 0 (now - l)) 3600000 / 1000) 86400
           else elapsedSeconds t
         | None => elapsedSeconds t
         end
    /\ elapsedSeconds t <= elapsedSeconds t'
       <= Z.min (elapsedSeconds t + 3600) 86400
    /\ startTime t' = now - elapsedSeconds t' * 1000
    /\ elapsedOf (fireTimerInterval now w') = elapsedSeconds t'.
Proof.
  intros Hr Ht Hp Hid Hst w'. subst w'.
  pose proof (elapsedBounded_reachable w Hr t Ht) as He.
  destruct (toSaved_valid t Hid Hst He) as [Hv Hf].
  set (e' := match gs_lastSaveTime (globalState w) with
             | Some l =>
               if 0 <? l then
                 Z.min (elapsedSeconds t
                        + Z.min (Z.max 0 (now - l)) 3600000 / 1000) 86400
               else elapsedSeconds t
             | None => elapsedSeconds t
             end).
  assert (Hb : elapsedSeconds t <= e'
               <= Z.min (elapsedSeconds t + 3600) 86400).
  { subst e'. destruct (gs_lastSaveTime _) as [l|]; [|lia].
    destruct (0 <? l); [|lia].
    assert (0 <= Z.min (Z.max 0 (now - l)) 3600000 / 1000 <= 3600).
    { split; [apply Z.div_pos; lia|].
      apply Z.div_le_upper_bound; lia. }
    lia. }
  unfold activate, loadTimeEntries, deactivate, restoreTimerState.
  rewrite Ht. cbn. change (stored_truthy (toSaved t)) with true.
  cbn. rewrite Hv, Hf, Hp. cbn.
  unfold fireTimerInterval, timerTick, elapsedOf. cbn.
  rewrite !currentTimer_startTimerInterval.
  unfold startTimerInterval at 1.
  rewrite timerInterval_startInactivityTimer. cbn.
  change (60 * 60 * 1000) with 3600000.
  assert (Hfloor : forall e, 0 <= e <= 86400 ->
            Z.max 0 (Z.min ((now - (now - e * 1000)) / 1000) 86400) = e).
  { intros e Hre. replace (now - (now - e * 1000)) with (e * 1000) by lia.
    rewrite Z.div_mul by lia. lia. }
  destruct (gs_lastSaveTime (globalState w)) as [l|] eqn:Hl;
    [destruct (0 <? l) eqn:Hpos|]; cbn; rewrite Hp; cbn;
    eexists; (split; [done|]); cbn; subst e'; cbn in Hb;
    rewrite ?Hpos in Hb;
    repeat split; try done; try lia;
    split_code; rewrite ?Hfloor by lia; done.
Qed.

Lemma restart_restores_running_witness :
  exists t',
    currentTimer
      (activate
         (globalState
            (deactivate
               (step (OpTick 1100000)
                  (step (OpResume 1060000)
                     (step (OpPause 1050000) startedAt1000s)))))
         unsetConfig 1200000) = Some t'
    /\ elapsedSeconds t' = 240.
Proof.
  destruct (restart_restores_running
              (step (OpTick 1100000)
                 (step (OpResume 1060000)
                    (step (OpPause 1050000) startedAt1000s)))
              {| workItemId := 42; workItemTitle := "Fix bug";
                 startTime := 1010000; pausedTime := None;
                 elapsedSeconds := 90; isPaused := false;
                 isPomodoro := None; pomodoroCount := Some 0;
                 pausedDueToInactivity := None |} unsetConfig 1200000)
    as (t' & Ht & _ & _ & _ & _ & _ & He & _);
    [apply reach_step, reach_step, reach_step, reach_step, reach_start
    | reflexivity | reflexivity | reflexivity | reflexivity |].
  exists t'. split; [exact Ht | exact He].
Defined.

(** ** Elapsed time along a session *)

Lemma clamp_mono a b :
  a <= b ->
  Z.max 0 (Z.min (a / 1000) 86400) <= Z.max 0 (Z.min (b / 1000) 86400).
Proof. intros H. pose proof (Z.div_le_mono a b 1000). lia. Qed.

Lemma accountedUntil_later now n t :
  now <= n -> accountedUntil now t <= now ->
  accountedUntil now t <= accountedUntil n t <= n.
Proof.
  unfold accountedUntil. intros Hn Ha.
  destruct (isPaused t); [|lia].
  destruct (pausedTime t) as [p|]; [|lia].
  destruct (0 <? p); lia.
Qed.

Lemma inStep_later now n w : inStep now w -> now <= n -> inStep n w.
Proof.
  intros H Hn t Ht. destruct (H t Ht) as [Ha He].
  pose proof (accountedUntil_later now n t Hn Ha) as [H1 H2].
  split; [done|]. etrans; [exact He|]. apply clamp_mono. lia.
Qed.

Lemma advances_refl now n w : advances now n w w.
Proof. intros H Hn. split; [by eapply inStep_later|done]. Qed.

Lemma advances_pause now n w : advances now n w (pauseTimerCommand n w).
Proof.
  unfold pauseTimerCommand.
  destruct (currentTimer w) as [t|] eqn:Ht; [|apply advances_refl].
  destruct (isPaused t) eqn:Hp; [apply advances_refl|].
  intros H Hn. destruct (H t Ht) as [Ha He].
  unfold accountedUntil in Ha, He. rewrite Hp in Ha, He.
  split.
  - intros t'. cbn. intros [= <-]. unfold accountedUntil. cbn.
    split; [by destruct (0 <? n)|].
    replace (if 0 <? n then n else n) with n by (by destruct (0 <? n)).
    done.
  - unfold elapsedOf. rewrite Ht. cbn.
    etrans; [exact He|]. apply clamp_mono. lia.
Qed.

Lemma advances_resume auto now n w :
  advances now n w (resumeTimerCommand auto n w).
Proof.
  unfold resumeTimerCommand.
  destruct (currentTimer w) as [t|] eqn:Ht; [|apply advances_refl].
  destruct (isPaused t) eqn:Hp; [|apply advances_refl]. cbn.
  intros H Hn. destruct (H t Ht) as [Ha He].
  unfold accountedUntil in Ha, He. rewrite Hp in Ha, He.
  split.
  - intros t'. rewrite currentTimer_startTimerInterval. cbn.
    intros [= <-]. unfold accountedUntil. cbn. split; [done|].
    destruct (pausedTime t) as [p|]; [destruct (0 <? p) eqn:Hpos|]; cbn.
    + etrans; [exact He|]. apply clamp_mono. lia.
    + etrans; [exact He|]. apply clamp_mono. lia.
    + etrans; [exact He|]. apply clamp_mono. lia.
  - unfold elapsedOf. rewrite currentTimer_startTimerInterval, Ht. cbn.
    destruct (pausedTime t) as [p|]; [destruct (0 <? p)|]; done.
Qed.

Lemma advances_tick now n w : advances now n w (timerTick n w).
Proof.
  unfold timerTick.
  destruct (currentTimer w) as [t|] eqn:Ht; [|apply advances_refl].
  destruct (isPaused t) eqn:Hp; [apply advances_refl|].
  intros H Hn. destruct (H t Ht) as [Ha He].
  unfold accountedUntil in Ha, He. rewrite Hp in Ha, He.
  assert (Hm : elapsedSeconds t
               <= Z.max 0 (Z.min ((n - startTime t) / 1000) 86400)).
  { etrans; [exact He|]. apply clamp_mono. lia. }
  split.
  - intros t'. split_code; intros [= <-]; unfold accountedUntil; cbn;
      rewrite Hp; done.
  - unfold elapsedOf. rewrite Ht. split_code; done.
Qed.

(** Setting or clearing the inactivity flag changes nothing for the clock. *)
Lemma inStep_flag now w t v :
  currentTimer w = Some t -> inStep now w ->
  inStep now (set_currentTimer (Some (with_pausedDueToInactivity v t)) w).
Proof.
  intros Ht H t'. cbn. intros [= <-]. apply (H t Ht).
Qed.

Lemma advances_sessionOp now op w :
  advances now (sessionOpTime op) w (step (sessionOp op) w).
Proof.
  destruct op as [n|n|n|n|n|n|n]; cbn.
  - apply advances_pause.
  - apply advances_resume.
  - unfold fireTimerInterval. destruct (timerInterval w);
      [apply advances_tick|apply advances_refl].
  - unfold fireInactivityTimer, inactivityCheck.
    destruct (inactivityTimer w); [|apply advances_refl].
    destruct (currentTimer w) as [t|] eqn:Ht; [|apply advances_refl].
    destruct (isPaused t); [apply advances_refl|].
    destruct (_ <=? _); [|apply advances_refl].
    intros H Hn.
    destruct (advances_pause now n
                (set_currentTimer
                   (Some (with_pausedDueToInactivity (Some true) t)) w))
      as [H1 H2]; [by apply inStep_flag|done|].
    split; [done|]. unfold elapsedOf in *. rewrite Ht. exact H2.
  - unfold updateActivity.
    change (currentTimer (set_lastActivity n w)) with (currentTimer w).
    destruct (currentTimer w) as [t|] eqn:Ht;
      [|intros H Hn; split; [by eapply inStep_later|by unfold elapsedOf; cbn; rewrite Ht]].
    assert (Hid : advances now n w (set_lastActivity n w)).
    { intros H Hn. split; [by eapply inStep_later|done]. }
    destruct (_ && _); [|done].
    destruct (_ <? _); [done|].
    destruct (get_bool _ _); [|done].
    intros H Hn.
    destruct (advances_resume true now n
                (set_currentTimer
                   (Some (with_pausedDueToInactivity (Some false) t))
                   (set_lastActivityResumeTime n (set_lastActivity n w))))
      as [H1 H2]; [|done|].
    { intros t'. cbn. intros [= <-]. apply (H t Ht). }
    split; [done|]. unfold elapsedOf in *. rewrite Ht. exact H2.
  - unfold pomodoroStartBreak. intros H Hn.
    destruct (advances_pause now n w H Hn) as [H1 H2]. split; [|done].
    intros t'. cbn. apply H1.
  - unfold pomodoroBreakOver. destruct (pomodoroBreakTimeout w);
      [apply advances_resume|apply advances_refl].
Qed.

Lemma inStep_run now ops w :
  inStep now w -> clockMonotone now ops ->
  elapsedOf w <= elapsedOf (sessionRun ops w)
  /\ exists n, inStep n (sessionRun ops w)
               /\ forall ops', clockMonotone now (ops ++ ops') ->
                               clockMonotone n ops'.
Proof.
  revert now w. induction ops as [|op ops IH]; intros now w H Hc; cbn.
  - split; [done|]. exists now. done.
  - destruct Hc as [Hn Hc].
    destruct (advances_sessionOp now op w H Hn) as [H1 H2].
    destruct (IH _ _ H1 Hc) as [H3 (n & H4 & H5)].
    split; [etrans; [exact H2|exact H3]|]. exists n. split; [done|].
    intros ops' [_ Hc']. by apply H5.
Qed.

(** X6. With a clock that never goes back, [elapsedSeconds] never goes
    down: across any run of pauses, resumes, ticks, inactivity checks,
    activity signals and Pomodoro breaks on a session that is in step with
    its clock (as every freshly started session is), the elapsed time at a
    later point of the run is at least the elapsed time at an earlier
    one. *)
Theorem elapsed_never_decreases now w ops1 ops2 :
  inStep now w ->
  clockMonotone now (ops1 ++ ops2) ->
  elapsedOf (sessionRun ops1 w) <= elapsedOf (sessionRun (ops1 ++ ops2) w).
Proof.
  intros H Hc.
  assert (Hc1 : clockMonotone now ops1).
  { clear H. revert now Hc. induction ops1 as [|op ops1 IH]; intros now Hc;
      cbn in *; [done|]. destruct Hc. split; [done|]. by apply IH. }
  destruct (inStep_run now ops1 w H Hc1) as [_ (n & Hn & Hrest)].
  unfold sessionRun. rewrite foldl_app.
  apply (inStep_run n ops2 _ Hn). by apply Hrest.
Qed.

(** A successful start puts the session in step with the clock. *)
Lemma inStep_start workItem now w :
  timerStartLock w = false -> currentTimer w = None ->
  inStep now (startTimer workItem now w).
Proof.
  intros Hl Ht t. unfold startTimer. rewrite Hl, Ht. cbn.
  rewrite currentTimer_startInactivityTimer, currentTimer_startTimerInterval.
  cbn. intros [= <-]. unfold accountedUntil. cbn.
  split; [done|]. replace (now - now) with 0 by lia. done.
Qed.

Lemma elapsed_never_decreases_witness :
  elapsedOf (sessionRun [STick 1090000; SPause 1100000] startedAt1000s)
  <= elapsedOf
       (sessionRun
          ([STick 1090000; SPause 1100000]
             ++ [SResume 99000000; STick 99030000]) startedAt1000s).
Proof.
  apply (elapsed_never_decreases 1000000 startedAt1000s).
  - apply inStep_start; reflexivity.
  - cbn. lia.
Defined.



(** ** The ledger *)

Lemma entryKept_refl e : entryKept e e.
Proof. by repeat split. Qed.

Lemma entryKept_trans e1 e2 e3 :
  entryKept e1 e2 -> entryKept e2 e3 -> entryKept e1 e3.
Proof.
  intros ((?&?&?&?&?)&?&?&?) ((?&?&?&?&?)&?&?&?).
  repeat split; try congruence. auto.
Qed.

Lemma ledgerGrows_refl l : ledgerGrows l l.
Proof.
  exists l, []. rewrite app_nil_r. split; [done|].
  apply Forall2_same_length_lookup. split; [done|].
  intros i e1 e2 H1 H2. rewrite H1 in H2. injection H2 as <-.
  apply entryKept_refl.
Qed.

Lemma ledgerGrows_trans l1 l2 l3 :
  ledgerGrows l1 l2 -> ledgerGrows l2 l3 -> ledgerGrows l1 l3.
Proof.
  intros (k1 & a1 & -> & H1) (k2 & a2 & -> & H2).
  apply Forall2_app_inv_l in H2 as (k1' & a1' & Hk & Ha & ->).
  exists k1', (a1' ++ a2). split; [by rewrite app_assoc|].
  eapply Forall2_trans; [|exact H1|exact Hk].
  apply entryKept_trans.
Qed.

Lemma ledgerGrows_append l e : ledgerGrows l (l ++ [e]).
Proof.
  exists l, [e]. split; [done|].
  apply Forall2_same_length_lookup. split; [done|].
  intros i e1 e2 H1 H2. rewrite H1 in H2. injection H2 as <-.
  apply entryKept_refl.
Qed.

Lemma ledgerGrows_alter f i l :
  (forall e, entryKept e (f e)) -> ledgerGrows l (alter f i l).
Proof.
  intros Hf. exists (alter f i l), []. rewrite app_nil_r. split; [done|].
  apply Forall2_same_length_lookup. split; [by rewrite length_alter|].
  intros j e1 e2 H1 H2.
  destruct (decide (i = j)) as [->|Hne].
  - rewrite list_lookup_alter_eq, H1 in H2. injection H2 as <-. apply Hf.
  - rewrite list_lookup_alter_ne, H1 in H2 by done. injection H2 as <-.
    apply entryKept_refl.
Qed.

Lemma ledgerGrows_lookup l1 l2 i e :
  ledgerGrows l1 l2 -> l1 !! i = Some e ->
  exists e', l2 !! i = Some e' /\ entryKept e e'.
Proof.
  intros (k & a & -> & Hk) Hi.
  destruct (Forall2_lookup_l _ _ _ _ _ Hk Hi) as (e' & He' & Hke).
  exists e'. split; [|done]. by apply lookup_app_l_Some.
Qed.

Lemma entryKept_markSynced e : entryKept e (markSynced e).
Proof. by repeat split. Qed.

Lemma entryKept_withSyncError m e : entryKept e (withSyncError m e).
Proof. by repeat split. Qed.

(** The timer operations never touch the ledger, in memory or stored. *)
Lemma ledgerView_timer_op op w :
  match op with
  | OpStop _ _ | OpStopResume _ | OpLoadEntries | OpSync _ => True
  | _ => ledgerView (step op w) = ledgerView w
  end.
Proof.
  destruct op; cbn; try done; unfold_timer.
  - destruct (currentTimer w) eqn:Ht; split_code; done.
  - destruct (currentTimer w) eqn:Ht; split_code; done.
  - destruct (currentTimer w) eqn:Ht; split_code; done.
  - destruct (timerInterval w); destruct (currentTimer w) eqn:Ht;
      split_code; done.
  - destruct (currentTimer w) eqn:Ht; split_code; try done;
      destruct (fromSaved _); split_code; done.
  - destruct (inactivityTimer w); destruct (currentTimer w) eqn:Ht;
      split_code; done.
  - cbn. destruct (currentTimer w) eqn:Ht; split_code; done.
  - destruct (currentTimer w) eqn:Ht; split_code; done.
  - destruct (pomodoroBreakTimeout w); destruct (currentTimer w) eqn:Ht;
      split_code; done.
Qed.

Lemma ledger_sync_resume i o now w :
  let w' := snd (syncTimeEntryToAzure_resume i o now w) in
  ledgerGrows (timeEntries w) (timeEntries w') /\ ledgerSaved w'.
Proof.
  unfold_async. unfold mutateEntry, ledgerSaved.
  destruct o; cbn; (split; [|done]); apply ledgerGrows_alter; intros e.
  - apply entryKept_markSynced.
  - apply entryKept_withSyncError.
Qed.

Lemma ledgerView_syncLoop rest n w :
  ledgerView (fst (syncLoop rest n w)) = ledgerView w.
Proof.
  revert n w. induction rest as [|i rest IH]; intros n w; cbn; [done|].
  repeat break_if; cbn; auto.
Qed.

Lemma ledgerView_syncPending w :
  ledgerView (syncPendingTimeEntries w) = ledgerView w.
Proof.
  unfold syncPendingTimeEntries.
  destruct (negb (azureDevOpsAPI w)); [done|].
  destruct (isSyncingTimeEntries w); [done|].
  destruct (pendingFrom 0 (timeEntries w)) as [|i rest]; [done|].
  pose proof (ledgerView_syncLoop (i :: rest) 0
                (set_isSyncingTimeEntries true w)) as E.
  destruct (syncLoop _ _ _) as [w2 [p|]]; cbn in *; done.
Qed.

Lemma ledger_syncStep ev w :
  ledgerGrows (timeEntries w) (timeEntries (syncStep ev w))
  /\ (ledgerSaved w -> ledgerSaved (syncStep ev w)).
Proof.
  unfold ledgerSaved. destruct ev as [|k o now|k|e now]; cbn.
  - pose proof (ledgerView_syncPending w) as E. unfold ledgerView in E.
    injection E as -> ->. split; [apply ledgerGrows_refl|done].
  - unfold remoteDone.
    destruct (syncPasses w !! k) as [[i rest n|rest n]|];
      try (split; [apply ledgerGrows_refl|done]).
    pose proof (ledger_sync_resume i o now w) as [E1 E2].
    destruct (syncTimeEntryToAzure_resume i o now w) as [[b|e] w1];
      cbn in *; done.
  - unfold wake.
    destruct (syncPasses w !! k) as [[i rest n|rest n]|];
      try (split; [apply ledgerGrows_refl|done]).
    pose proof (ledgerView_syncLoop rest n w) as E. unfold ledgerView in E.
    destruct (syncLoop rest n w) as [w1 [p|]]; cbn in *;
      injection E as -> ->; (split; [apply ledgerGrows_refl|done]).
  - split; [apply ledgerGrows_append|done].
Qed.

Lemma ledgerView_stopEnds duration timeEntryId w :
  exists w', stopEnds duration timeEntryId w = (Normal None, w')
             /\ ledgerView w' = ledgerView w.
Proof.
  unfold stopEnds, stopAftermath, bind, modify, ret. cbn.
  eexists. split; [done|].
  break_if; [rewrite ledgerView_syncPending|]; done.
Qed.

Lemma ledgerStep_view w w' : ledgerView w' = ledgerView w -> ledgerStep w w'.
Proof.
  intros E. unfold ledgerView in E. injection E as E1 E2.
  unfold ledgerStep, ledgerSaved. rewrite E1, E2.
  split; [apply ledgerGrows_refl|done].
Qed.

Lemma ledgerStep_trans w1 w2 w3 :
  ledgerStep w1 w2 -> ledgerStep w2 w3 -> ledgerStep w1 w3.
Proof.
  intros [G1 S1] [G2 S2]. split; [by eapply ledgerGrows_trans|auto].
Qed.

Lemma ledgerStep_stopEnds duration timeEntryId w :
  ledgerStep w (snd (stopEnds duration timeEntryId w)).
Proof.
  destruct (ledgerView_stopEnds duration timeEntryId w) as (w' & -> & E).
  by apply ledgerStep_view.
Qed.

Lemma ledgerStep_stopBuild duration inp w :
  ledgerStep w (snd (stopBuild duration inp w)).
Proof.
  unfold stopBuild.
  destruct (currentTimer w) as [t|]; [|by apply ledgerStep_view].
  set (w0 := appendTimeEntry _ _ w).
  assert (H0 : ledgerStep w w0) by (split; [apply ledgerGrows_append|done]).
  destruct (azureDevOpsAPI w0); [done|].
  eapply ledgerStep_trans; [exact H0|apply ledgerStep_stopEnds].
Qed.

Lemma ledgerStep_pool w w' calls :
  ledgerStep w w' -> ledgerStep w (set_stopCalls calls w').
Proof. done. Qed.

Lemma ledger_stopCalled now inp w : ledgerStep w (stopCalled now inp w).
Proof.
  assert (H : ledgerStep w (snd (stopTimerCommand now inp w))).
  { unfold stopTimerCommand.
    destruct (currentTimer w) as [t|]; [|by apply ledgerStep_view].
    destruct (_ <? 60); [by apply ledgerStep_view|].
    apply ledgerStep_stopBuild. }
  unfold stopCalled. by destruct (stopTimerCommand now inp w) as [[[s|]|e] w1].
Qed.

Lemma ledger_stopStep ev w : ledgerStep w (stopStep ev w).
Proof.
  unfold stopStep.
  destruct (stopResumed ev w) as [[k run]|] eqn:Hr;
    [|by apply ledgerStep_view].
  assert (H : ledgerStep w (snd (run w))).
  { destruct ev as [j confirm inp|j update|j o now]; cbn in Hr;
      destruct (stopCalls w !! j) as [[d|d pos id|d pos id]|]; try done;
      injection Hr as <- <-.
    - unfold stopConfirmed.
      destruct (negb (isSave confirm)); [by apply ledgerStep_view|].
      apply ledgerStep_stopBuild.
    - unfold stopUpdated.
      destruct (isYes update); [|apply ledgerStep_stopEnds].
      destruct (negb (azureDevOpsAPI w));
        [apply ledgerStep_stopEnds|by apply ledgerStep_view].
    - unfold stopPushed, bind.
      pose proof (ledger_sync_resume pos o now w) as [E1 E2].
      destruct (sync_resume_returns pos o now w) as (b & w1 & Hs).
      rewrite Hs in *. cbn in E1, E2.
      eapply ledgerStep_trans; [|apply ledgerStep_stopEnds].
      by split. }
  by destruct (run w) as [[[s|]|e] w1].
Qed.

Lemma ledger_step op w :
  op <> OpLoadEntries ->
  ledgerGrows (timeEntries w) (timeEntries (step op w))
  /\ (ledgerSaved w -> ledgerSaved (step op w)).
Proof.
  intros Hop. pose proof (ledgerView_timer_op op w) as Hv.
  destruct op; try done;
    try (cbv beta iota in Hv;
         pose proof (f_equal fst Hv) as E1; pose proof (f_equal snd Hv) as E2;
         unfold ledgerView in E1, E2; cbn [fst snd] in E1, E2;
         unfold ledgerSaved; rewrite E1, E2;
         split; [apply ledgerGrows_refl|done]).
  - apply ledger_stopCalled.
  - apply ledger_stopStep.
  - apply ledger_syncStep.
Qed.

(** X8. The ledger only grows. Over any run of operations other than
    [loadTimeEntries], every entry of the ledger stays at its position with
    its id, work item, times, duration and device, and once synced it stays
    synced; and the ledger never gets shorter. *)
Theorem ledger_append_only ops w i e :
  Forall (fun op => op <> OpLoadEntries) ops ->
  timeEntries w !! i = Some e ->
  let w' := foldl (fun w op => step op w) w ops in
  (length (timeEntries w) <= length (timeEntries w'))%nat
  /\ exists e', timeEntries w' !! i = Some e' /\ entryKept e e'.
Proof.
  intros Hops Hi w'.
  assert (Hg : ledgerGrows (timeEntries w) (timeEntries w')).
  { subst w'. clear Hi. revert w.
    induction Hops as [|op ops Hop Hops IH]; intros w; cbn;
      [apply ledgerGrows_refl|].
    eapply ledgerGrows_trans; [apply (ledger_step op w Hop)|apply IH]. }
  split; [|by eapply ledgerGrows_lookup].
  destruct Hg as (k & a & -> & Hk).
  rewrite length_app, (Forall2_length _ _ _ Hk). lia.
Qed.

Lemma ledger_append_only_witness :
  exists e',
    timeEntries
      (foldl (fun w op => step op w) (connectedWith [pendingEntry])
         [OpStart item42 1000000; OpStop 1090500 (builtAt 1090500);
          OpStopResume (EvUpdate 0 (Some No));
          OpSync (EvRemoteDone 0 (Rejected None) 1091000)]) !! 0%nat
    = Some e'
    /\ entryKept pendingEntry e'.
Proof.
  apply (ledger_append_only
           [OpStart item42 1000000; OpStop 1090500 (builtAt 1090500);
            OpStopResume (EvUpdate 0 (Some No));
            OpSync (EvRemoteDone 0 (Rejected None) 1091000)]
           (connectedWith [pendingEntry]) 0%nat pendingEntry);
    [|reflexivity].
  repeat (apply Forall_cons; split; [discriminate|]). by apply Forall_nil.
Defined.

(** X9. What is in memory is what is stored: once the ledger has been
    loaded, after any run of operations the [timeEntries] key of the store
    holds exactly the ledger in memory. *)
Theorem ledger_always_saved ops w :
  let w' := foldl (fun w op => step op w) (loadTimeEntries w) ops in
  gs_timeEntries (globalState w') = timeEntries w'.
Proof.
  cbn. assert (H0 : ledgerSaved (loadTimeEntries w)) by done.
  revert H0. generalize (loadTimeEntries w). clear w.
  induction ops as [|op ops IH]; intros w Hw; cbn; [done|].
  apply IH. destruct op; try (by apply ledger_step). done.
Qed.

(** ** A pass, from its start to its end *)

Lemma settleAll_length l calls : length (settleAll l calls) = length l.
Proof.
  revert l. induction calls as [|c calls IH]; intros l; cbn; [done|].
  unfold settleAll in IH. by rewrite IH, length_alter.
Qed.

Lemma settleAll_lookup_other l calls i :
  i ∉ calls.*1 -> settleAll l calls !! i = l !! i.
Proof.
  revert l. induction calls as [|[j o] calls IH]; intros l Hi; cbn; [done|].
  cbn in Hi. apply not_elem_of_cons in Hi as [Hne Hi].
  unfold settleAll in IH. rewrite IH by done.
  by apply list_lookup_alter_ne.
Qed.

Lemma settleAll_lookup l calls k i o e :
  NoDup calls.*1 -> calls !! k = Some (i, o) -> l !! i = Some e ->
  settleAll l calls !! i = Some (settle o e).
Proof.
  revert l k. induction calls as [|[j o'] calls IH]; intros l k Hnd Hk Hi;
    [done|].
  cbn in Hnd. apply NoDup_cons in Hnd as [Hj Hnd].
  destruct k as [|k]; cbn in Hk.
  - injection Hk as -> ->. cbn.
    change (foldl _ ?l0 calls) with (settleAll l0 calls).
    rewrite settleAll_lookup_other by done.
    by rewrite list_lookup_alter_eq, Hi.
  - cbn. change (foldl _ ?l0 calls) with (settleAll l0 calls).
    apply (IH _ k Hnd Hk).
    rewrite list_lookup_alter_ne; [done|].
    intros ->. apply Hj. apply list_elem_of_fmap.
    exists (i, o). split; [done|]. by eapply list_elem_of_lookup_2.
Qed.

Lemma sync_resume_settles i o now w :
  syncTimeEntryToAzure_resume i o now w
  = (Normal (match o with Resolved => true | Rejected _ => false end),
     saveTimeEntries now (mutateEntry (settle o) i w)).
Proof. unfold_async. by destruct o. Qed.

(** From the middle of a pass to its end. *)
Lemma pass_from_awaiting now rest :
  forall i cnt w o outcomes,
    syncPasses w = [AwaitingRemote i rest cnt] ->
    isSyncingTimeEntries w = true ->
    azureDevOpsAPI w = true ->
    NoDup (i :: rest) ->
    (forall j, j ∈ rest ->
       exists e, timeEntries w !! j = Some e /\ entry_synced e = false) ->
    length outcomes = length rest ->
    let w' := foldl (passRound now) w (o :: outcomes) in
    remoteLog w' = remoteLog w ++ rest
    /\ isSyncingTimeEntries w' = false
    /\ syncPasses w' = []
    /\ timeEntries w'
       = settleAll (timeEntries w) (zip (i :: rest) (o :: outcomes)).
Proof.
  induction rest as [|j rest IH];
    intros i cnt w o outcomes Hp Hf Ha Hnd Hun Hlen; cbn.
  - destruct outcomes; [|done]. cbn.
    unfold passRound, remoteDone. rewrite Hp. cbn.
    rewrite sync_resume_settles. cbn. unfold wake. cbn.
    rewrite Hp. cbn. by rewrite app_nil_r.
  - destruct outcomes as [|o' outcomes]; [done|].
    cbn in Hlen. injection Hlen as Hlen.
    apply NoDup_cons in Hnd as [Hi Hnd].
    destruct (Hun j) as (e & He & Hs); [by left|].
    assert (Hij : i <> j) by (intros ->; apply Hi; by left).
    set (w1 := passRound now w o).
    assert (Hw1 : w1 = set_syncPasses [AwaitingRemote j rest
                         (if match o with Resolved => true | _ => false end
                          then S cnt else cnt)]
                    (callAddTimeEntry j
                       (set_syncPasses [Sleeping (j :: rest)
                          (if match o with Resolved => true | _ => false end
                           then S cnt else cnt)]
                          (saveTimeEntries now (mutateEntry (settle o) i w))))).
    { subst w1. unfold passRound, remoteDone. rewrite Hp. cbn.
      rewrite sync_resume_settles. cbn. unfold wake. cbn. rewrite Hp. cbn.
      rewrite list_lookup_alter_ne, He, Hs, Ha by done. done. }
    change (foldl (passRound now) (passRound now w o) (o' :: outcomes))
      with (foldl (passRound now) w1 (o' :: outcomes)).
    destruct (IH j (if match o with Resolved => true | _ => false end
                    then S cnt else cnt) w1 o' outcomes)
      as (Hlog & Hflag & Hpass & Hled).
    + by rewrite Hw1.
    + by rewrite Hw1.
    + by rewrite Hw1.
    + done.
    + intros j' Hj'. rewrite Hw1. cbn.
      rewrite list_lookup_alter_ne; [apply Hun; by right|].
      intros ->. apply Hi. by right.
    + done.
    + split; [|split; [done|split; [done|]]].
      * rewrite Hlog, Hw1. cbn. by rewrite <- app_assoc.
      * rewrite Hled, Hw1. done.
Qed.

(** X10. A pass goes through the whole pending set, whatever fails on the
    way. From an idle engine with the API connected, a call of
    [syncPendingTimeEntries] followed by one outcome per pending entry
    submits exactly the entries that were pending, each once and in ledger
    order; afterwards no pass is in progress, every pending entry whose call
    resolved is synced without error, every one whose call was rejected is
    unsynced with the error recorded, and all other entries are as they
    were. *)
Theorem pass_visits_every_pending w outcomes now :
  syncIdle w ->
  azureDevOpsAPI w = true ->
  length outcomes = length (pendingFrom 0 (timeEntries w)) ->
  let pending := pendingFrom 0 (timeEntries w) in
  let w' := runPass outcomes now w in
  remoteLog w' = remoteLog w ++ pending
  /\ isSyncingTimeEntries w' = false
  /\ syncPasses w' = []
  /\ length (timeEntries w') = length (timeEntries w)
  /\ (forall k i o e,
        pending !! k = Some i -> outcomes !! k = Some o ->
        timeEntries w !! i = Some e ->
        timeEntries w' !! i = Some (settle o e))
  /\ (forall i, i ∉ pending -> timeEntries w' !! i = timeEntries w !! i).
Proof.
  intros [Hf Hp] Ha Hlen pending w'.
  assert (Hnd : NoDup pending) by apply pendingFrom_NoDup.
  assert (Hun : forall j, j ∈ pending ->
            exists e, timeEntries w !! j = Some e /\ entry_synced e = false).
  { intros j Hj. apply pendingFrom_spec in Hj as (_ & e & He & Hs).
    rewrite Nat.sub_0_r in He. eauto. }
  assert (Hmain : remoteLog w' = remoteLog w ++ pending
                  /\ isSyncingTimeEntries w' = false
                  /\ syncPasses w' = []
                  /\ timeEntries w'
                     = settleAll (timeEntries w) (zip pending outcomes)).
  { subst w'. unfold runPass, syncPendingTimeEntries. rewrite Ha, Hf. cbn.
    fold pending. fold pending in Hlen.
    destruct pending as [|i rest] eqn:Hpend.
    { destruct outcomes; [|done]. cbn. by rewrite app_nil_r. }
    destruct outcomes as [|o outcomes]; [done|].
    cbn in Hlen. injection Hlen as Hlen.
    destruct (Hun i) as (e & He & Hs); [by left|].
    cbn [syncLoop]. cbn. rewrite He, Hs, Ha. cbn. rewrite Hp. cbn.
    destruct (pass_from_awaiting now rest i 0%nat
                (set_syncPasses [AwaitingRemote i rest 0]
                   (callAddTimeEntry i (set_isSyncingTimeEntries true w)))
                o outcomes) as (Hlog & Hflag & Hpass & Hled); try done.
    { intros j Hj. apply Hun. by right. }
    split; [|done]. cbn in Hlog |- *. by rewrite Hlog, <- app_assoc. }
  destruct Hmain as (Hlog & Hflag & Hpass & Hled).
  split; [done|]. split; [done|]. split; [done|].
  rewrite Hled. split; [apply settleAll_length|]. split.
  - intros k i o e Hk Ho He.
    apply (settleAll_lookup _ _ k); [|by apply lookup_zip_Some|done].
    rewrite fst_zip; [done|unfold pending; lia].
  - intros i Hi. apply settleAll_lookup_other.
    intros Hin. apply Hi.
    apply list_elem_of_fmap in Hin as ([j o] & -> & Hin).
    apply list_elem_of_lookup in Hin as (k & Hk).
    apply lookup_zip_Some in Hk as [Hk _].
    by eapply list_elem_of_lookup_2.
Qed.

Lemma pass_visits_every_pending_witness :
  remoteLog
    (runPass [Rejected (Some "Network Error"); Resolved] 2000000
       (connectedWith [pendingEntry; secondPending]))
  = [0%nat; 1%nat]
  /\ (entry_synced <$>
        timeEntries
          (runPass [Rejected (Some "Network Error"); Resolved] 2000000
             (connectedWith [pendingEntry; secondPending])) !! 1%nat)
     = Some true.
Proof.
  destruct (pass_visits_every_pending
              (connectedWith [pendingEntry; secondPending])
              [Rejected (Some "Network Error"); Resolved] 2000000)
    as (Hlog & _ & _ & _ & Hset & _);
    [split; reflexivity | reflexivity | reflexivity |].
  split; [exact Hlog|].
  rewrite (Hset 1%nat 1%nat Resolved secondPending);
    reflexivity.
Defined.

(** ** What a saving stop leaves behind *)

Lemma stopCalls_syncLoop rest n w :
  stopCalls (fst (syncLoop rest n w)) = stopCalls w.
Proof.
  revert n w. induction rest as [|i rest IH]; intros n w; cbn; [done|].
  repeat break_if; cbn; auto.
Qed.

Lemma stopCalls_syncPending w :
  stopCalls (syncPendingTimeEntries w) = stopCalls w.
Proof.
  unfold syncPendingTimeEntries.
  destruct (negb (azureDevOpsAPI w)); [done|].
  destruct (isSyncingTimeEntries w); [done|].
  destruct (pendingFrom 0 (timeEntries w)) as [|i rest]; [done|].
  pose proof (stopCalls_syncLoop (i :: rest) 0
                (set_isSyncingTimeEntries true w)) as E.
  destruct (syncLoop _ _ _) as [w2 [p|]]; cbn in *; done.
Qed.

(** The end of a stop: the session is cleared and the duration added to the
    tracked total; the ledger and the other stops are left alone. *)
Lemma stopEnds_frame duration timeEntryId w :
  exists w', stopEnds duration timeEntryId w = (Normal None, w')
             /\ currentTimer w' = None
             /\ timeEntries w' = timeEntries w
             /\ gs_timeEntries (globalState w')
                = gs_timeEntries (globalState w)
             /\ stopCalls w' = stopCalls w
             /\ gs_totalTimeTracked (globalState w')
                = Some (default 0 (gs_totalTimeTracked (globalState w))
                        + duration).
Proof.
  unfold stopEnds, stopAftermath, bind, modify, ret. cbn.
  eexists; split; [done|].
  break_if; cbn; [|done].
  pose proof (ledgerView_syncPending
                (update_totalTimeTracked
                   (default 0 (gs_totalTimeTracked (globalState w)) + duration)
                   (clearTimerState w))) as E.
  unfold ledgerView in E. injection E as -> E2.
  rewrite globalState_syncPending, currentTimer_syncPending.
  rewrite stopCalls_syncPending. done.
Qed.

(** X11. A stop that saves puts its entry in the ledger and in the store
    before it yields, and adds the duration to the tracked total when it
    ends, however it ends. The building run, on a live session, appends
    exactly one unsynced entry built from that session and persists the
    ledger; without the API it ends at once, with the API it waits for the
    answer to 'Update work item?' with the session still live. An answer
    other than 'Yes' ends the stop and leaves the ledger alone; when the
    push of a 'Yes' has ended, the entry is synced if the call resolved and
    holds the error if it was rejected, the ledger is persisted, and the
    stop ends. Ending clears the session and adds the duration settled at
    the call to [totalTimeTracked]. *)
Theorem stop_saves_entry duration inp w t :
  currentTimer w = Some t ->
  let e := stopEntry duration inp t in
  let position := length (timeEntries w) in
  (exists r w',
     stopBuild duration inp w = (Normal r, w')
     /\ timeEntries w' = timeEntries w ++ [e]
     /\ gs_timeEntries (globalState w') = timeEntries w'
     /\ entry_synced e = false /\ entry_duration e = duration
     /\ if azureDevOpsAPI w
        then r = Some (AwaitingUpdate duration position (entry_id e))
             /\ currentTimer w' = Some t
             /\ gs_totalTimeTracked (globalState w')
                = gs_totalTimeTracked (globalState w)
        else r = None
             /\ currentTimer w' = None
             /\ gs_totalTimeTracked (globalState w')
                = Some (default 0 (gs_totalTimeTracked (globalState w))
                        + duration))
  /\ (forall k w1 update,
        stopCalls w1 !! k
        = Some (AwaitingUpdate duration position (entry_id e)) ->
        isYes update = false ->
        let w2 := step (OpStopResume (EvUpdate k update)) w1 in
        currentTimer w2 = None
        /\ timeEntries w2 = timeEntries w1
        /\ stopCalls w2 = delete k (stopCalls w1)
        /\ gs_totalTimeTracked (globalState w2)
           = Some (default 0 (gs_totalTimeTracked (globalState w1))
                   + duration))
  /\ (forall k w1 o now,
        stopCalls w1 !! k
        = Some (AwaitingPush duration position (entry_id e)) ->
        let w2 := step (OpStopResume (EvPushDone k o now)) w1 in
        currentTimer w2 = None
        /\ timeEntries w2 = alter (settle o) position (timeEntries w1)
        /\ gs_timeEntries (globalState w2) = timeEntries w2
        /\ stopCalls w2 = delete k (stopCalls w1)
        /\ gs_totalTimeTracked (globalState w2)
           = Some (default 0 (gs_totalTimeTracked (globalState w1))
                   + duration)).
Proof.
  intros Ht e position. split; [|split].
  - unfold stopBuild. rewrite Ht. fold e.
    set (w0 := appendTimeEntry e (entry_builtAt inp) w).
    change (azureDevOpsAPI w0) with (azureDevOpsAPI w).
    destruct (azureDevOpsAPI w).
    + exists (Some (AwaitingUpdate duration position (entry_id e))), w0.
      by repeat split.
    + destruct (stopEnds_frame duration (entry_id e) w0)
        as (w' & -> & Hc & Hl & Hg & _ & Htot).
      exists None, w'. rewrite Hl, Hg, Htot. by repeat split.
  - intros k w1 update Hk Hu w2. subst w2. cbn. unfold stopStep. cbn.
    rewrite Hk. unfold stopUpdated. rewrite Hu.
    destruct (stopEnds_frame duration (entry_id e) w1)
      as (w' & -> & Hc & Hl & Hg & Hp & Htot).
    cbn. by rewrite Hc, Hl, Hp, Htot.
  - intros k w1 o now Hk w2. subst w2. cbn. unfold stopStep. cbn.
    rewrite Hk. unfold stopPushed, bind. rewrite sync_resume_settles.
    set (w0 := saveTimeEntries now (mutateEntry (settle o) position w1)).
    destruct (stopEnds_frame duration (entry_id e) w0)
      as (w' & -> & Hc & Hl & Hg & Hp & Htot).
    cbn. by rewrite Hc, Hl, Hg, Hp, Htot.
Qed.

Lemma stop_saves_entry_witness :
  let w2 :=
    step (OpStopResume
            (EvPushDone 0 (Rejected (Some "Request failed")) 1091000))
      pushAwaited in
  currentTimer w2 = None
  /\ timeEntries w2
     = alter (settle (Rejected (Some "Request failed"))) 0%nat
         (timeEntries pushAwaited)
  /\ gs_timeEntries (globalState w2) = timeEntries w2
  /\ stopCalls w2 = delete 0%nat (stopCalls pushAwaited)
  /\ gs_totalTimeTracked (globalState w2)
     = Some (default 0 (gs_totalTimeTracked (globalState pushAwaited)) + 90).
Proof.
  pose proof (stop_saves_entry 90 (builtAt 1090500)
                (step (OpConnect true) startedAt1000s)
                {| workItemId := 42; workItemTitle := "Fix bug";
                   startTime := 1000000; pausedTime := None;
                   elapsedSeconds := 0; isPaused := false;
                   isPomodoro := None; pomodoroCount := Some 0;
                   pausedDueToInactivity := None |}) as H.
  destruct H as (_ & _ & H); [vm_compute; reflexivity|].
  apply (H 0%nat pushAwaited (Rejected (Some "Request failed")) 1091000).
  vm_compute. reflexivity.
Defined.

(** ** Pomodoro notifications *)

(** One tick of a running session: where the session stands afterwards,
    and what it takes for the notification marker to move. *)
Lemma tick_marker n w t :
  currentTimer w = Some t -> isPaused t = false -> timerInterval w = true ->
  let e := Z.max 0 (Z.min ((n - startTime t) / 1000) 86400) in
  let w' := fireTimerInterval n w in
  (exists t', currentTimer w' = Some t'
              /\ startTime t' = startTime t /\ isPaused t' = false
              /\ elapsedSeconds t' = e)
  /\ timerInterval w' = true
  /\ (gs_lastPomodoroNotification (globalState w')
      <> gs_lastPomodoroNotification (globalState w) ->
      Z.rem e 1800 = 1500
      /\ 1500 <= e - default 0 (gs_lastPomodoroNotification (globalState w))
      /\ gs_lastPomodoroNotification (globalState w') = Some e).
Proof.
  intros Ht Hp Hi e w'. subst w'.
  unfold fireTimerInterval, timerTick. rewrite Hi, Ht, Hp. cbn.
  change (25 * 60 + 5 * 60) with 1800. change (25 * 60) with 1500.
  fold e.
  assert (Hsame : forall P : Prop,
    (exists t', Some (with_elapsedSeconds e t) = Some t'
                /\ startTime t' = startTime t /\ isPaused t' = false
                /\ elapsedSeconds t' = e)
    /\ timerInterval w = true
    /\ (gs_lastPomodoroNotification (globalState w)
        <> gs_lastPomodoroNotification (globalState w) -> P)).
  { intros P. split; [by eexists|]. split; [done|]. by intros []. }
  destruct (flag (isPomodoro t)); [|apply Hsame].
  destruct (Z.rem e 1800 =? 1500) eqn:Hrem; [|apply Hsame].
  destruct (1500 <=? e - _) eqn:Hsince; cbn; [|apply Hsame].
  split; [by eexists|]. split; [done|]. intros _. split; [lia|].
  split; [lia|done].
Qed.

(** X12. Two Pomodoro notifications are at least 1800 tracked seconds
    apart: if two successive ticks of a running session both move the
    notification marker, the elapsed time of the second is at least 1800
    more than that of the first. In particular a tick repeated within the
    same second, or landing again on a boundary already notified, does not
    notify twice. *)
Theorem pomodoro_notifications_apart n1 n2 w t :
  currentTimer w = Some t -> isPaused t = false -> timerInterval w = true ->
  let w1 := fireTimerInterval n1 w in
  let w2 := fireTimerInterval n2 w1 in
  gs_lastPomodoroNotification (globalState w1)
  <> gs_lastPomodoroNotification (globalState w) ->
  gs_lastPomodoroNotification (globalState w2)
  <> gs_lastPomodoroNotification (globalState w1) ->
  elapsedOf w1 + 1800 <= elapsedOf w2.
Proof.
  intros Ht Hp Hi w1 w2 H1 H2.
  destruct (tick_marker n1 w t Ht Hp Hi) as ((t1 & Ht1 & Hs1 & Hp1 & He1) & Hi1 & Hm1).
  fold w1 in Ht1, Hi1, Hm1.
  destruct (Hm1 H1) as (Hr1 & _ & Hmark1).
  destruct (tick_marker n2 w1 t1 Ht1 Hp1 Hi1) as ((t2 & Ht2 & _ & _ & He2) & _ & Hm2).
  fold w2 in Ht2, Hm2.
  destruct (Hm2 H2) as (Hr2 & Hsince & _).
  rewrite Hmark1 in Hsince. cbn in Hsince.
  unfold elapsedOf. rewrite Ht1, Ht2, He1, He2. rewrite Hs1 in *.
  set (e1 := Z.max 0 (Z.min ((n1 - startTime t) / 1000) 86400)) in *.
  set (e2 := Z.max 0 (Z.min ((n2 - startTime t) / 1000) 86400)) in *.
  assert (0 <= e1) by (subst e1; lia).
  assert (0 <= e2) by (subst e2; lia).
  rewrite Z.rem_mod_nonneg in Hr1, Hr2 by lia.
  assert (Hs' : 1500 <= e2 - e1) by exact Hsince.
  pose proof (Z.div_mod e1 1800 ltac:(lia)) as D1.
  pose proof (Z.div_mod e2 1800 ltac:(lia)) as D2.
  rewrite Hr1 in D1. rewrite Hr2 in D2.
  clearbody e1 e2. lia.
Qed.

Lemma pomodoro_notifications_apart_witness :
  elapsedOf (fireTimerInterval 2500000 pomodoroStarted) + 1800
  <= elapsedOf
       (fireTimerInterval 4300000 (fireTimerInterval 2500000 pomodoroStarted)).
Proof.
  apply (pomodoro_notifications_apart 2500000 4300000 pomodoroStarted
           {| workItemId := 42; workItemTitle := "Fix bug";
              startTime := 1000000; pausedTime := None;
              elapsedSeconds := 0; isPaused := false;
              isPomodoro := Some true; pomodoroCount := Some 0;
              pausedDueToInactivity := None |});
    [reflexivity | reflexivity | reflexivity
    | vm_compute; discriminate | vm_compute; discriminate].
Defined.

(** ** Retries *)

Section WithRetryFacts.

Context {T E : Type} (statusOf : E -> option Z).

Lemma retryLoop_decisive (fn : nat -> T + E) remaining attempt :
  exists k,
    (k <= length remaining)%nat
    /\ (forall j, (j < k)%nat -> retryable statusOf (fn (attempt + j)%nat) = true)
    /\ (k = length remaining
        \/ retryable statusOf (fn (attempt + k)%nat) = false)
    /\ retryLoop statusOf remaining attempt fn
       = {| retry_result := fn (attempt + k)%nat;
            retry_calls := S k;
            retry_waits := take k remaining |}.
Proof.
  revert attempt. induction remaining as [|delay remaining IH];
    intros attempt; cbn.
  - exists 0%nat. rewrite Nat.add_0_r.
    split; [done|]. split; [lia|]. split; [by left|].
    destruct (fn attempt) as [v|error]; [done|].
    by destruct (clientError _).
  - destruct (fn attempt) as [v|error] eqn:Hfn.
    + exists 0%nat. rewrite Nat.add_0_r, Hfn.
      split; [lia|]. split; [lia|]. split; [by right|done].
    + destruct (clientError (statusOf error)) eqn:Hc.
      * exists 0%nat. rewrite Nat.add_0_r, Hfn.
        split; [lia|]. split; [lia|]. split; [|done].
        right. cbn. by rewrite Hc.
      * destruct (IH (S attempt)) as (k & Hk & Hbefore & Hlast & ->).
        exists (S k). cbn.
        replace (attempt + S k)%nat with (S attempt + k)%nat by lia.
        split; [lia|]. split; [|split; [|done]].
        -- intros [|j] Hj.
           ++ rewrite Nat.add_0_r, Hfn. cbn. by rewrite Hc.
           ++ replace (attempt + S j)%nat with (S attempt + j)%nat by lia.
              apply Hbefore. lia.
        -- destruct Hlast as [->|Hlast]; [by left|by right].
Qed.

(** X13. What [withRetry] does, for any behaviour of the wrapped call. There
    is a deciding attempt [k], at most the fourth: every earlier attempt
    failed without a client error, and attempt [k] either succeeded, failed
    with a client error (a 4xx other than 429), or was the fourth. The
    function is called exactly [k + 1] times, the result or error of attempt
    [k] is what [withRetry] returns or throws, and the delays slept are the
    first [k] of 1000, 2000, 5000 ms (8000 ms at most). *)
Theorem withRetry_spec (fn : nat -> T + E) :
  exists k,
    (k <= 3)%nat
    /\ (forall j, (j < k)%nat -> retryable statusOf (fn j) = true)
    /\ (k = 3%nat \/ retryable statusOf (fn k) = false)
    /\ retry_result (withRetry statusOf fn) = fn k
    /\ retry_calls (withRetry statusOf fn) = S k
    /\ retry_waits (withRetry statusOf fn) = take k [1000; 2000; 5000]
    /\ foldr Z.add 0 (retry_waits (withRetry statusOf fn)) <= 8000.
Proof.
  destruct (retryLoop_decisive fn retryDelays 0) as (k & Hk & Hb & Hl & Hrun).
  exists k. unfold withRetry. rewrite Hrun. cbn in *.
  split; [done|]. split; [done|]. split; [done|].
  split; [done|]. split; [done|]. split; [done|].
  destruct k as [|[|[|[|k]]]]; cbn; lia.
Qed.

End WithRetryFacts.

(** ** The response cache *)

Section CacheFacts.

Context {T : Type}.
Implicit Types (c : SimpleCache T) (ops : list (CacheOp T)).

Lemma cacheGet_result key now c :
  fst (cacheGet key now c)
  = match cache_items c !! key with
    | Some item => if cache_ttl c <? now - item.2 then None else Some item.1
    | None => None
    end.
Proof.
  unfold cacheGet. destruct (cache_items c !! key); [|done].
  by destruct (_ <? _).
Qed.

Lemma cacheGet_other key now c key' :
  key' <> key ->
  cache_items (snd (cacheGet key now c)) !! key' = cache_items c !! key'
  /\ cache_ttl (snd (cacheGet key now c)) = cache_ttl c.
Proof.
  intros Hne. unfold cacheGet. destruct (cache_items c !! key); [|done].
  destruct (_ <? _); cbn; [|done]. by rewrite lookup_delete_ne.
Qed.

(** X14. A [get] within the time to live of the last [set] of its key
    returns the data and leaves the cache as it is; a [get] later than that
    returns nothing and removes the item, so that every later [get] of the
    key, whatever the clock reads then, returns nothing too. Items under
    other keys are not affected by either. *)
Theorem cache_set_get key (data : T) stored now c :
  let c1 := cacheSet key data stored c in
  (now - stored <= cache_ttl c -> cacheGet key now c1 = (Some data, c1))
  /\ (cache_ttl c < now - stored ->
      fst (cacheGet key now c1) = None
      /\ forall later,
           fst (cacheGet key later (snd (cacheGet key now c1))) = None)
  /\ (forall key' now', key' <> key ->
      fst (cacheGet key' now' c1) = fst (cacheGet key' now' c)
      /\ fst (cacheGet key' now' (snd (cacheGet key now c1)))
         = fst (cacheGet key' now' c)).
Proof.
  intros c1. split; [|split].
  - intros H. subst c1. unfold cacheGet, cacheSet. cbn.
    rewrite lookup_insert_eq. cbn.
    by replace (cache_ttl c <? now - stored) with false by lia.
  - intros H. subst c1. unfold cacheGet, cacheSet. cbn.
    rewrite lookup_insert_eq. cbn.
    replace (cache_ttl c <? now - stored) with true by lia. cbn.
    split; [done|]. intros later. by rewrite lookup_delete_eq.
  - intros key' now' Hne. rewrite !cacheGet_result.
    destruct (cacheGet_other key now c1 key' Hne) as [-> ->].
    subst c1. cbn. by rewrite lookup_insert_ne.
Qed.

Lemma cache_ttl_step c op : cache_ttl (cacheStep c op) = cache_ttl c.
Proof.
  destruct op; cbn; try done. unfold cacheGet.
  destruct (cache_items c !! key) as [item|]; [|done].
  by destruct (_ <? _).
Qed.

Lemma cache_ttl_run c0 ops :
  cache_ttl (foldl cacheStep c0 ops) = cache_ttl c0.
Proof.
  revert c0. induction ops as [|op ops IH]; intros c0; cbn; [done|].
  by rewrite IH, cache_ttl_step.
Qed.

Lemma cache_items_lastSet key ops c0 acc item :
  (forall item0, cache_items c0 !! key = Some item0 -> acc = Some item0) ->
  cache_items (foldl cacheStep c0 ops) !! key = Some item ->
  foldl (fun acc op =>
           match op with
           | CSet key' data now =>
             if String.eqb key' key then Some (data, now) else acc
           | CGet _ _ => acc
           | CDelete key' => if String.eqb key' key then None else acc
           | CClear => None
           end) acc ops = Some item.
Proof.
  revert c0 acc. induction ops as [|op ops IH]; intros c0 acc H0 Hi; cbn.
  - by apply H0.
  - cbn in Hi. apply (IH (cacheStep c0 op)); [|done].
    intros item0. destruct op as [key' data now|key' now|key'|]; cbn.
    + destruct (String.eqb_spec key' key) as [->|Hne].
      * rewrite lookup_insert_eq. by intros [= <-].
      * rewrite lookup_insert_ne by done. apply H0.
    + unfold cacheGet.
      destruct (cache_items c0 !! key') as [it|] eqn:Hk; [|apply H0].
      destruct (_ <? _); cbn; [|apply H0].
      destruct (decide (key' = key)) as [->|Hne].
      * by rewrite lookup_delete_eq.
      * rewrite lookup_delete_ne by done. apply H0.
    + destruct (String.eqb_spec key' key) as [->|Hne].
      * by rewrite lookup_delete_eq.
      * rewrite lookup_delete_ne by done. apply H0.
    + by rewrite lookup_empty.
Qed.

(** X15. The cache never serves stale or foreign data: after any sequence
    of [set], [get], [delete] and [clear] calls on a new cache, whatever a
    [get] returns is the data of the last [set] of that key which no later
    [delete] or [clear] undid, and that [set] is at most the time to live
    old. *)
Theorem cache_get_sound ttlSeconds ops key now (data : T) :
  fst (cacheGet key now (foldl cacheStep (cacheNew ttlSeconds) ops))
  = Some data ->
  exists stored,
    lastSet key ops = Some (data, stored)
    /\ now - stored <= ttlSeconds * 1000.
Proof.
  unfold cacheGet.
  set (c := foldl cacheStep (cacheNew ttlSeconds) ops).
  assert (Httl : cache_ttl c = ttlSeconds * 1000).
  { subst c. by rewrite cache_ttl_run. }
  destruct (cache_items c !! key) as [[d stored]|] eqn:Hk; [|done].
  cbn. destruct (cache_ttl c <? now - stored) eqn:Hexp; [done|].
  cbn. intros [= ->]. exists stored. split; [|lia].
  apply (cache_items_lastSet key ops (cacheNew ttlSeconds) None); [|done].
  intros item0. cbn. by rewrite lookup_empty.
Qed.

End CacheFacts.

Lemma cache_set_get_witness :
  cacheGet "My Work Items" 1299000
    (cacheSet "My Work Items" [item42] 1000000 (cacheNew 300))
  = (Some [item42], cacheSet "My Work Items" [item42] 1000000 (cacheNew 300)).
Proof.
  apply (cache_set_get "My Work Items" [item42] 1000000 1299000
           (cacheNew 300)).
  vm_compute. discriminate.
Defined.

Lemma cache_get_sound_witness :
  exists stored,
    lastSet "My Work Items"
      [CSet "My Work Items" [item42] 1000000; CGet "Other" 1100000;
       CSet "My Work Items" [] 1200000]
    = Some (@nil WorkItem, stored)
    /\ 1400000 - stored <= 300 * 1000.
Proof.
  apply (cache_get_sound 300
           [CSet "My Work Items" [item42] 1000000; CGet "Other" 1100000;
            CSet "My Work Items" [] 1200000]
           "My Work Items" 1400000 []).
  vm_compute. reflexivity.
Defined.

(** ** The time report *)

Lemma sumDurations_app l1 l2 :
  sumDurations (l1 ++ l2) = sumDurations l1 + sumDurations l2.
Proof.
  unfold sumDurations. induction l1 as [|e l1 IH]; cbn; [lia|].
  rewrite IH. lia.
Qed.

Lemma addToGroup_keys entry groups :
  (addToGroup entry groups).*1
  = if decide (entry_workItemId entry ∈ groups.*1) then groups.*1
    else groups.*1 ++ [entry_workItemId entry].
Proof.
  induction groups as [|[id g] groups IH]; cbn [addToGroup].
  - rewrite decide_False; [done|]. apply not_elem_of_nil.
  - destruct (id =? entry_workItemId entry) eqn:Hid.
    + apply Z.eqb_eq in Hid as ->. rewrite !fmap_cons. cbn [fst].
      rewrite decide_True by (by left). done.
    + apply Z.eqb_neq in Hid. rewrite !fmap_cons, IH. cbn [fst].
      destruct (decide (entry_workItemId entry ∈ groups.*1)) as [H|H].
      * rewrite decide_True by (by right). done.
      * rewrite decide_False; [done|].
        intros [?|?]%elem_of_cons; [congruence|done].
Qed.

Lemma addToGroup_sumTotals entry groups :
  sumTotals (addToGroup entry groups)
  = sumTotals groups + entry_duration entry.
Proof.
  unfold sumTotals. induction groups as [|[id g] groups IH]; cbn; [lia|].
  destruct (id =? _); cbn; lia.
Qed.

Lemma groupOf_addToGroup id entry groups :
  groupOf id (addToGroup entry groups)
  = if entry_workItemId entry =? id then
      Some {| group_total :=
                default 0 (group_total <$> groupOf id groups)
                + entry_duration entry;
              group_entries :=
                default [] (group_entries <$> groupOf id groups) ++ [entry] |}
    else groupOf id groups.
Proof.
  induction groups as [|[id' g] groups IH]; cbn.
  - by destruct (_ =? _).
  - destruct (id' =? entry_workItemId entry) eqn:H1; cbn.
    + apply Z.eqb_eq in H1 as ->.
      by destruct (_ =? _).
    + destruct (id' =? id) eqn:H2; [|done].
      apply Z.eqb_eq in H2 as ->.
      by rewrite Z.eqb_sym, H1.
Qed.

Lemma groupByWorkItem_snoc entries entry :
  groupByWorkItem (entries ++ [entry])
  = addToGroup entry (groupByWorkItem entries).
Proof. unfold groupByWorkItem. by rewrite foldl_snoc. Qed.

Lemma groupByWorkItem_spec entries :
  NoDup (groupByWorkItem entries).*1
  /\ sumTotals (groupByWorkItem entries) = sumDurations entries
  /\ forall id,
       groupOf id (groupByWorkItem entries)
       = match filter (fun e => entry_workItemId e = id) entries with
         | [] => None
         | es => Some {| group_total := sumDurations es;
                         group_entries := es |}
         end.
Proof.
  induction entries as [|entry entries IH] using rev_ind; [by repeat constructor|].
  destruct IH as (Hnd & Hsum & Hget).
  rewrite groupByWorkItem_snoc. split; [|split].
  - rewrite addToGroup_keys. destruct (decide _) as [H|H]; [done|].
    apply NoDup_app. split; [done|]. split; [|apply NoDup_singleton].
    intros x Hx ->%list_elem_of_singleton. done.
  - rewrite addToGroup_sumTotals, Hsum, sumDurations_app. cbn. lia.
  - intros id. rewrite groupOf_addToGroup, Hget, filter_app.
    destruct (entry_workItemId entry =? id) eqn:Hid.
    + apply Z.eqb_eq in Hid.
      rewrite (filter_cons_True _ entry []) by done.
      rewrite filter_nil.
      destruct (filter _ entries) as [|e es] eqn:Hf; cbn;
        [do 2 f_equal; lia|].
      f_equal. f_equal.
      change (foldr _ 0 (e :: es ++ [entry]))
        with (sumDurations ((e :: es) ++ [entry])).
      change (entry_duration e + foldr _ 0 es) with (sumDurations (e :: es)).
      rewrite sumDurations_app. cbn. unfold sumDurations. lia.
    + apply Z.eqb_neq in Hid.
      rewrite (filter_cons_False _ entry []) by done.
      by rewrite filter_nil, app_nil_r.
Qed.

(** X16. The time report accounts for every entry once. When some entry
    started at or after the start date, the report has one group per work
    item among those entries (keys pairwise distinct); the group of an item
    holds exactly that item's entries of the period, in ledger order, and
    their summed duration; and the group totals add up to the summed
    duration of all entries of the period. Without such an entry there is no
    report. *)
Theorem timeReport_spec startDate entries :
  let period :=
    filter (fun e => startDate <= entry_startTime e) entries in
  match timeReport startDate entries with
  | None => period = []
  | Some groups =>
    period <> []
    /\ NoDup groups.*1
    /\ sumTotals groups = sumDurations period
    /\ forall id,
         groupOf id groups
         = match filter (fun e => entry_workItemId e = id) period with
           | [] => None
           | es => Some {| group_total := sumDurations es;
                           group_entries := es |}
           end
  end.
Proof.
  intros period. unfold timeReport. fold period.
  destruct period as [|e es] eqn:Hp; [done|].
  split; [done|]. apply groupByWorkItem_spec.
Qed.

(** ** The status bar *)

Lemma padStart_twoDigits n :
  0 <= n < 100 -> padStart 2 "0" (toString n) = twoDigits n.
Proof.
  intros Hn.
  assert (Hall : Forall (fun n => padStart 2 "0" (toString n) = twoDigits n)
                        (seqZ 0 100)).
  { vm_compute. repeat constructor. }
  rewrite Forall_forall in Hall. apply Hall, elem_of_seqZ. lia.
Qed.

Lemma reachable_run ops w :
  reachable w -> reachable (foldl (fun w op => step op w) w ops).
Proof.
  revert w. induction ops as [|op ops IH]; intros w Hw; cbn; [done|].
  by apply IH, reach_step.
Qed.

(** X17. The status bar of a session shows a clock of exactly two digits
    per field. In a process that starts without a stored snapshot, so that
    whatever it restores it has stored itself, in every state it reaches,
    for a live session whose work item id prints in decimal, the text of
    the status bar item is the icon, the clock [HH:MM:SS] and the id, where
    the hours (at most 24), minutes and seconds (below 60) add up to the
    session's elapsed seconds; the clock has 8 characters. *)
Theorem statusBar_clock gs cfg now ops t :
  gs_currentTimer gs = StoredPrim JUndefined ->
  let w := foldl (fun w op => step op w) (processStart gs cfg now) ops in
  currentTimer w = Some t ->
  printsInDecimal (workItemId t) ->
  exists h m s,
    0 <= h <= 24 /\ 0 <= m < 60 /\ 0 <= s < 60
    /\ elapsedSeconds t = 3600 * h + 60 * m + s
    /\ updateTimerStatusBar w
       = Some (if isPaused t
               then "$(debug-pause) " +:+ clock h m s
                    +:+ " - #" +:+ toString (workItemId t) +:+ " (Paused)"
               else "$(clock) " +:+ clock h m s
                    +:+ " - #" +:+ toString (workItemId t))
    /\ String.length (timeString (elapsedSeconds t)) = 8%nat.
Proof.
  intros _ w Ht _.
  assert (Hr : reachable w) by apply reachable_run, reach_start.
  pose proof (elapsedBounded_reachable w Hr t Ht) as Hb.
  unfold updateTimerStatusBar. rewrite Ht.
  set (e := elapsedSeconds t) in *.
  assert (Hrem1 : Z.rem e 3600 = e mod 3600) by (apply Z.rem_mod_nonneg; lia).
  assert (Hrem2 : Z.rem e 60 = e mod 60) by (apply Z.rem_mod_nonneg; lia).
  exists (e / 3600), (e mod 3600 / 60), (e mod 60).
  pose proof (Z.div_mod e 3600 ltac:(lia)) as H1.
  pose proof (Z.mod_pos_bound e 3600 ltac:(lia)) as H2.
  pose proof (Z.div_mod (e mod 3600) 60 ltac:(lia)) as H3.
  pose proof (Z.mod_pos_bound (e mod 3600) 60 ltac:(lia)) as H4.
  pose proof (Z.mod_pos_bound e 60 ltac:(lia)) as H5.
  assert (H6 : (e mod 3600) mod 60 = e mod 60).
  { apply Z.mod_mod_divide. by exists 60. }
  assert (Hh : 0 <= e / 3600 <= 24).
  { split; [apply Z.div_pos; lia|]. apply Z.div_le_upper_bound; lia. }
  assert (Hm : 0 <= e mod 3600 / 60 < 60).
  { split; [apply Z.div_pos; lia|]. apply Z.div_lt_upper_bound; lia. }
  assert (Hts : timeString e
                = clock (e / 3600) (e mod 3600 / 60) (e mod 60)).
  { unfold timeString, clock. rewrite Hrem1, Hrem2.
    by rewrite !padStart_twoDigits by lia. }
  split; [done|]. split; [done|]. split; [done|]. split; [lia|].
  rewrite Hts. done.
Qed.

Lemma statusBar_clock_witness :
  exists h m s,
    0 <= h <= 24 /\ 0 <= m < 60 /\ 0 <= s < 60
    /\ 3725 = 3600 * h + 60 * m + s
    /\ updateTimerStatusBar
         (foldl (fun w op => step op w)
            (processStart emptyStore unsetConfig 999000)
            [OpStart item42 1000000; OpTick 4725000])
       = Some ("$(clock) " +:+ clock h m s +:+ " - #" +:+ toString 42)
    /\ String.length (timeString 3725) = 8%nat.
Proof.
  apply (statusBar_clock emptyStore unsetConfig 999000
           [OpStart item42 1000000; OpTick 4725000]
           {| workItemId := 42; workItemTitle := "Fix bug";
              startTime := 1000000; pausedTime := None;
              elapsedSeconds := 3725; isPaused := false;
              isPomodoro := None; pomodoroCount := Some 0;
              pausedDueToInactivity := None |}).
  - reflexivity.
  - reflexivity.
  - by vm_compute.
Defined.

(** ** The branch name of a work item *)

Lemma isLowerAlnum_not_hyphen c : isLowerAlnum c = true -> c <> hyphen.
Proof. unfold isLowerAlnum, hyphen. lia. Qed.

Lemma replaceRuns_chars b s :
  Forall (fun c => isLowerAlnum c = true \/ c = hyphen) (replaceRuns b s).
Proof.
  revert b. induction s as [|c s IH]; intros b; cbn; [done|].
  destruct (isLowerAlnum c) eqn:Hc; [by constructor; [left|]|].
  destruct b; [done|]. by constructor; [right|].
Qed.

Lemma replaceRuns_spaced b s : spaced b (replaceRuns b s) = true.
Proof.
  revert b. induction s as [|c s IH]; intros b; cbn; [done|].
  destruct (isLowerAlnum c) eqn:Hc.
  - cbn. apply isLowerAlnum_not_hyphen, Z.eqb_neq in Hc. by rewrite Hc.
  - destruct b; [done|]. cbn. by rewrite IH.
Qed.

Lemma replaceRuns_alnum b s :
  filter (fun c => isLowerAlnum c = true) (replaceRuns b s)
  = filter (fun c => isLowerAlnum c = true) s.
Proof.
  revert b. induction s as [|c s IH]; intros b; cbn [replaceRuns]; [done|].
  destruct (isLowerAlnum c) eqn:Hc.
  - rewrite !filter_cons_True by done. by rewrite IH.
  - rewrite (filter_cons_False _ c s) by (by rewrite Hc).
    destruct b; [done|].
    rewrite filter_cons_False; [done|]. by compute.
Qed.

Lemma spaced_weaken b s : spaced true s = true -> spaced b s = true.
Proof. destruct s as [|c s]; cbn; [done|]. destruct (c =? hyphen), b; done. Qed.

Lemma spaced_head s :
  spaced false s = true -> head s <> Some hyphen -> spaced true s = true.
Proof.
  destruct s as [|c s]; cbn; [done|]. intros Hs Hh.
  destruct (c =? hyphen) eqn:Hc; [|done].
  apply Z.eqb_eq in Hc. by subst.
Qed.

Lemma spaced_no_head s : spaced true s = true -> head s <> Some hyphen.
Proof.
  destruct s as [|c s]; cbn; [done|]. intros Hs [= ->]. done.
Qed.

Lemma spaced_take b n s : spaced b s = true -> spaced b (take n s) = true.
Proof.
  revert b n. induction s as [|c s IH]; intros b [|n]; cbn; try done.
  destruct (c =? hyphen).
  - intros [? ?]%andb_prop. apply andb_true_intro. split; [done|by apply IH].
  - apply IH.
Qed.

Lemma spaced_removelast b s :
  spaced b s = true -> spaced b (removelast s) = true.
Proof.
  revert b. induction s as [|c s IH]; intros b; [done|].
  destruct s as [|c' s]; [by destruct (c =? hyphen)|].
  change (removelast (c :: c' :: s)) with (c :: removelast (c' :: s)).
  revert IH. generalize (c' :: s). intros s' IH. cbn.
  destruct (c =? hyphen).
  - intros [? ?]%andb_prop. apply andb_true_intro. split; [done|by apply IH].
  - apply IH.
Qed.

Lemma spaced_last b s :
  spaced b s = true -> last s = Some hyphen ->
  last (removelast s) <> Some hyphen.
Proof.
  revert b. induction s as [|c s IH]; intros b; [done|].
  destruct s as [|c' s]; [done|].
  change (removelast (c :: c' :: s)) with (c :: removelast (c' :: s)).
  change (last (c :: c' :: s)) with (last (c' :: s)).
  destruct s as [|c'' s].
  - cbn [last removelast]. intros Hs [= ->] [= ->].
    by destruct b; vm_compute in Hs.
  - change (removelast (c' :: c'' :: s)) with (c' :: removelast (c'' :: s)) in *.
    change (last (c :: c' :: removelast (c'' :: s)))
      with (last (c' :: removelast (c'' :: s))).
    intros Hs. apply (IH (c =? hyphen)).
    revert Hs. cbn. destruct (c =? hyphen); [|done].
    by intros [? ?]%andb_prop.
Qed.

Lemma spaced_lookup b s i :
  spaced b s = true -> s !! i = Some hyphen -> s !! S i <> Some hyphen.
Proof.
  revert b i. induction s as [|c s IH]; intros b i; [done|].
  destruct i as [|i].
  - cbn. intros Hs [= ->]. cbn in Hs. apply andb_prop in Hs as [_ Hs].
    intros Hh. destruct s as [|c' s]; [done|]. cbn in Hh.
    injection Hh as ->. done.
  - cbn. destruct (c =? hyphen).
    + intros [_ Hs]%andb_prop. by apply IH with true.
    + intros Hs. by apply IH with false.
Qed.

Lemma stripHyphens_spaced s :
  spaced false s = true ->
  spaced true (stripHyphens s) = true
  /\ last (stripHyphens s) <> Some hyphen.
Proof.
  intros Hs. unfold stripHyphens.
  set (s1 := match s with
             | c :: s' => if c =? hyphen then s' else s
             | [] => []
             end).
  assert (H1 : spaced true s1 = true).
  { subst s1. destruct s as [|c s]; [done|].
    destruct (c =? hyphen) eqn:Hc.
    - change (spaced false (c :: s))
        with (if c =? hyphen then negb false && spaced true s
              else spaced false s) in Hs.
      rewrite Hc in Hs. exact Hs.
    - apply spaced_head; [done|]. cbn. intros [= ->]. done. }
  destruct (last s1) as [c|] eqn:Hl; [|by rewrite Hl].
  destruct (c =? hyphen) eqn:Hc.
  - apply Z.eqb_eq in Hc. subst c. split.
    + by apply spaced_removelast.
    + by apply spaced_last with true.
  - split; [done|]. rewrite Hl. intros [= ->]. done.
Qed.

Lemma Forall_removelast {A} (P : A -> Prop) (s : list A) :
  Forall P s -> Forall P (removelast s).
Proof.
  induction 1 as [|c s Hc Hs IH]; [done|].
  destruct s as [|c' s]; [done|].
  change (removelast (c :: c' :: s)) with (c :: removelast (c' :: s)).
  by constructor.
Qed.

Lemma stripHyphens_chars (P : Z -> Prop) s :
  Forall P s -> Forall P (stripHyphens s).
Proof.
  intros Hs. unfold stripHyphens.
  set (s1 := match s with
             | c :: s' => if c =? hyphen then s' else s
             | [] => []
             end).
  assert (H1 : Forall P s1).
  { subst s1. destruct s as [|c s]; [done|].
    destruct (c =? hyphen); [by inversion Hs|done]. }
  destruct (last s1) as [c|]; [|done].
  destruct (c =? hyphen); [by apply Forall_removelast|done].
Qed.

Lemma removelast_hyphen_alnum s :
  last s = Some hyphen ->
  filter (fun c => isLowerAlnum c = true) (removelast s)
  = filter (fun c => isLowerAlnum c = true) s.
Proof.
  intros Hl. apply last_Some in Hl as [s' ->].
  rewrite removelast_last, filter_app.
  rewrite (filter_cons_False _ hyphen []) by (by compute).
  by rewrite filter_nil, app_nil_r.
Qed.

Lemma stripHyphens_alnum s :
  filter (fun c => isLowerAlnum c = true) (stripHyphens s)
  = filter (fun c => isLowerAlnum c = true) s.
Proof.
  unfold stripHyphens.
  set (s1 := match s with
             | c :: s' => if c =? hyphen then s' else s
             | [] => []
             end).
  assert (H1 : filter (fun c => isLowerAlnum c = true) s1
               = filter (fun c => isLowerAlnum c = true) s).
  { subst s1. destruct s as [|c s]; [done|].
    destruct (c =? hyphen) eqn:Hc; [|done].
    apply Z.eqb_eq in Hc. subst c.
    by rewrite (filter_cons_False _ hyphen s) by (by compute). }
  destruct (last s1) as [c|] eqn:Hl; [|done].
  destruct (c =? hyphen) eqn:Hc; [|done].
  apply Z.eqb_eq in Hc. subst c. by rewrite removelast_hyphen_alnum.
Qed.

Section BranchNameFacts.
Context (toLowerCase : string -> list Z).

(** X18. The title part of a branch name. Whatever the title and its
    lower-case form, the sanitized title has at most 50 units, each a
    lower-case letter, a digit or a hyphen; it does not start with a hyphen
    and has no two hyphens in a row; and its letters and digits are the
    first letters and digits of the lower-case title, in their order. *)
Theorem sanitizedTitle_shape title :
  let name := sanitizedTitle toLowerCase title in
  (length name <= 50)%nat
  /\ Forall (fun c => isLowerAlnum c = true \/ c = hyphen) name
  /\ head name <> Some hyphen
  /\ (forall i, name !! i = Some hyphen -> name !! S i <> Some hyphen)
  /\ filter (fun c => isLowerAlnum c = true) name
       `prefix_of` filter (fun c => isLowerAlnum c = true)
                          (toLowerCase title).
Proof.
  intros name. subst name. unfold sanitizedTitle.
  set (s := replaceRuns false (toLowerCase title)).
  destruct (stripHyphens_spaced s (replaceRuns_spaced false _)) as [Hsp _].
  split; [rewrite length_take; lia|].
  split; [apply Forall_take, stripHyphens_chars, replaceRuns_chars|].
  split; [by apply spaced_no_head, spaced_take|].
  split; [intros i; by apply spaced_lookup with true, spaced_take|].
  rewrite <- (replaceRuns_alnum false (toLowerCase title)).
  fold s. rewrite <- (stripHyphens_alnum s).
  rewrite <- (take_drop 50 (stripHyphens s)) at 2.
  rewrite filter_app. by apply prefix_app_r.
Qed.

Lemma chars_accepted s :
  Forall (fun c => isLowerAlnum c = true \/ c = hyphen) s ->
  forallb isBranchChar s = true.
Proof.
  induction 1 as [|c s Hc Hs IH]; [done|].
  cbn [forallb]. rewrite IH, andb_true_r.
  revert Hc. unfold isLowerAlnum, isBranchChar, hyphen. lia.
Qed.

Lemma removelast_length {A} (s : list A) :
  (length (removelast s) <= length s)%nat.
Proof.
  induction s as [|c s IH]; [done|]. destruct s as [|c' s]; [cbn; lia|].
  change (removelast (c :: c' :: s)) with (c :: removelast (c' :: s)).
  cbn [length] in *. lia.
Qed.

Lemma replaceRuns_length b s : (length (replaceRuns b s) <= length s)%nat.
Proof.
  revert b. induction s as [|c s IH]; intros b; cbn [replaceRuns]; [done|].
  destruct (isLowerAlnum c); [cbn [length]; specialize (IH false); lia|].
  destruct b; cbn [length]; specialize (IH true); lia.
Qed.

Lemma stripHyphens_length s : (length (stripHyphens s) <= length s)%nat.
Proof.
  unfold stripHyphens.
  set (s1 := match s with
             | c :: s' => if c =? hyphen then s' else s
             | [] => []
             end).
  assert (H1 : (length s1 <= length s)%nat).
  { subst s1. destruct s as [|c s]; [done|].
    destruct (c =? hyphen); cbn [length]; lia. }
  destruct (last s1) as [c|]; [|done].
  destruct (c =? hyphen); [|done].
  pose proof (removelast_length s1). lia.
Qed.

(** X19. The input box accepts every sanitized title, and a title that
    fits is trimmed on both sides. When the sanitized title is not empty,
    [validateInput] accepts it; and when the lower-case title has at most
    50 units, the sanitized title does not end with a hyphen. *)
Theorem sanitizedTitle_accepted title :
  sanitizedTitle toLowerCase title <> [] ->
  validateInput (sanitizedTitle toLowerCase title) = true
  /\ ((length (toLowerCase title) <= 50)%nat ->
      last (sanitizedTitle toLowerCase title) <> Some hyphen).
Proof.
  intros Hne. split.
  - unfold validateInput.
    destruct (sanitizedTitle toLowerCase title) as [|c s] eqn:Hs; [done|].
    rewrite <- Hs. apply chars_accepted.
    apply Forall_take, stripHyphens_chars, replaceRuns_chars.
  - intros Hlen. unfold sanitizedTitle.
    set (s := replaceRuns false (toLowerCase title)).
    rewrite take_ge.
    + by apply stripHyphens_spaced, replaceRuns_spaced.
    + pose proof (stripHyphens_length s).
      pose proof (replaceRuns_length false (toLowerCase title)).
      fold s in H0. lia.
Qed.

End BranchNameFacts.

Lemma sanitizedTitle_accepted_witness :
  validateInput (sanitizedTitle lowerAscii "Fix: Login!") = true
  /\ ((length (lowerAscii "Fix: Login!") <= 50)%nat ->
      last (sanitizedTitle lowerAscii "Fix: Login!") <> Some hyphen).
Proof.
  apply (sanitizedTitle_accepted lowerAscii "Fix: Login!"). by vm_compute.
Defined.

(** The cut at 50 units comes after the trimming: a title whose 50th unit
    falls in a run of other characters gives a name that ends with a
    hyphen. *)
Example sanitizedTitle_cut_at_hyphen :
  sanitizedTitle lowerAscii
    "A title of fifty-one units with a blank at the en d"
  = units "a-title-of-fifty-one-units-with-a-blank-at-the-en-".
Proof. by vm_compute. Qed.

(** ** The default branch name *)

Lemma getSubstitution_plain replacement matched before after :
  Forall (fun c => c <> 36) replacement ->
  getSubstitution replacement matched before after = replacement.
Proof.
  induction 1 as [|c r Hc Hr IH]; [done|].
  cbn [getSubstitution]. apply Z.eqb_neq in Hc. by rewrite Hc, IH.
Qed.

Lemma replaceAt_skip p pattern replacement pre before s :
  Forall (fun c => c <> p) pre ->
  replaceAt (p :: pattern) replacement before (pre ++ s)
  = replaceAt (p :: pattern) replacement (before ++ pre) s.
Proof.
  intros Hpre. revert before.
  induction Hpre as [|c pre Hc Hpre IH]; intros before.
  - by rewrite app_nil_r.
  - cbn [app replaceAt startsWith].
    assert ((p =? c) = false) as -> by (apply Z.eqb_neq; congruence).
    cbn [andb]. rewrite IH. by rewrite <- app_assoc.
Qed.

Lemma replaceAt_here pattern replacement before s :
  startsWith pattern s = true ->
  replaceAt pattern replacement before s
  = before
    ++ getSubstitution replacement pattern before (drop (length pattern) s)
    ++ drop (length pattern) s.
Proof. intros Hs. destruct s; cbn [replaceAt]; by rewrite Hs. Qed.

Lemma units_String c s :
  units (String c s) = Z.of_nat (Ascii.nat_of_ascii c) :: units s.
Proof. done. Qed.

Lemma pretty_N_go_units (P : Z -> Prop) x s :
  (forall d, P (Z.of_nat (Ascii.nat_of_ascii (pretty_N_char d)))) ->
  Forall P (units s) -> Forall P (units (pretty_N_go x s)).
Proof.
  intros Hd. revert s. induction (N.lt_wf_0 x) as [x _ IH]; intros s Hs.
  assert (x = 0 \/ 0 < x)%N as [->|Hx] by lia; [done|].
  rewrite pretty_N_go_step by done. apply IH; [by apply N.div_lt|].
  rewrite units_String. by constructor.
Qed.

Lemma toString_units (P : Z -> Prop) n :
  (forall c, 48 <= c <= 57 -> P c) -> P hyphen ->
  Forall P (units (toString n)).
Proof.
  intros Hdigit Hhyphen.
  assert (Hd : forall d, P (Z.of_nat (Ascii.nat_of_ascii (pretty_N_char d)))).
  { intros d. apply Hdigit. unfold pretty_N_char.
    repeat case_match; vm_compute; split; discriminate. }
  assert (Hpos : forall p, Forall P (units (pretty (N.pos p)))).
  { intros p. unfold pretty, pretty_N. rewrite decide_False by done.
    by apply pretty_N_go_units; [|constructor]. }
  unfold toString, pretty, pretty_Z. destruct n as [|p|p].
  - repeat constructor. apply Hdigit. by vm_compute.
  - apply Hpos.
  - change (units ("-" +:+ pretty p)) with (hyphen :: units (pretty (N.pos p))).
    constructor; [done|apply Hpos].
Qed.

Lemma branchTypeValue_units (P : Z -> Prop) branchType :
  (forall c, 97 <= c <= 122 -> P c) ->
  Forall P (branchTypeValue branchType).
Proof.
  intros Hletter. destruct branchType;
    repeat constructor; apply Hletter; by vm_compute.
Qed.

Section DefaultBranchNameFacts.
Context (toLowerCase : string -> list Z).

(** X20. The branch name offered by default is one the input box accepts.
    With the default template, for each branch type, every work item id
    that prints in decimal and every title, the offered name is the type,
    a slash, the decimal id, a hyphen and the sanitized title, and
    [validateInput] accepts it - also when the sanitized title is empty and
    the name ends with the hyphen. *)
Theorem defaultBranchName_accepted branchType workItem :
  printsInDecimal (System_Id workItem) ->
  let name :=
    defaultBranchName toLowerCase defaultBranchTemplate branchType workItem in
  name = branchTypeValue branchType ++ units "/"
         ++ units (toString (System_Id workItem)) ++ units "-"
         ++ sanitizedTitle toLowerCase (System_Title workItem)
  /\ validateInput name = true.
Proof.
  intros _ name. subst name.
  set (ty := branchTypeValue branchType).
  set (id := units (toString (System_Id workItem))).
  set (title := sanitizedTitle toLowerCase (System_Title workItem)).
  assert (Htitle : Forall (fun c => isLowerAlnum c = true \/ c = hyphen) title).
  { apply Forall_take, stripHyphens_chars, replaceRuns_chars. }
  assert (Heq : defaultBranchName toLowerCase defaultBranchTemplate
                  branchType workItem
                = ty ++ units "/" ++ id ++ units "-" ++ title).
  { unfold defaultBranchName, replace. fold ty id title.
    assert (replaceAt (units "{type}") ty [] defaultBranchTemplate
            = (ty ++ units "/") ++ units "{id}-{title}") as ->.
    { subst ty. by destruct branchType; vm_compute. }
    change (units "{id}") with (123 :: units "id}").
    rewrite (replaceAt_skip 123 (units "id}")).
    2:{ apply Forall_app. split.
        - apply branchTypeValue_units. lia.
        - repeat constructor. by vm_compute. }
    rewrite (replaceAt_here (123 :: units "id}")) by (by vm_compute).
    rewrite getSubstitution_plain
      by (apply toString_units; [lia|by vm_compute]).
    change (drop _ (units "{id}-{title}")) with (units "-" ++ units "{title}").
    rewrite app_nil_l.
    change (units "{title}") with (123 :: units "title}").
    replace ((ty ++ units "/") ++ id ++ units "-" ++ 123 :: units "title}")
      with ((ty ++ units "/" ++ id ++ units "-") ++ 123 :: units "title}")
      by (by rewrite <- !app_assoc).
    rewrite replaceAt_skip.
    2:{ rewrite !Forall_app. repeat split.
        - apply branchTypeValue_units. lia.
        - repeat constructor. by vm_compute.
        - apply toString_units; [lia|by vm_compute].
        - repeat constructor. by vm_compute. }
    rewrite replaceAt_here by (by vm_compute).
    rewrite getSubstitution_plain.
    2:{ eapply Forall_impl; [exact Htitle|]. intros c.
        unfold isLowerAlnum, hyphen. lia. }
    change (drop _ (123 :: units "title}")) with (@nil Z).
    by rewrite app_nil_r, !app_nil_l, <- !app_assoc. }
  split; [exact Heq|]. rewrite Heq.
  assert (Hall : Forall (fun c => isBranchChar c = true)
                   (ty ++ units "/" ++ id ++ units "-" ++ title)).
  { rewrite !Forall_app. repeat split.
    - apply branchTypeValue_units. unfold isBranchChar, hyphen. lia.
    - repeat constructor.
    - apply toString_units; [unfold isBranchChar, hyphen; lia|done].
    - repeat constructor.
    - eapply Forall_impl; [exact Htitle|]. intros c.
      unfold isLowerAlnum, isBranchChar, hyphen. lia. }
  unfold validateInput.
  destruct (ty ++ units "/" ++ id ++ units "-" ++ title) as [|c s] eqn:Hs.
  { subst ty. by destruct branchType. }
  clear Hs. revert Hall. generalize (c :: s). intros s'.
  induction 1 as [|c' s'' Hc Hs' IH]; [done|].
  cbn [forallb]. by rewrite Hc, IH.
Qed.

End DefaultBranchNameFacts.

Lemma defaultBranchName_accepted_witness :
  defaultBranchName lowerAscii defaultBranchTemplate bugfix item42
  = branchTypeValue bugfix ++ units "/" ++ units (toString 42) ++ units "-"
    ++ sanitizedTitle lowerAscii (System_Title item42)
  /\ validateInput
       (defaultBranchName lowerAscii defaultBranchTemplate bugfix item42)
     = true.
Proof.
  apply (defaultBranchName_accepted lowerAscii bugfix item42). by vm_compute.
Defined.

Example defaultBranchName_item42 :
  defaultBranchName lowerAscii defaultBranchTemplate bugfix item42
  = units "bugfix/42-fix-bug".
Proof. by vm_compute. Qed.
